(** * RTP-Net: the V-Net style segmentation network and its training engine

    A shallow embedding of [src/network/vbbnet.py] and [src/train.py].

    - Python integers are [Z]; [//] and [%] are [Z.div] and [Z.modulo] (both
      floor towards minus infinity, as in Python) with the division by zero
      raised explicitly.
    - Python exceptions are the type [exn]; a call that may raise returns a
      [result].
    - Tensors are symbolic: a tensor carries its 5-D shape and the expression
      (dataflow tree) that computed it.  Layer arithmetic on the values is
      floating point and is not modelled; the shape rules of the torch layers
      are.
    - Learnable parameters, where the initialisers touch them, are lists of
      real numbers (the idealisation of the float tensors). *)

From Stdlib Require Import ZArith List String Ascii Reals Lra Lia Bool QArith DecimalString DecimalZ.
From stdpp Require Import base gmap strings list sorting.
Import ListNotations.

Open Scope string_scope.
Open Scope list_scope.
Open Scope Z_scope.

(* ===================================================================== *)
(** * Python preliminaries *)
(* ===================================================================== *)

Module Py.

(** The exceptions the two source files can raise. *)
Inductive exn : Type :=
| AttributeError (name : string)
| AssertionError (msg : string)
| RuntimeError (msg : string)
| ValueError (msg : string)
| IndexError (msg : string)
| KeyError (key : string)
| TypeError (msg : string)
| ZeroDivisionError.

Inductive result (A : Type) : Type :=
| Ok (a : A)
| Raise (e : exn).
Arguments Ok {A} a.
Arguments Raise {A} e.

#[export] Instance result_ret : MRet result := fun _ a => Ok a.
#[export] Instance result_bind : MBind result := fun _ _ f m =>
  match m with
  | Ok a => f a
  | Raise e => Raise e
  end.

Definition is_ok {A} (r : result A) : bool :=
  match r with Ok _ => true | Raise _ => false end.

(** [needle in hay] on two Python strings: substring test. *)
Fixpoint str_contains (needle hay : string) : bool :=
  String.prefix needle hay ||
  match hay with
  | EmptyString => false
  | String _ rest => str_contains needle rest
  end.

(** [range(n)] *)
Definition range (n : Z) : list Z := map Z.of_nat (seq 0 (Z.to_nat n)).

(** ['{}'.format(n)] for an integer. *)
Definition format_int (n : Z) : string := NilZero.string_of_int (Z.to_int n).

(** [a // b] and [a % b] *)
Definition floordiv (a b : Z) : result Z :=
  if b =? 0 then Raise ZeroDivisionError else Ok (a / b).
Definition pymod (a b : Z) : result Z :=
  if b =? 0 then Raise ZeroDivisionError else Ok (a mod b).

End Py.
Import Py.

(* ===================================================================== *)
(** * src/network/vbbnet.py *)
(* ===================================================================== *)

Module Vbbnet.

(** ** Weight initialisers *)

(** An attribute of a module that may hold a parameter tensor: not there at
    all, [None], or a tensor (flattened). *)
Inductive Attr : Type :=
| Missing
| PyNone
| Param (data : list R).

(** A module as the initialisers see it: the name of its class, its [weight]
    and [bias] attributes, and its sub-modules by attribute name in
    registration order. *)
#[warnings="-register-all"]
Inductive NNModule : Type :=
| NNMod (classname : string) (weight bias : Attr) (children : list (string * NNModule)).

Definition classname_of (m : NNModule) : string :=
  match m with NNMod c _ _ _ => c end.
Definition weight_of (m : NNModule) : Attr :=
  match m with NNMod _ w _ _ => w end.
Definition bias_of (m : NNModule) : Attr :=
  match m with NNMod _ _ b _ => b end.
Definition children_of (m : NNModule) : list (string * NNModule) :=
  match m with NNMod _ _ _ cs => cs end.

Fixpoint lookup_child (cs : list (string * NNModule)) (name : string) : option NNModule :=
  match cs with
  | [] => None
  | (n, c) :: rest => if String.eqb n name then Some c else lookup_child rest name
  end.



Definition with_bias (m : NNModule) (b' : Attr) : NNModule :=
  match m with NNMod cn w _ cs => NNMod cn w b' cs end.

(** [m.attr.data] *)
Definition attr_data (name : string) (a : Attr) : result (list R) :=
  match a with
  | Missing => Raise (AttributeError name)
  | PyNone => Raise (AttributeError "data")
  | Param d => Ok d
  end.

(** [m.attr is not None] *)
Definition attr_is_not_none (name : string) (a : Attr) : result bool :=
  match a with
  | Missing => Raise (AttributeError name)
  | PyNone => Ok false
  | Param _ => Ok true
  end.

(** [tensor.zero_()] *)
Definition zero_ (data : list R) : list R := repeat 0%R (length data).



Section Initialisers.

(** The random generator of torch: [normal_ mean std n g] draws the [n] new
    entries of a tensor and returns the generator's next state. *)
Context {RNG : Type}.
Variable normal_ : R -> R -> nat -> RNG -> list R * RNG.

Definition gaussian_weight_init (conv_std bn_std : R) (m : NNModule) (g : RNG)
  : result (NNModule * RNG) :=
  let classname := classname_of m in
  if str_contains "Conv3d" classname || str_contains "ConvTranspose3d" classname then
    data ← attr_data "weight" (weight_of m);
    let drawn := normal_ 0%R conv_std (length data) g in
    let m := NNMod classname (Param (fst drawn)) (bias_of m) (children_of m) in
    has_bias ← attr_is_not_none "bias" (bias_of m);
    if has_bias : bool then
      b ← attr_data "bias" (bias_of m);
      Ok (with_bias m (Param (zero_ b)), snd drawn)
    else Ok (m, snd drawn)
  else if str_contains "BatchNorm" classname then
    data ← attr_data "weight" (weight_of m);
    let drawn := normal_ 1%R bn_std (length data) g in
    let m := NNMod classname (Param (fst drawn)) (bias_of m) (children_of m) in
    b ← attr_data "bias" (bias_of m);
    Ok (with_bias m (Param (zero_ b)), snd drawn)
  else Ok (m, g).

(** [net.apply(fn)]: the sub-modules first, in registration order, then the
    module itself. *)
Fixpoint apply (fn : NNModule -> RNG -> result (NNModule * RNG)) (m : NNModule) (g : RNG)
  {struct m} : result (NNModule * RNG) :=
  match m with
  | NNMod cn w b cs =>
      r ← (fix apply_children (cs : list (string * NNModule)) (g : RNG)
             : result (list (string * NNModule) * RNG) :=
             match cs with
             | [] => Ok ([], g)
             | (name, c) :: rest =>
                 r1 ← apply fn c g;
                 r2 ← apply_children rest (snd r1);
                 Ok ((name, fst r1) :: fst r2, snd r2)
             end) cs g;
      fn (NNMod cn w b (fst r)) (snd r)
  end.


End Initialisers.

(** A small network with the attribute path the focal initialiser writes to,
    and a generator that returns the mean of the distribution it is asked to
    sample; used to run the initialisers on a concrete input. *)
Definition mean_sampler (mean std : R) (n : nat) (g : unit) : list R * unit :=
  (repeat mean n, g).

Definition tiny_net : NNModule :=
  NNMod "TinyNet" Missing Missing
    [("out_block",
      NNMod "OutputTransition" Missing Missing
        [("conv1", NNMod "Conv3d" (Param [3; 3; 3; 3]%R) (Param [7; 7]%R) []);
         ("bn1", NNMod "BatchNorm3d" (Param [2; 2]%R) (Param [5; 5]%R) []);
         ("conv2", NNMod "Conv3d" (Param [3; 3; 3; 3]%R) (Param [7; 7]%R) []);
         ("relu1", NNMod "ReLU" Missing Missing []);
         ("softmax", NNMod "Softmax" Missing Missing [])])].

Definition tiny_net_gaussian : NNModule :=
  NNMod "TinyNet" Missing Missing
    [("out_block",
      NNMod "OutputTransition" Missing Missing
        [("conv1", NNMod "Conv3d" (Param [0; 0; 0; 0]%R) (Param [0; 0]%R) []);
         ("bn1", NNMod "BatchNorm3d" (Param [1; 1]%R) (Param [0; 0]%R) []);
         ("conv2", NNMod "Conv3d" (Param [0; 0; 0; 0]%R) (Param [0; 0]%R) []);
         ("relu1", NNMod "ReLU" Missing Missing []);
         ("softmax", NNMod "Softmax" Missing Missing [])])].


Fixpoint find (m : NNModule) (path : list string) : option NNModule :=
  match path with
  | [] => Some m
  | name :: rest =>
      match lookup_child (children_of m) name with
      | Some c => find c rest
      | None => None
      end
  end.


(** ** Symbolic tensors *)

(** Axes (batch, channel, depth, height, width). *)
Record Shape : Type := mkShape {
  batch : Z; chans : Z; depth : Z; height : Z; width : Z }.

Definition Shape_eqb (a b : Shape) : bool :=
  (batch a =? batch b) && (chans a =? chans b) && (depth a =? depth b)
  && (height a =? height b) && (width a =? width b).

Definition spatial (s : Shape) : Z * Z * Z := (depth s, height s, width s).

(** The torch layers the file instantiates. *)
Record Conv3d : Type := mkConv3d {
  conv_in : Z; conv_out : Z; conv_kernel : Z; conv_stride : Z; conv_padding : Z }.
Record ConvTranspose3d : Type := mkConvTranspose3d {
  convT_in : Z; convT_out : Z; convT_kernel : Z; convT_stride : Z }.
Record BatchNorm3d : Type := mkBatchNorm3d { num_features : Z }.
Inductive Activation : Type := ELU | ReLU.
(** A dropout slot of a stage: the [passthrough] function or [nn.Dropout3d(p)]. *)
Inductive DropSlot : Type := passthrough | Dropout3d (p : Q).

(** The dataflow tree of a tensor. *)
Inductive Term : Type :=
| TInput (name : string)
| TConv (c : Conv3d) (t : Term)
| TConvT (c : ConvTranspose3d) (t : Term)
| TNorm (b : BatchNorm3d) (t : Term)
| TAct (a : Activation) (t : Term)
| TDrop (p : Q) (t : Term)
| TSoftmax (dim : Z) (t : Term)
| TCat (dim : Z) (a b : Term)
| TAdd (a b : Term).

Record Tensor : Type := mkTensor { shape : Shape; expr : Term }.

(** ** Shape rules of the torch layers *)

(** Output extent of a convolution along one axis (dilation 1). *)
Definition conv_extent (c : Conv3d) (n : Z) : Z :=
  (n + 2 * conv_padding c - conv_kernel c) / conv_stride c + 1.

(** Output extent of a transposed convolution (no padding, dilation 1). *)
Definition convT_extent (c : ConvTranspose3d) (n : Z) : Z :=
  (n - 1) * convT_stride c + convT_kernel c.

Definition fits (c : Conv3d) (n : Z) : bool :=
  conv_kernel c <=? n + 2 * conv_padding c.

Definition apply_conv (c : Conv3d) (x : Tensor) : result Tensor :=
  let s := shape x in
  if negb (chans s =? conv_in c) then
    Raise (RuntimeError "input channels do not match the weight")
  else if negb (fits c (depth s) && fits c (height s) && fits c (width s)) then
    Raise (RuntimeError "kernel size can't be greater than actual input size")
  else
    Ok (mkTensor
          (mkShape (batch s) (conv_out c) (conv_extent c (depth s))
                   (conv_extent c (height s)) (conv_extent c (width s)))
          (TConv c (expr x))).

Definition apply_convT (c : ConvTranspose3d) (x : Tensor) : result Tensor :=
  let s := shape x in
  if negb (chans s =? convT_in c) then
    Raise (RuntimeError "input channels do not match the weight")
  else
    Ok (mkTensor
          (mkShape (batch s) (convT_out c) (convT_extent c (depth s))
                   (convT_extent c (height s)) (convT_extent c (width s)))
          (TConvT c (expr x))).

(** Batch normalisation of a module in training mode (the mode the training
    engine leaves the network in): the channel count must match, and there
    must be more than one value per channel. *)
Definition apply_norm (b : BatchNorm3d) (x : Tensor) : result Tensor :=
  let s := shape x in
  if negb (chans s =? num_features b) then
    Raise (RuntimeError "running_mean should contain as many elements as channels")
  else if batch s * (depth s * height s * width s) =? 1 then
    Raise (ValueError "Expected more than 1 value per channel when training")
  else Ok (mkTensor s (TNorm b (expr x))).

Definition apply_act (a : Activation) (x : Tensor) : Tensor :=
  mkTensor (shape x) (TAct a (expr x)).

Definition apply_drop (d : DropSlot) (x : Tensor) : Tensor :=
  match d with
  | passthrough => x
  | Dropout3d p => mkTensor (shape x) (TDrop p (expr x))
  end.

Definition apply_softmax (dim : Z) (x : Tensor) : Tensor :=
  mkTensor (shape x) (TSoftmax dim (expr x)).

(** [torch.cat((a, b), 1)] *)
Definition cat1 (a b : Tensor) : result Tensor :=
  let sa := shape a in
  let sb := shape b in
  if (batch sa =? batch sb) && (depth sa =? depth sb)
     && (height sa =? height sb) && (width sa =? width sb)
  then Ok (mkTensor (mkShape (batch sa) (chans sa + chans sb)
                             (depth sa) (height sa) (width sa))
                    (TCat 1 (expr a) (expr b)))
  else Raise (RuntimeError "Sizes of tensors must match except in dimension 1").

(** [torch.add(a, b)]; the network only ever adds a tensor to the output of a
    shape-preserving block stack, so no broadcasting is modelled. *)
Definition add (a b : Tensor) : result Tensor :=
  if Shape_eqb (shape a) (shape b)
  then Ok (mkTensor (shape a) (TAdd (expr a) (expr b)))
  else Raise (RuntimeError "The size of tensor a must match the size of tensor b").

(** The exceptions the layers raise on tensors that do not fit. *)
Definition shape_error (e : exn) : Prop :=
  match e with
  | RuntimeError _ | ValueError _ => True
  | _ => False
  end.

(** Observers of a dataflow tree: the operands of its dropout nodes, and of
    its transposed-convolution nodes. *)
Fixpoint dropout_inputs (t : Term) : list Term :=
  match t with
  | TInput _ => []
  | TDrop _ a => a :: dropout_inputs a
  | TConv _ a | TConvT _ a | TNorm _ a | TAct _ a | TSoftmax _ a => dropout_inputs a
  | TCat _ a b | TAdd a b => dropout_inputs a ++ dropout_inputs b
  end.

Fixpoint convT_inputs (t : Term) : list Term :=
  match t with
  | TInput _ => []
  | TConvT _ a => a :: convT_inputs a
  | TConv _ a | TDrop _ a | TNorm _ a | TAct _ a | TSoftmax _ a => convT_inputs a
  | TCat _ a b | TAdd a b => convT_inputs a ++ convT_inputs b
  end.

(** Two tensors with the same dropout and transposed-convolution operands:
    what a layer that is neither of the two preserves. *)
Definition same_observers (x y : Tensor) : Prop :=
  dropout_inputs (expr y) = dropout_inputs (expr x) /\
  convT_inputs (expr y) = convT_inputs (expr x).

(** ** ELUCons *)
Definition ELUCons (elu : bool) (nchan : Z) : Activation :=
  if elu then ELU else ReLU.

(** ** LUConv_bottle *)
Record LUConv_bottle : Type := mkLUConv_bottle {
  lb_act : bool;
  lb_relu1 : Activation; lb_conv1 : Conv3d; lb_bn1 : BatchNorm3d;
  lb_relu2 : Activation; lb_conv2 : Conv3d; lb_bn2 : BatchNorm3d;
  lb_relu3 : Activation; lb_conv3 : Conv3d; lb_bn3 : BatchNorm3d }.

Definition LUConv_bottle_init (nchan : Z) (elu act : bool) : LUConv_bottle :=
  {| lb_act := act;
     lb_relu1 := ELUCons elu (nchan / 4);
     lb_conv1 := mkConv3d nchan (nchan / 4) 1 1 0;
     lb_bn1 := mkBatchNorm3d (nchan / 4);
     lb_relu2 := ELUCons elu (nchan / 4);
     lb_conv2 := mkConv3d (nchan / 4) (nchan / 4) 3 1 1;
     lb_bn2 := mkBatchNorm3d (nchan / 4);
     lb_relu3 := ELUCons elu nchan;
     lb_conv3 := mkConv3d (nchan / 4) nchan 1 1 0;
     lb_bn3 := mkBatchNorm3d nchan |}.

Definition LUConv_bottle_forward (self : LUConv_bottle) (x : Tensor) : result Tensor :=
  out ← apply_conv (lb_conv1 self) x;
  out ← apply_norm (lb_bn1 self) out;
  let out := apply_act (lb_relu1 self) out in
  out ← apply_conv (lb_conv2 self) out;
  out ← apply_norm (lb_bn2 self) out;
  let out := apply_act (lb_relu2 self) out in
  if lb_act self then
    out ← apply_conv (lb_conv3 self) out;
    out ← apply_norm (lb_bn3 self) out;
    Ok (apply_act (lb_relu3 self) out)
  else
    out ← apply_conv (lb_conv3 self) out;
    apply_norm (lb_bn3 self) out.

(** ** LUConv *)
Record LUConv : Type := mkLUConv {
  lu_act : bool; lu_relu1 : Activation; lu_conv1 : Conv3d; lu_bn1 : BatchNorm3d }.

Definition LUConv_init (nchan : Z) (elu act : bool) : LUConv :=
  {| lu_act := act;
     lu_relu1 := ELUCons elu nchan;
     lu_conv1 := mkConv3d nchan nchan 3 1 1;
     lu_bn1 := mkBatchNorm3d nchan |}.

Definition LUConv_forward (self : LUConv) (x : Tensor) : result Tensor :=
  if lu_act self then
    out ← apply_conv (lu_conv1 self) x;
    out ← apply_norm (lu_bn1 self) out;
    Ok (apply_act (lu_relu1 self) out)
  else
    out ← apply_conv (lu_conv1 self) x;
    apply_norm (lu_bn1 self) out.

(** ** _make_nConv *)

(** An element of the [nn.Sequential] that [_make_nConv] returns. *)
Inductive ConvBlock : Type :=
| Plain (m : LUConv)
| Bottle (m : LUConv_bottle).

Definition _make_nConv (nchan depth : Z) (elu use_bottle : bool) : list ConvBlock :=
  fold_left
    (fun layers i =>
       if use_bottle then
         if negb (i =? depth - 1)
         then layers ++ [Bottle (LUConv_bottle_init nchan elu true)]
         else layers ++ [Bottle (LUConv_bottle_init nchan elu false)]
       else
         if negb (i =? depth - 1)
         then layers ++ [Plain (LUConv_init nchan elu true)]
         else layers ++ [Plain (LUConv_init nchan elu false)])
    (range depth) [].

Definition ConvBlock_forward (b : ConvBlock) (x : Tensor) : result Tensor :=
  match b with
  | Plain m => LUConv_forward m x
  | Bottle m => LUConv_bottle_forward m x
  end.

(** [nn.Sequential.forward]: feed the input through the blocks in order. *)
Fixpoint Sequential_forward (layers : list ConvBlock) (x : Tensor) : result Tensor :=
  match layers with
  | [] => Ok x
  | b :: rest => out ← ConvBlock_forward b x; Sequential_forward rest out
  end.

(** The block of the requested variant. *)
Definition a_block (nchan : Z) (elu use_bottle act : bool) : ConvBlock :=
  if use_bottle then Bottle (LUConv_bottle_init nchan elu act)
  else Plain (LUConv_init nchan elu act).

(** Observers of a block, used to state what [_make_nConv] builds. *)
Definition block_in_channels (b : ConvBlock) : Z :=
  match b with
  | Plain m => conv_in (lu_conv1 m)
  | Bottle m => conv_in (lb_conv1 m)
  end.
Definition block_out_channels (b : ConvBlock) : Z :=
  match b with
  | Plain m => conv_out (lu_conv1 m)
  | Bottle m => conv_out (lb_conv3 m)
  end.
Definition block_act (b : ConvBlock) : bool :=
  match b with
  | Plain m => lu_act m
  | Bottle m => lb_act m
  end.
Definition block_is_bottle (b : ConvBlock) : bool :=
  match b with Plain _ => false | Bottle _ => true end.

(** ** InputTransition *)
Record InputTransition : Type := mkInputTransition {
  it_conv1 : Conv3d; it_bn1 : BatchNorm3d; it_relu1 : Activation }.

Definition InputTransition_init (inChans : Z) (elu : bool) : InputTransition :=
  {| it_conv1 := mkConv3d inChans 16 3 1 1;
     it_bn1 := mkBatchNorm3d 16;
     it_relu1 := ELUCons elu 16 |}.

Definition InputTransition_forward (self : InputTransition) (x : Tensor) : result Tensor :=
  out ← apply_conv (it_conv1 self) x;
  out ← apply_norm (it_bn1 self) out;
  let out := apply_act (it_relu1 self) out in
  Ok out.

(** ** DownTransition *)
Record DownTransition : Type := mkDownTransition {
  dt_down_conv : Conv3d; dt_bn1 : BatchNorm3d; dt_do1 : DropSlot;
  dt_relu1 : Activation; dt_relu2 : Activation; dt_ops : list ConvBlock }.

Definition DownTransition_init (inChans nConvs : Z) (elu dropout use_bottle : bool)
  : DownTransition :=
  let outChans := 2 * inChans in
  {| dt_down_conv := mkConv3d inChans outChans 2 2 0;
     dt_bn1 := mkBatchNorm3d outChans;
     dt_do1 := passthrough;
     dt_relu1 := ELUCons elu outChans;
     dt_relu2 := ELUCons elu outChans;
     dt_ops := _make_nConv outChans nConvs elu use_bottle |}.

Definition DownTransition_forward (self : DownTransition) (x : Tensor) : result Tensor :=
  down ← apply_conv (dt_down_conv self) x;
  down ← apply_norm (dt_bn1 self) down;
  let down := apply_act (dt_relu1 self) down in
  let out := apply_drop (dt_do1 self) down in
  out ← Sequential_forward (dt_ops self) out;
  out ← add out down;
  Ok (apply_act (dt_relu2 self) out).

(** ** UpTransition *)
Record UpTransition : Type := mkUpTransition {
  ut_up_conv : ConvTranspose3d; ut_bn1 : BatchNorm3d;
  ut_do1 : DropSlot; ut_do2 : DropSlot;
  ut_relu1 : Activation; ut_relu2 : Activation; ut_ops : list ConvBlock }.

Definition UpTransition_init (inChans outChans nConvs : Z) (elu dropout use_bottle : bool)
  : UpTransition :=
  {| ut_up_conv := mkConvTranspose3d inChans (outChans / 2) 2 2;
     ut_bn1 := mkBatchNorm3d (outChans / 2);
     ut_do1 := passthrough;
     ut_do2 := Dropout3d (2 # 10);
     ut_relu1 := ELUCons elu (outChans / 2);
     ut_relu2 := ELUCons elu outChans;
     ut_ops := _make_nConv outChans nConvs elu use_bottle |}.

Definition UpTransition_forward (self : UpTransition) (x skipx : Tensor) : result Tensor :=
  let out := apply_drop (ut_do1 self) x in
  let skipxdo := apply_drop (ut_do2 self) skipx in
  out ← apply_convT (ut_up_conv self) out;
  out ← apply_norm (ut_bn1 self) out;
  let out := apply_act (ut_relu1 self) out in
  xcat ← cat1 out skipxdo;
  out ← Sequential_forward (ut_ops self) xcat;
  out ← add out xcat;
  Ok (apply_act (ut_relu2 self) out).

(** ** OutputTransition *)
Record OutputTransition : Type := mkOutputTransition {
  ot_conv1 : Conv3d; ot_bn1 : BatchNorm3d; ot_conv2 : Conv3d;
  ot_relu1 : Activation; ot_softmax_dim : Z }.

Definition OutputTransition_init (inChans outChans : Z) (elu : bool) : OutputTransition :=
  {| ot_conv1 := mkConv3d inChans outChans 3 1 1;
     ot_bn1 := mkBatchNorm3d outChans;
     ot_conv2 := mkConv3d outChans outChans 1 1 0;
     ot_relu1 := ELUCons elu outChans;
     ot_softmax_dim := 1 |}.

Definition OutputTransition_forward (self : OutputTransition) (x : Tensor) : result Tensor :=
  out ← apply_conv (ot_conv1 self) x;
  out ← apply_norm (ot_bn1 self) out;
  let out := apply_act (ot_relu1 self) out in
  out ← apply_conv (ot_conv2 self) out;
  let out := apply_softmax (ot_softmax_dim self) out in
  Ok out.

(** ** PreBlock *)
Record PreBlock : Type := mkPreBlock {
  pre_conv : Conv3d; pre_bn : BatchNorm3d; pre_act : Activation }.

Definition PreBlock_init (in_channels out_channels : Z) (elu : bool) : PreBlock :=
  {| pre_conv := mkConv3d in_channels out_channels 2 2 0;
     pre_bn := mkBatchNorm3d out_channels;
     pre_act := ELUCons elu out_channels |}.

Definition PreBlock_forward (self : PreBlock) (input : Tensor) : result Tensor :=
  out ← apply_conv (pre_conv self) input;
  out ← apply_norm (pre_bn self) out;
  Ok (apply_act (pre_act self) out).

(** ** PostBlock *)
Record PostBlock : Type := mkPostBlock {
  post_up_conv : ConvTranspose3d; post_up_bn : BatchNorm3d; post_up_act : Activation }.

Definition PostBlock_init (in_channels out_channels : Z) (elu : bool) : PostBlock :=
  {| post_up_conv := mkConvTranspose3d in_channels out_channels 2 2;
     post_up_bn := mkBatchNorm3d out_channels;
     post_up_act := ELUCons elu out_channels |}.

Definition PostBlock_forward (self : PostBlock) (input skip : Tensor) : result Tensor :=
  out ← apply_convT (post_up_conv self) input;
  out ← apply_norm (post_up_bn self) out;
  let out := apply_act (post_up_act self) out in
  cat1 out skip.

(** ** SegmentationNet *)

(** The sub-modules a [SegmentationNet] registers. *)
Inductive Module : Type :=
| MPre (m : PreBlock)
| MInput (m : InputTransition)
| MDown (m : DownTransition)
| MUp (m : UpTransition)
| MOutput (m : OutputTransition)
| MPost (m : PostBlock).

(** An [nn.Module] keeps its sub-modules in an ordered dictionary keyed by
    attribute name; [self.name = m] registers, [self.name] looks up and raises
    [AttributeError] when nothing is registered under [name]. *)
Definition SegmentationNet : Type := list (string * Module).

Fixpoint setattr (self : SegmentationNet) (name : string) (m : Module) : SegmentationNet :=
  match self with
  | [] => [(name, m)]
  | (n, m') :: rest =>
      if String.eqb n name then (n, m) :: rest else (n, m') :: setattr rest name m
  end.

Fixpoint getattr (self : SegmentationNet) (name : string) : result Module :=
  match self with
  | [] => Raise (AttributeError name)
  | (n, m) :: rest => if String.eqb n name then Ok m else getattr rest name
  end.

(** [m(x)] and [m(x, skip)]: dispatch to the [forward] of the module's class. *)
Definition call1 (m : Module) (x : Tensor) : result Tensor :=
  match m with
  | MPre b => PreBlock_forward b x
  | MInput b => InputTransition_forward b x
  | MDown b => DownTransition_forward b x
  | MOutput b => OutputTransition_forward b x
  | MUp _ | MPost _ =>
      Raise (TypeError "forward() missing 1 required positional argument")
  end.

Definition call2 (m : Module) (x skip : Tensor) : result Tensor :=
  match m with
  | MUp b => UpTransition_forward b x skip
  | MPost b => PostBlock_forward b x skip
  | MPre _ | MInput _ | MDown _ | MOutput _ =>
      Raise (TypeError "forward() takes 2 positional arguments but 3 were given")
  end.

Definition SegmentationNet_init (in_channels out_channels : Z) (elu : bool) : SegmentationNet :=
  let self := [] in
  let self := setattr self "pre_block" (MPre (PreBlock_init in_channels in_channels elu)) in
  let self := setattr self "in_tr" (MInput (InputTransition_init in_channels elu)) in
  let self := setattr self "down_tr32" (MDown (DownTransition_init 16 2 elu false false)) in
  let self := setattr self "down_tr64" (MDown (DownTransition_init 32 3 elu false true)) in
  let self := setattr self "down_tr128" (MDown (DownTransition_init 64 4 elu true true)) in
  let self := setattr self "down_tr256" (MDown (DownTransition_init 128 4 elu true true)) in
  let self := setattr self "up_tr256" (MUp (UpTransition_init 256 256 4 elu true true)) in
  let self := setattr self "up_tr128" (MUp (UpTransition_init 256 128 4 elu true true)) in
  let self := setattr self "up_tr64" (MUp (UpTransition_init 128 64 3 elu false false)) in
  let self := setattr self "up_tr32" (MUp (UpTransition_init 64 32 2 elu false false)) in
  let self := setattr self "pro_block" (MOutput (OutputTransition_init 32 out_channels elu)) in
  let self := setattr self "post_block" (MPost (PostBlock_init out_channels out_channels elu)) in
  let self := setattr self "out_tr"
                (MOutput (OutputTransition_init (in_channels + out_channels) out_channels elu)) in
  self.

Definition SegmentationNet_forward (self : SegmentationNet) (x : Tensor) : result Tensor :=
  m ← getattr self "pre_block"; dout ← call1 m x;
  m ← getattr self "in_tr"; out16 ← call1 m dout;
  m ← getattr self "down_tr32"; out32 ← call1 m out16;
  m ← getattr self "down_tr64"; out64 ← call1 m out32;
  m ← getattr self "down_tr128"; out128 ← call1 m out64;
  m ← getattr self "down_tr256"; out256 ← call1 m out128;
  m ← getattr self "up_tr256"; out ← call2 m out256 out128;
  m ← getattr self "up_tr128"; out ← call2 m out out64;
  m ← getattr self "up_tr64"; out ← call2 m out out32;
  m ← getattr self "up_tr32"; out ← call2 m out out16;
  m ← getattr self "pro_block"; out ← call1 m out;
  m ← getattr self "post_block"; out ← call2 m out x;
  m ← getattr self "out_block"; out ← call1 m out;
  Ok out.

(** The factor by which one stride-[s] convolution divides a spatial extent,
    composed along the encoder path of [forward]: [pre_block] and the four
    [down_tr] stages. *)
Definition module_stride (m : Module) : Z :=
  match m with
  | MPre b => conv_stride (pre_conv b)
  | MInput b => conv_stride (it_conv1 b)
  | MDown b => conv_stride (dt_down_conv b)
  | MUp _ | MOutput _ | MPost _ => 1
  end.

Definition encoder_path : list string :=
  ["pre_block"; "in_tr"; "down_tr32"; "down_tr64"; "down_tr128"; "down_tr256"].

Definition total_stride (self : SegmentationNet) : result Z :=
  foldr (fun name acc =>
           m ← getattr self name; s ← acc; Ok (module_stride m * s))
        (Ok 1) encoder_path.

(** ** More about the initialisers *)

(** [net.apply(fn)] on the sub-modules of a module, in registration order:
    the inner loop of [apply]. *)
Definition apply_children {RNG : Type}
    (f : NNModule -> RNG -> result (NNModule * RNG))
  : list (string * NNModule) -> RNG -> result (list (string * NNModule) * RNG) :=
  fix apply_children (cs : list (string * NNModule)) (g : RNG)
    : result (list (string * NNModule) * RNG) :=
    match cs with
    | [] => Ok ([], g)
    | (name, c) :: rest =>
        r1 ← f c g;
        r2 ← apply_children rest (snd r1);
        Ok ((name, fst r1) :: fst r2, snd r2)
    end.

(** The two kinds of layer the Gaussian initialiser recognises by the name of
    their class. *)
Definition is_conv (m : NNModule) : bool :=
  str_contains "Conv3d" (classname_of m) || str_contains "ConvTranspose3d" (classname_of m).
Definition is_norm (m : NNModule) : bool :=
  negb (is_conv m) && str_contains "BatchNorm" (classname_of m).

Definition all_zero (data : list R) : Prop := Forall (eq 0%R) data.

(** What the Gaussian initialiser leaves behind in a module it recognises. *)
Definition gaussian_initialised (m : NNModule) : Prop :=
  (is_conv m = true ->
   (exists w, weight_of m = Param w) /\
   (bias_of m = PyNone \/ exists b, bias_of m = Param b /\ all_zero b)) /\
  (is_norm m = true ->
   (exists w, weight_of m = Param w) /\
   (exists b, bias_of m = Param b /\ all_zero b)).

(** ** Shapes the stages accept *)

(** More than one value per channel: what batch normalisation asks for in
    training mode. *)
Definition normalisable (s : Shape) : Prop :=
  batch s * (depth s * height s * width s) <> 1.

Definition extents_at_least (n : Z) (s : Shape) : Prop :=
  n <= depth s /\ n <= height s /\ n <= width s.

(** The shape with another channel count, with halved and with doubled
    extents. *)
Definition with_chans (c : Z) (s : Shape) : Shape :=
  mkShape (batch s) c (depth s) (height s) (width s).
Definition halved (c : Z) (s : Shape) : Shape :=
  mkShape (batch s) c (depth s / 2) (height s / 2) (width s / 2).
Definition doubled (c : Z) (s : Shape) : Shape :=
  mkShape (batch s) c (2 * depth s) (2 * height s) (2 * width s).
Definition scaled (n c : Z) (s : Shape) : Shape :=
  mkShape (batch s) c (n * depth s) (n * height s) (n * width s).

(** Every convolution of a block over [nchan] channels has at least one
    channel: [nchan] of them, and [nchan // 4] inside a bottleneck. *)
Definition buildable (use_bottle : bool) (nchan : Z) : Prop :=
  1 <= (if use_bottle then nchan / 4 else nchan).

End Vbbnet.

(* ===================================================================== *)
(** * src/train.py *)
(* ===================================================================== *)

Module Train.
Import Vbbnet.

(** What a run of the engine does to the outside world, in order. *)
Inductive event : Type :=
| EvRmtree
| EvKaimingInit
| EvZeroGrad
| EvForward
| EvDice
| EvLossTerm (name : string)
| EvBackward
| EvOptStep
| EvSchedStep (epoch_idx : Z)
| EvPlot (batch_idx : Z)
| EvLog (epoch_idx : Z)
| EvSave (epoch_idx batch_idx : Z)
| EvLoadNet
| EvLoadOpt.

(** [cfg.loss.name]: a string or a list of tags; [in] is the substring test on
    the former and membership on the latter. *)
Inductive LossName : Type :=
| NameStr (s : string)
| NameList (l : list string).

Definition py_in (tag : string) (name : LossName) : bool :=
  match name with
  | NameStr s => str_contains tag s
  | NameList l => existsb (String.eqb tag) l
  end.

(** The configuration options the engine reads. *)
Record Config : Type := mkConfig {
  save_dir : string;
  resume_epoch : Z;
  clear_start_epoch : bool;
  num_classes : Z;
  crop_size : list Z;
  batchsize : Z;
  save_epochs : Z;
  plot_snapshot : Z;
  (** [cfg.train.lr_scheduler.params['last_epoch']] ([-1] when absent) *)
  scheduler_param_last_epoch : Z;
  loss_name : LossName;
  loss_weight : list Q;
  net_name : string }.

(** [posixpath.join] *)
Definition ends_with_slash (s : string) : bool :=
  match String.get (String.length s - 1) s with
  | Some c => Ascii.eqb c "/"
  | None => false
  end.

Definition join2 (a b : string) : string :=
  if String.prefix "/" b then b
  else if (String.eqb a "") || ends_with_slash a then a +:+ b
  else a +:+ "/" +:+ b.

Definition path_join (a : string) (rest : list string) : string :=
  fold_left join2 rest a.

Definition chk_folder_of (dir : string) (epoch_idx : Z) : string :=
  path_join dir ["checkpoints"; "chk_" +:+ format_int epoch_idx].

(** Observers of a trace: the derived epoch indices at which the scheduler
    was stepped, and those at which a checkpoint was saved. *)
Definition steps_of (tr : list event) : list Z :=
  omap (fun e => match e with EvSchedStep k => Some k | _ => None end) tr.
Definition saves_of (tr : list event) : list Z :=
  omap (fun e => match e with EvSave k _ => Some k | _ => None end) tr.

Section Engine.

(** The values [net.state_dict()] and [opt.state_dict()] range over. *)
Context {StateDict OptState : Type}.

(** The dictionary [save_checkpoint] pickles into [params.pth]; its
    preprocessing entries (spacing, interpolation, padding, default values,
    normalizers), copied from the configuration, are left out. *)
Record Checkpoint : Type := mkCheckpoint {
  ck_epoch : Z;
  ck_batch : Z;
  ck_net : string;
  ck_max_stride : list Z;
  ck_state_dict : StateDict;
  ck_in_channels : Z;
  ck_out_channels : Z }.

(** What a file on disk holds. *)
Inductive File : Type :=
| FCheckpoint (c : Checkpoint)
| FOptimizer (o : OptState)
| FText (s : string).

(** The collaborators the engine is run against: the accelerator, the
    operator at the prompt, the dataset and its loader, the network class
    [cfg.net.name] selects, and the effect of one backward pass and optimizer
    step on the parameters. *)
Record World : Type := mkWorld {
  cuda_available : bool;
  config_file : string;
  config_file_exists : bool;
  save_dir_exists : bool;
  answer : string;
  dataset_len : nat;
  num_modality : Z;
  loader_len : nat;
  crops_shape : Z -> Shape;
  net_class : Z -> Z -> Tensor -> result Tensor;
  update : Z -> StateDict * OptState -> StateDict * OptState }.

(** The mutable state of a run. *)
Record State : Type := mkState {
  fs : gmap string File;
  net_params : StateDict;
  opt_state : OptState;
  scheduler_last_epoch : Z;
  trace : list event }.

(** ** The engine monad: state and exceptions *)
Definition M (A : Type) : Type := State -> result A * State.

#[export] Instance M_ret : MRet M := fun _ a st => (Ok a, st).
#[export] Instance M_bind : MBind M := fun _ _ k m st =>
  match m st with
  | (Ok a, st') => k a st'
  | (Raise e, st') => (Raise e, st')
  end.
Definition ret {A} (a : A) : M A := mret a.
Definition raise {A} (e : exn) : M A := fun st => (Raise e, st).
Definition lift {A} (r : result A) : M A := fun st => (r, st).
Definition get : M State := fun st => (Ok st, st).
Definition modify (f : State -> State) : M unit := fun st => (Ok tt, f st).

Definition emit (e : event) : M unit :=
  modify (fun st => mkState (fs st) (net_params st) (opt_state st)
                            (scheduler_last_epoch st) (trace st ++ [e])).
Definition set_fs (f : gmap string File) : M unit :=
  modify (fun st => mkState f (net_params st) (opt_state st)
                            (scheduler_last_epoch st) (trace st)).
Definition set_net_params (p : StateDict) : M unit :=
  modify (fun st => mkState (fs st) p (opt_state st)
                            (scheduler_last_epoch st) (trace st)).
Definition set_opt_state (o : OptState) : M unit :=
  modify (fun st => mkState (fs st) (net_params st) o
                            (scheduler_last_epoch st) (trace st)).
Definition set_scheduler_last_epoch (e : Z) : M unit :=
  modify (fun st => mkState (fs st) (net_params st) (opt_state st) e (trace st)).

Definition assert (b : bool) (msg : string) : M unit :=
  if b then ret tt else raise (AssertionError msg).

Definition when (b : bool) (m : M unit) : M unit := if b then m else ret tt.

(** [os.path.isfile] *)
Definition isfile (path : string) : M bool :=
  st ← get; ret (bool_decide (is_Some (fs st !! path))).

(** Modelled from the spec: [load_pytorch_model] and [save_pytorch_model] of
    [utils.tools], which is not among the sources; they read back and write
    the object stored under a path. *)
Definition load_pytorch_model (path : string) : M File :=
  st ← get;
  match fs st !! path with
  | Some f => ret f
  | None => raise (RuntimeError ("No such file: " +:+ path))
  end.

Definition save_pytorch_model (obj : File) (path : string) : M unit :=
  st ← get; set_fs (<[path := obj]> (fs st)).

(** [state[key]] on a loaded object that is expected to be the checkpoint
    dictionary. *)
Definition as_checkpoint (f : File) (key : string) : M Checkpoint :=
  match f with
  | FCheckpoint c => ret c
  | FOptimizer _ => raise (KeyError key)
  | FText _ => raise (TypeError "string indices must be integers")
  end.

(** [net.load_state_dict] and [opt.load_state_dict] *)
Definition net_load_state_dict (sd : StateDict) : M unit :=
  set_net_params sd;; emit EvLoadNet.

Definition opt_load_state_dict (f : File) : M unit :=
  match f with
  | FOptimizer o => set_opt_state o;; emit EvLoadOpt
  | FCheckpoint _ => raise (KeyError "param_groups")
  | FText _ => raise (TypeError "string indices must be integers")
  end.

(** ** save_checkpoint *)
Definition save_checkpoint (epoch_idx batch_idx : Z) (cfg : Config) (w : World)
    (max_stride : list Z) (num_modality : Z) : M unit :=
  let chk_folder := chk_folder_of (save_dir cfg) epoch_idx in
  let filename := path_join chk_folder ["params.pth"] in
  let opt_filename := path_join chk_folder ["optimizer.pth"] in
  st ← get;
  let state := {| ck_epoch := epoch_idx;
                  ck_batch := batch_idx;
                  ck_net := net_name cfg;
                  ck_max_stride := max_stride;
                  ck_state_dict := net_params st;
                  ck_in_channels := num_modality;
                  ck_out_channels := num_classes cfg |} in
  save_pytorch_model (FCheckpoint state) filename;;
  save_pytorch_model (FOptimizer (opt_state st)) opt_filename;;
  save_pytorch_model (FText (config_file w)) (path_join chk_folder ["config.py"]);;
  emit (EvSave epoch_idx batch_idx).

(** ** load_checkpoint *)
Definition load_checkpoint (epoch_idx : Z) (save_dir : string) : M (Z * Z) :=
  let chk_file :=
    path_join save_dir ["checkpoints"; "chk_" +:+ format_int epoch_idx; "params.pth"] in
  ok ← isfile chk_file;
  assert ok ("checkpoint file not found: " +:+ chk_file);;
  state ← load_pytorch_model chk_file;
  c ← as_checkpoint state "state_dict";
  net_load_state_dict (ck_state_dict c);;
  let opt_file :=
    path_join save_dir ["checkpoints"; "chk_" +:+ format_int epoch_idx; "optimizer.pth"] in
  ok ← isfile opt_file;
  assert ok ("optimizer file not found: " +:+ chk_file);;
  opt_state ← load_pytorch_model opt_file;
  opt_load_state_dict opt_state;;
  ret (ck_epoch c, ck_batch c).

(** ** calculate_loss *)
Fixpoint evaluate_terms (loss_func_list : list string) : M unit :=
  match loss_func_list with
  | [] => ret tt
  | loss_func :: rest => emit (EvLossTerm loss_func);; evaluate_terms rest
  end.

Definition calculate_loss (loss_func_list : list string) (weights : list Q) : M unit :=
  assert (length loss_func_list =? length weights)%nat "";;
  evaluate_terms loss_func_list.

(** ** train *)

(** The local variables of [train] that change from batch to batch. *)
Record Locals : Type := mkLocals { batch_idx : Z; last_save_epoch : Z }.

Definition max_stride : list Z := [16; 16; 16].

(** [np.all(np.array(a) % np.array(b) == 0)], with numpy's broadcasting of a
    one-element operand. *)
Definition np_all_mod_zero (a b : list Z) : result bool :=
  let all_zero (xs ys : list Z) :=
    forallb (fun xy => fst xy mod snd xy =? 0) (combine xs ys) in
  if (length a =? length b)%nat then Ok (all_zero a b)
  else match a, b with
       | [x], _ => Ok (all_zero (repeat x (length b)) b)
       | _, [y] => Ok (all_zero a (repeat y (length a)))
       | _, _ => Raise (ValueError "operands could not be broadcast together")
       end.

(** Attribute lookup on a [str] object: only the methods of [str] that the
    engine uses are attributes. *)
Definition str_getattr (self name : string) : result string :=
  if existsb (String.eqb name) ["format"; "lower"]
  then Ok name
  else Raise (AttributeError name).

(** The loss terms enabled by [cfg.loss.name], in the order the engine appends
    them. *)
Definition build_loss_func_list (cfg : Config) : list string :=
  let loss_func_list := [] in
  let loss_func_list :=
    if py_in "Dice" (loss_name cfg)
    then loss_func_list ++ ["MultiDiceLoss"] else loss_func_list in
  let loss_func_list :=
    if py_in "Focal" (loss_name cfg)
    then loss_func_list ++ ["FocalLoss"] else loss_func_list in
  let loss_func_list :=
    if py_in "Boundary" (loss_name cfg)
    then loss_func_list ++ ["BoundarySoftDice"] else loss_func_list in
  loss_func_list.

(** The learning-rate schedulers of torch keep one cursor, [last_epoch]; the
    constructor performs an initial step from the given [last_epoch], and
    [step()] advances the cursor by one. *)
Definition scheduler_init (param_last_epoch : Z) : M unit :=
  set_scheduler_last_epoch (param_last_epoch + 1).

Definition scheduler_step (epoch_idx : Z) : M unit :=
  st ← get;
  set_scheduler_last_epoch (scheduler_last_epoch st + 1);;
  emit (EvSchedStep epoch_idx).

Definition opt_step (w : World) (batch_idx : Z) : M unit :=
  st ← get;
  let po := update w batch_idx (net_params st, opt_state st) in
  set_net_params (fst po);;
  set_opt_state (snd po);;
  emit EvOptStep.

(** [sample_duration = batch_duration * 1.0 / d]: the quotient is a float the
    engine never uses, the division raises on a zero divisor. *)
Definition float_div (d : Z) : result unit :=
  if d =? 0 then Raise ZeroDivisionError else Ok tt.

(** One pass through the body of [for i in range(len(data_loader))].  The
    batch the loader yields is known by its shape; the loss values, the Dice
    metric and the telemetry are events of the trace. *)
Definition iteration (cfg : Config) (w : World) (l : Locals) (i : Z) : M Locals :=
  let crops := mkTensor (crops_shape w i) (TInput "crops") in
  emit EvZeroGrad;;
  outputs ← lift (net_class w (num_modality w) (num_classes cfg) crops);
  emit EvForward;;
  emit EvDice;;
  epoch_idx ← lift (floordiv (batch_idx l * batchsize cfg) (Z.of_nat (dataset_len w)));
  let loss_func_list := build_loss_func_list cfg in
  assert (length loss_func_list =? length (loss_weight cfg))%nat
         "number of valid losses should equal to that of given weights";;
  calculate_loss loss_func_list (loss_weight cfg);;
  emit EvBackward;;
  opt_step w (batch_idx l);;
  st ← get;
  when (negb (epoch_idx =? scheduler_last_epoch st)) (scheduler_step epoch_idx);;
  let batch_idx := batch_idx l + 1 in
  lift (float_div (batchsize cfg));;
  r ← lift (pymod (batch_idx + 1) (plot_snapshot cfg));
  when (r =? 0) (emit (EvPlot batch_idx));;
  emit (EvLog epoch_idx);;
  due ← (if negb (epoch_idx =? 0)
         then r ← lift (pymod epoch_idx (save_epochs cfg)); ret (r =? 0)
         else ret false);
  if due : bool then
    if negb (last_save_epoch l =? epoch_idx) then
      save_checkpoint epoch_idx batch_idx cfg w max_stride (num_modality w);;
      ret (mkLocals batch_idx epoch_idx)
    else ret (mkLocals batch_idx (last_save_epoch l))
  else ret (mkLocals batch_idx (last_save_epoch l)).

Fixpoint loop (cfg : Config) (w : World) (l : Locals) (indices : list Z) : M Locals :=
  match indices with
  | [] => ret l
  | i :: rest => l' ← iteration cfg w l i; loop cfg w l' rest
  end.

(** The engine.  In the resume branch the argument ['chk_{}'.cfg...] of
    [os.path.join] is evaluated first and raises, so that the [torch.load] of
    the joined path and the assignment after it are never reached. *)
Definition train (cfg : Config) (w : World) : M unit :=
  assert (cuda_available w) "CUDA is not available! Please check nvidia driver!";;
  assert (config_file_exists w) ("Config not found: " +:+ config_file w);;
  (if (resume_epoch cfg <? 0) && save_dir_exists w then
     let choice := answer w in
     if String.eqb choice "yes" then emit EvRmtree
     else if String.eqb choice "no" then ret tt
     else raise (ValueError "Please type either 'yes' or 'no'!")
   else ret tt);;
  emit EvKaimingInit;;
  aligned ← lift (np_all_mod_zero (crop_size cfg) max_stride);
  assert aligned "crop size not divisible by max stride";;
  start ← (if 0 <=? resume_epoch cfg then
             _ ← lift (str_getattr "chk_{}" "cfg");
             ret (resume_epoch cfg, 0)
           else ret (0, 0));
  let last_save_epoch := fst start in
  let batch_start := snd start in
  scheduler_init (scheduler_param_last_epoch cfg);;
  let batch_idx := batch_start in
  let batch_idx := if clear_start_epoch cfg then 0 else batch_idx in
  _ ← loop cfg w (mkLocals batch_idx last_save_epoch) (range (Z.of_nat (loader_len w)));
  ret tt.

(** The weakest precondition of an engine computation: [Q] is to hold of the
    value and state it returns, [E] of the exception and state it stops in. *)
Definition wp {A} (m : M A) (Q : A -> State -> Prop) (E : exn -> State -> Prop)
    (st : State) : Prop :=
  match m st with
  | (Ok a, st') => Q a st'
  | (Raise e, st') => E e st'
  end.

(** The state after more events. *)
Definition add_events (st : State) (evs : list event) : State :=
  mkState (fs st) (net_params st) (opt_state st) (scheduler_last_epoch st) (trace st ++ evs).

(** The state the process starts in: the files on disk, the freshly built
    network and optimizer, no scheduler yet, nothing done. *)
Definition initial_state (files : gmap string File) (p : StateDict) (o : OptState) : State :=
  mkState files p o 0 [].

(** [epoch_idx] as the loop derives it from [batch_idx]. *)
Definition epoch_of (cfg : Config) (w : World) (b : Z) : Z :=
  (b * batchsize cfg) / Z.of_nat (dataset_len w).

(** What one pass through the loop body does to the scheduler and to the
    checkpoints, when it completes and when it raises. *)
Definition save_due (cfg : Config) (l : Locals) (e : Z) : bool :=
  negb (e =? 0) && (e mod save_epochs cfg =? 0) && negb (last_save_epoch l =? e).

Definition iteration_completed (cfg : Config) (w : World) (l : Locals) (st : State)
    (l' : Locals) (st' : State) : Prop :=
  let e := epoch_of cfg w (batch_idx l) in
  let last := scheduler_last_epoch st in
  dataset_len w <> 0%nat /\
  batch_idx l' = batch_idx l + 1 /\
  steps_of (trace st') = steps_of (trace st) ++ (if e =? last then [] else [e]) /\
  scheduler_last_epoch st' = (if e =? last then last else last + 1) /\
  saves_of (trace st') = saves_of (trace st) ++ (if save_due cfg l e then [e] else []) /\
  last_save_epoch l' = (if save_due cfg l e then e else last_save_epoch l).

Definition iteration_raised (cfg : Config) (w : World) (l : Locals) (st : State)
    (err : exn) (st' : State) : Prop :=
  let e := epoch_of cfg w (batch_idx l) in
  let last := scheduler_last_epoch st in
  saves_of (trace st') = saves_of (trace st) /\
  ((steps_of (trace st') = steps_of (trace st) /\ scheduler_last_epoch st' = last) \/
   (e <> last /\ steps_of (trace st') = steps_of (trace st) ++ [e] /\
    scheduler_last_epoch st' = last + 1)).

(** Where the engine can be before the loop: the files, parameters and
    optimizer state are untouched, and it has at most emptied the save
    directory and initialised the network. *)
Definition before_loop (st st1 : State) : Prop :=
  fs st1 = fs st /\ net_params st1 = net_params st /\ opt_state st1 = opt_state st /\
  exists evs, trace st1 = trace st ++ evs /\
              (evs = [] \/ evs = [EvRmtree] \/ evs = [EvKaimingInit] \/
               evs = [EvRmtree; EvKaimingInit]).

(** The direction in which the derived epoch index moves with [batch_idx]. *)
Definition direction (cfg : Config) : Z := if 0 <=? batchsize cfg then 1 else -1.

(** Loop invariant for the checkpoints: no epoch saved twice, epoch 0 never
    saved, and every saved epoch lies (in the direction of travel) at or
    before [last_save_epoch], which lies at or before the current epoch. *)
Definition saves_invariant (cfg : Config) (w : World) (l : Locals) (st : State) : Prop :=
  let saves := saves_of (trace st) in
  let d := direction cfg in
  NoDup saves /\ (0 ∉ saves) /\
  (forall s, s ∈ saves -> d * s <= d * last_save_epoch l) /\
  d * last_save_epoch l <= d * epoch_of cfg w (batch_idx l).

(** Loop invariants for the scheduler, after [k] passes. When batches are no
    larger than the dataset the cursor is the epoch of the batch just
    processed and the steps so far are those into epochs [1 .. cursor]; when
    they are larger, the steps so far were taken at increasing epochs, all
    before the epoch of the next batch. *)
Definition upto (n : Z) : list Z := map Z.of_nat (seq 1 (Z.to_nat n)).

Definition steps_in_step (cfg : Config) (w : World) (k : nat) (l : Locals) (st : State)
  : Prop :=
  batch_idx l = Z.of_nat k /\
  scheduler_last_epoch st = epoch_of cfg w (Z.max (Z.of_nat k - 1) 0) /\
  steps_of (trace st) = upto (scheduler_last_epoch st).

Definition steps_ahead (cfg : Config) (w : World) (k : nat) (l : Locals) (st : State)
  : Prop :=
  batch_idx l = Z.of_nat k /\
  StronglySorted Z.lt (steps_of (trace st)) /\
  (forall s, s ∈ steps_of (trace st) -> s < epoch_of cfg w (batch_idx l)).

Definition steps_invariant (cfg : Config) (w : World) (k : nat) (l : Locals) (st : State)
  : Prop :=
  (batchsize cfg <= Z.of_nat (dataset_len w) -> steps_in_step cfg w k l st) /\
  (Z.of_nat (dataset_len w) < batchsize cfg -> steps_ahead cfg w k l st).

End Engine.

(** ** More observers of the engine *)

(** The files [save_checkpoint] writes into the folder of an epoch. *)
Definition checkpoint_file_names : list string :=
  ["params.pth"; "optimizer.pth"; "config.py"].

Definition checkpoint_path (dir : string) (epoch_idx : Z) (name : string) : string :=
  path_join (chk_folder_of dir epoch_idx) [name].

(** The checkpoints saved in a trace: derived epoch index and batch index. *)
Definition saved_of (tr : list event) : list (Z * Z) :=
  omap (fun e => match e with EvSave k b => Some (k, b) | _ => None end) tr.

(** The characters ['{}'.format] writes for an integer, and strings made of
    given characters only. *)
Definition is_decimal_char (c : ascii) : bool :=
  existsb (Ascii.eqb c) (list_ascii_of_string "-0123456789").

Fixpoint all_chars (P : ascii -> bool) (s : string) : bool :=
  match s with
  | EmptyString => true
  | String c rest => P c && all_chars P rest
  end.

Definition starts_outside (P : ascii -> bool) (s : string) : bool :=
  match s with
  | EmptyString => true
  | String c _ => negb (P c)
  end.

(** The configuration with another [clear_start_epoch], another
    [loss.name]. *)
Definition with_clear_start_epoch (b : bool) (cfg : Config) : Config :=
  mkConfig (save_dir cfg) (resume_epoch cfg) b (num_classes cfg) (crop_size cfg)
           (batchsize cfg) (save_epochs cfg) (plot_snapshot cfg)
           (scheduler_param_last_epoch cfg) (loss_name cfg) (loss_weight cfg)
           (net_name cfg).

Definition with_loss_name (name : LossName) (cfg : Config) : Config :=
  mkConfig (save_dir cfg) (resume_epoch cfg) (clear_start_epoch cfg) (num_classes cfg)
           (crop_size cfg) (batchsize cfg) (save_epochs cfg) (plot_snapshot cfg)
           (scheduler_param_last_epoch cfg) name (loss_weight cfg) (net_name cfg).

Section Observers.
Context {StateDict OptState : Type}.

(** The parameters and optimizer state after the updates of batches
    [0 .. k-1], in order. *)
Definition updates (w : @World StateDict OptState) (k : nat)
    (po : StateDict * OptState) : StateDict * OptState :=
  fold_left (fun po b => update w b po) (range (Z.of_nat k)) po.

(** The checkpoint dictionary and the optimizer state [save_checkpoint]
    writes at [batch_idx] of a run that started from [po]. *)
Definition checkpoint_at (cfg : Config) (w : @World StateDict OptState)
    (po : StateDict * OptState) (epoch_idx batch_idx : Z) : @Checkpoint StateDict :=
  {| ck_epoch := epoch_idx;
     ck_batch := batch_idx;
     ck_net := net_name cfg;
     ck_max_stride := max_stride;
     ck_state_dict := fst (updates w (Z.to_nat batch_idx) po);
     ck_in_channels := num_modality w;
     ck_out_channels := num_classes cfg |}.

(** The files after [save_checkpoint] for [epoch_idx] at [batch_idx], with
    parameters and optimizer state [po]. *)
Definition files_after_save (cfg : Config) (w : @World StateDict OptState)
    (epoch_idx batch_idx : Z) (po : StateDict * OptState) (files : gmap string File)
  : gmap string File :=
  <[checkpoint_path (save_dir cfg) epoch_idx "config.py" := FText (config_file w)]>
    (<[checkpoint_path (save_dir cfg) epoch_idx "optimizer.pth" := FOptimizer (snd po)]>
       (<[checkpoint_path (save_dir cfg) epoch_idx "params.pth" :=
            FCheckpoint (mkCheckpoint epoch_idx batch_idx (net_name cfg) max_stride
                           (fst po) (num_modality w) (num_classes cfg))]> files)).

(** What one pass through the loop body does to the parameters, the files
    and the saved checkpoints, when it completes and when it raises. *)
Definition iteration_effect (cfg : Config) (w : @World StateDict OptState)
    (l : Locals) (st : State) (l' : Locals) (st' : State) : Prop :=
  let e := epoch_of cfg w (batch_idx l) in
  let po := update w (batch_idx l) (net_params st, opt_state st) in
  batch_idx l' = batch_idx l + 1 /\
  (net_params st', opt_state st') = po /\
  saved_of (trace st') =
    saved_of (trace st) ++ (if save_due cfg l e then [(e, batch_idx l + 1)] else []) /\
  fs st' = (if save_due cfg l e
            then files_after_save cfg w e (batch_idx l + 1) po (fs st)
            else fs st).

(** Loop invariant for the files: where the run is after [k] passes, what
    each checkpoint saved so far has left on disk, and that nothing else on
    disk has changed. *)
Definition files_invariant (cfg : Config) (w : @World StateDict OptState)
    (files : gmap string File) (po : StateDict * OptState)
    (k : nat) (l : Locals) (st : State) : Prop :=
  batch_idx l = Z.of_nat k /\
  (net_params st, opt_state st) = updates w k po /\
  (forall e b, (e, b) ∈ saved_of (trace st) ->
     (1 <= b <= Z.of_nat k /\ e = epoch_of cfg w (b - 1)) /\
     fs st !! checkpoint_path (save_dir cfg) e "params.pth" =
       Some (FCheckpoint (checkpoint_at cfg w po e b)) /\
     fs st !! checkpoint_path (save_dir cfg) e "optimizer.pth" =
       Some (FOptimizer (snd (updates w (Z.to_nat b) po))) /\
     fs st !! checkpoint_path (save_dir cfg) e "config.py" =
       Some (FText (config_file w))) /\
  (forall path,
     (forall e name, e ∈ saves_of (trace st) -> name ∈ checkpoint_file_names ->
                     path <> checkpoint_path (save_dir cfg) e name) ->
     fs st !! path = files !! path).


(** What holds of the disk at the end of a run that started with [files] on
    disk and with parameters and optimizer state [po]: every checkpoint
    saved is there in full, and nothing but checkpoint files has been
    written. *)
Definition on_disk (cfg : Config) (w : @World StateDict OptState)
    (files : gmap string File) (po : StateDict * OptState) (st : State) : Prop :=
  (forall e b, (e, b) ∈ saved_of (trace st) ->
     (1 <= b <= Z.of_nat (loader_len w) /\ e = epoch_of cfg w (b - 1)) /\
     fs st !! checkpoint_path (save_dir cfg) e "params.pth" =
       Some (FCheckpoint (checkpoint_at cfg w po e b)) /\
     fs st !! checkpoint_path (save_dir cfg) e "optimizer.pth" =
       Some (FOptimizer (snd (updates w (Z.to_nat b) po))) /\
     fs st !! checkpoint_path (save_dir cfg) e "config.py" =
       Some (FText (config_file w))) /\
  (forall path,
     (forall e name, e ∈ saves_of (trace st) -> name ∈ checkpoint_file_names ->
                     path <> checkpoint_path (save_dir cfg) e name) ->
     fs st !! path = files !! path).

Definition iteration_stopped (cfg : Config) (w : @World StateDict OptState)
    (l : Locals) (st : State) (err : exn) (st' : State) : Prop :=
  saved_of (trace st') = saved_of (trace st) /\
  fs st' = fs st /\
  ((net_params st', opt_state st') = (net_params st, opt_state st) \/
   (net_params st', opt_state st') = update w (batch_idx l) (net_params st, opt_state st)).

End Observers.

(** ** calculate_loss, on the values *)

Module LossValues.

(** What a loss function returns: a tensor (a scalar loss), or a tuple of
    them. *)
Inductive LossOut : Type :=
| OutTensor (v : R)
| OutTuple (vs : list R).

(** [total_loss]: the Python integer it starts as, a tensor once a term has
    been added. *)
Inductive Total : Type :=
| TotalInt (n : Z)
| TotalTensor (v : R).

(** [loss_value[0]] when [loss_value] is a tuple, [loss_value] otherwise. *)
Definition first_of (o : LossOut) : result R :=
  match o with
  | OutTensor v => Ok v
  | OutTuple [] => Raise (IndexError "tuple index out of range")
  | OutTuple (v :: _) => Ok v
  end.

(** [total_loss += x] *)
Definition total_add (t : Total) (x : R) : Total :=
  match t with
  | TotalInt n => TotalTensor (IZR n + x)
  | TotalTensor v => TotalTensor (v + x)
  end.

(** [total_loss.cuda()] *)
Definition total_cuda (t : Total) : result R :=
  match t with
  | TotalInt _ => Raise (AttributeError "cuda")
  | TotalTensor v => Ok v
  end.

(** [weights[i]] *)
Definition getitem (weights : list R) (i : nat) : result R :=
  match weights !! i with
  | Some x => Ok x
  | None => Raise (IndexError "list index out of range")
  end.

Section CalculateLoss.
Context {Output Mask : Type}.

(** The body of [for i, loss_func in enumerate(loss_func_list)]. *)
Fixpoint calculate_loss_loop (loss_func_list : list (Output -> Mask -> LossOut)) (i : nat)
    (output : Output) (mask : Mask) (weights : list R)
    (losses : list R) (total_loss : Total) : result (list R * Total) :=
  match loss_func_list with
  | [] => Ok (losses, total_loss)
  | loss_func :: rest =>
      loss_value ← first_of (loss_func output mask);
      let losses := losses ++ [loss_value] in
      weight ← getitem weights i;
      let total_loss := total_add total_loss (weight * loss_value) in
      calculate_loss_loop rest (S i) output mask weights losses total_loss
  end.

Definition calculate_loss (loss_func_list : list (Output -> Mask -> LossOut))
    (output : Output) (mask : Mask) (weights : list R) : result (list R * R) :=
  if negb (length loss_func_list =? length weights)%nat then Raise (AssertionError "")
  else
    r ← calculate_loss_loop loss_func_list 0 output mask weights [] (TotalInt 0);
    total ← total_cuda (snd r);
    Ok (fst r, total).

End CalculateLoss.

(** The weighted sum of the values. *)
Fixpoint weighted_sum (weights values : list R) : R :=
  match weights, values with
  | w :: ws, v :: vs => (w * v + weighted_sum ws vs)%R
  | _, _ => 0%R
  end.

End LossValues.

(** ** Concrete collaborators, to run the engine on *)

(** The network class of [network/vbbnet.py], built with its default
    [elu=False]. *)
Definition vbbnet_class (in_channels out_channels : Z) (x : Tensor) : result Tensor :=
  SegmentationNet_forward (SegmentationNet_init in_channels out_channels false) x.

(** A network class whose forward pass returns its input. *)
Definition echo_class (in_channels out_channels : Z) (x : Tensor) : result Tensor := Ok x.

(** A world with an accelerator, a configuration file and no earlier save
    directory; parameters and optimizer state are counters of the updates. *)
Definition a_world (dataset_len loader_len : nat) (crop : Shape)
    (net : Z -> Z -> Tensor -> result Tensor) : @World nat nat :=
  {| cuda_available := true;
     config_file := "config.py";
     config_file_exists := true;
     save_dir_exists := false;
     answer := "";
     dataset_len := dataset_len;
     num_modality := 1;
     loader_len := loader_len;
     crops_shape := fun _ => crop;
     net_class := net;
     update := fun _ po => (S (fst po), S (snd po)) |}.

Definition a_config (resume_epoch batchsize : Z) (crop_size : list Z)
    (loss_name : LossName) (loss_weight : list Q) : Config :=
  {| save_dir := "/out";
     resume_epoch := resume_epoch;
     clear_start_epoch := false;
     num_classes := 2;
     crop_size := crop_size;
     batchsize := batchsize;
     save_epochs := 1;
     plot_snapshot := 10;
     scheduler_param_last_epoch := -1;
     loss_name := loss_name;
     loss_weight := loss_weight;
     net_name := "vbbnet" |}.

End Train.

(* ===================================================================== *)
(** * Properties of the network *)
(* ===================================================================== *)

Module VbbnetFacts.
Import Vbbnet.

(** ** The result monad *)

Lemma bind_Ok_inv {A B} (m : result A) (k : A -> result B) (b : B) :
  m ≫= k = Ok b -> exists a, m = Ok a /\ k a = Ok b.
Proof. destruct m as [a|e]; simpl; [eauto | discriminate]. Qed.

Lemma bind_never_ok {A B} (m : result A) (k : A -> result B) :
  (forall a, is_ok (k a) = false) -> is_ok (m ≫= k) = false.
Proof. intros Hk. destruct m as [a|e]; simpl; [apply Hk | reflexivity]. Qed.

(** ** _make_nConv *)

Lemma make_nConv_map nchan depth elu use_bottle :
  _make_nConv nchan depth elu use_bottle =
  map (fun i => a_block nchan elu use_bottle (negb (i =? depth - 1))) (range depth).
Proof.
  unfold _make_nConv.
  enough (G : forall idxs acc,
             fold_left
               (fun layers i =>
                  if use_bottle then
                    if negb (i =? depth - 1)
                    then layers ++ [Bottle (LUConv_bottle_init nchan elu true)]
                    else layers ++ [Bottle (LUConv_bottle_init nchan elu false)]
                  else
                    if negb (i =? depth - 1)
                    then layers ++ [Plain (LUConv_init nchan elu true)]
                    else layers ++ [Plain (LUConv_init nchan elu false)]) idxs acc
             = acc ++ map (fun i => a_block nchan elu use_bottle (negb (i =? depth - 1))) idxs).
  { apply G. }
  induction idxs as [|i idxs IH]; intros acc; simpl.
  - now rewrite app_nil_r.
  - rewrite IH. unfold a_block.
    destruct use_bottle, (negb (i =? depth - 1)); now rewrite <- app_assoc.
Qed.

Lemma range_length n : 0 <= n -> Z.of_nat (length (range n)) = n.
Proof. intros Hn. unfold range. rewrite length_map, length_seq. lia. Qed.

Lemma range_lookup n (i : nat) z : range n !! i = Some z -> z = Z.of_nat i.
Proof.
  unfold range. rewrite list_lookup_fmap. intros H.
  destruct (seq 0 (Z.to_nat n) !! i) as [k|] eqn:E; simpl in H; [|discriminate].
  apply lookup_seq in E as [-> _]. now inversion H.
Qed.

(** C8. For every [depth >= 1], [_make_nConv nchan depth elu use_bottle] builds
    exactly [depth] blocks of the requested variant, each of channel width
    [nchan] on both sides; the block at position [i] applies its final
    activation exactly when [i] is not [depth - 1], so every block but the
    last applies it and the last one does not. *)
Theorem make_nConv_builds_depth_blocks (nchan depth : Z) (elu use_bottle : bool) :
  1 <= depth ->
  let layers := _make_nConv nchan depth elu use_bottle in
  Z.of_nat (length layers) = depth /\
  (forall (i : nat) (b : ConvBlock),
      layers !! i = Some b ->
      block_in_channels b = nchan /\ block_out_channels b = nchan /\
      block_is_bottle b = use_bottle /\
      block_act b = negb (Z.of_nat i =? depth - 1)) /\
  (exists b, last layers = Some b /\ block_act b = false).
Proof.
  intros Hd layers. subst layers. rewrite make_nConv_map.
  split; [|split].
  - rewrite length_map. apply range_length. lia.
  - intros i b Hb. rewrite list_lookup_fmap in Hb.
    destruct (range depth !! i) as [z|] eqn:E; simpl in Hb; [|discriminate].
    apply range_lookup in E. subst z. inversion Hb; subst b; clear Hb.
    unfold a_block. destruct use_bottle; simpl; auto.
  - exists (a_block nchan elu use_bottle false). split.
    + unfold range. replace (Z.to_nat depth) with (S (Z.to_nat (depth - 1))) by lia.
      rewrite seq_S, !map_app. simpl. rewrite last_snoc.
      replace (Z.of_nat (Z.to_nat (depth - 1))) with (depth - 1) by lia.
      now rewrite Z.eqb_refl.
    + unfold a_block. now destruct use_bottle.
Qed.

Lemma make_nConv_builds_depth_blocks_witness :
  let layers := _make_nConv 32 2 false false in
  Z.of_nat (length layers) = 2 /\
  (forall (i : nat) (b : ConvBlock),
      layers !! i = Some b ->
      block_in_channels b = 32 /\ block_out_channels b = 32 /\
      block_is_bottle b = false /\
      block_act b = negb (Z.of_nat i =? 2 - 1)) /\
  (exists b, last layers = Some b /\ block_act b = false).
Proof. apply (make_nConv_builds_depth_blocks 32 2 false false). lia. Defined.

(** ** Dataflow through the layers *)

Lemma apply_conv_expr c x y : apply_conv c x = Ok y -> expr y = TConv c (expr x).
Proof.
  unfold apply_conv. repeat (case_match; try discriminate).
  intros [= <-]; reflexivity.
Qed.

Lemma apply_convT_expr c x y : apply_convT c x = Ok y -> expr y = TConvT c (expr x).
Proof.
  unfold apply_convT. repeat (case_match; try discriminate).
  intros [= <-]; reflexivity.
Qed.

Lemma apply_norm_expr b x y : apply_norm b x = Ok y -> expr y = TNorm b (expr x).
Proof.
  unfold apply_norm. repeat (case_match; try discriminate).
  intros [= <-]; reflexivity.
Qed.

Lemma cat1_expr a b y : cat1 a b = Ok y -> expr y = TCat 1 (expr a) (expr b).
Proof.
  unfold cat1. case_match; try discriminate. intros [= <-]; reflexivity.
Qed.

Lemma add_expr a b y : add a b = Ok y -> expr y = TAdd (expr a) (expr b).
Proof.
  unfold add. case_match; try discriminate. intros [= <-]; reflexivity.
Qed.

Lemma same_observers_refl x : same_observers x x.
Proof. split; reflexivity. Qed.

Lemma same_observers_trans x y z :
  same_observers x y -> same_observers y z -> same_observers x z.
Proof. intros [? ?] [? ?]; split; congruence. Qed.

Lemma apply_conv_same c x y : apply_conv c x = Ok y -> same_observers x y.
Proof. intros H. apply apply_conv_expr in H. split; rewrite H; reflexivity. Qed.

Lemma apply_norm_same b x y : apply_norm b x = Ok y -> same_observers x y.
Proof. intros H. apply apply_norm_expr in H. split; rewrite H; reflexivity. Qed.

Lemma apply_act_same a x : same_observers x (apply_act a x).
Proof. split; reflexivity. Qed.

Lemma conv_norm_same c b x y z :
  apply_conv c x = Ok y -> apply_norm b y = Ok z -> same_observers x z.
Proof.
  intros H1 H2. eapply same_observers_trans;
    [eapply apply_conv_same | eapply apply_norm_same]; eassumption.
Qed.

Lemma ConvBlock_forward_same b x y : ConvBlock_forward b x = Ok y -> same_observers x y.
Proof.
  destruct b as [m|m]; simpl.
  - unfold LUConv_forward. destruct (lu_act m); intros H.
    + apply bind_Ok_inv in H as (c1 & Hc1 & H).
      apply bind_Ok_inv in H as (n1 & Hn1 & H).
      inversion H; subst y.
      eapply same_observers_trans; [eapply conv_norm_same; eassumption|].
      apply apply_act_same.
    + apply bind_Ok_inv in H as (c1 & Hc1 & H).
      eapply conv_norm_same; eassumption.
  - unfold LUConv_bottle_forward. intros H.
    apply bind_Ok_inv in H as (c1 & Hc1 & H).
    apply bind_Ok_inv in H as (n1 & Hn1 & H).
    apply bind_Ok_inv in H as (c2 & Hc2 & H).
    apply bind_Ok_inv in H as (n2 & Hn2 & H).
    assert (S1 : same_observers x (apply_act (lb_relu1 m) n1)).
    { eapply same_observers_trans; [eapply conv_norm_same; eassumption|].
      apply apply_act_same. }
    assert (S2 : same_observers x (apply_act (lb_relu2 m) n2)).
    { eapply same_observers_trans; [exact S1|].
      eapply same_observers_trans; [eapply conv_norm_same; eassumption|].
      apply apply_act_same. }
    destruct (lb_act m).
    + apply bind_Ok_inv in H as (c3 & Hc3 & H).
      apply bind_Ok_inv in H as (n3 & Hn3 & H).
      inversion H; subst y.
      eapply same_observers_trans; [exact S2|].
      eapply same_observers_trans; [eapply conv_norm_same; eassumption|].
      apply apply_act_same.
    + apply bind_Ok_inv in H as (c3 & Hc3 & H).
      eapply same_observers_trans; [exact S2|].
      eapply conv_norm_same; eassumption.
Qed.

Lemma Sequential_forward_same layers : forall x y,
  Sequential_forward layers x = Ok y -> same_observers x y.
Proof.
  induction layers as [|b rest IH]; simpl; intros x y H.
  - inversion H. apply same_observers_refl.
  - apply bind_Ok_inv in H as (z & Hz & H). eapply same_observers_trans.
    + eapply ConvBlock_forward_same; eassumption.
    + apply IH; assumption.
Qed.

(** C9. In [UpTransition.forward] the slot [do1] on the upsampled branch is
    [passthrough], so the transposed convolution reads [x] itself; [do2], a
    3-D dropout, is applied to [skipx] alone, before the concatenation along
    the channel axis.  On the dataflow tree of the output: it is
    [relu2 (ops xcat + xcat)] with
    [xcat = cat (relu1 (bn1 (up_conv x)), dropout skipx)], every dropout node
    in it has [skipx] as operand and every transposed convolution has [x]. *)
Theorem UpTransition_dropout_on_skip_only
    (inChans outChans nConvs : Z) (elu dropout use_bottle : bool)
    (sx ss : Shape) (out : Tensor) :
  let self := UpTransition_init inChans outChans nConvs elu dropout use_bottle in
  let x := mkTensor sx (TInput "x") in
  let skipx := mkTensor ss (TInput "skipx") in
  UpTransition_forward self x skipx = Ok out ->
  ut_do1 self = passthrough /\
  apply_drop (ut_do1 self) x = x /\
  (exists body,
      expr out =
      TAct (ut_relu2 self)
        (TAdd body
           (TCat 1
              (TAct (ut_relu1 self)
                 (TNorm (ut_bn1 self) (TConvT (ut_up_conv self) (TInput "x"))))
              (TDrop (2 # 10) (TInput "skipx"))))) /\
  dropout_inputs (expr out) <> [] /\
  Forall (eq (TInput "skipx")) (dropout_inputs (expr out)) /\
  convT_inputs (expr out) <> [] /\
  Forall (eq (TInput "x")) (convT_inputs (expr out)).
Proof.
  intros self x skipx H.
  unfold UpTransition_forward in H. simpl in H.
  apply bind_Ok_inv in H as (up & Hup & H).
  apply bind_Ok_inv in H as (nrm & Hnrm & H).
  apply bind_Ok_inv in H as (xcat & Hcat & H).
  apply bind_Ok_inv in H as (body & Hops & H).
  apply bind_Ok_inv in H as (sum & Hsum & H).
  inversion H; subst out; clear H.
  apply apply_convT_expr in Hup. apply apply_norm_expr in Hnrm.
  apply cat1_expr in Hcat. apply add_expr in Hsum.
  apply Sequential_forward_same in Hops as [Hd Hc].
  simpl in Hup, Hnrm, Hcat.
  rewrite Hnrm, Hup in Hcat.
  assert (Dx : dropout_inputs (expr xcat) = [TInput "skipx"]) by (rewrite Hcat; reflexivity).
  assert (Cx : convT_inputs (expr xcat) = [TInput "x"]) by (rewrite Hcat; reflexivity).
  split; [reflexivity|]. split; [reflexivity|]. split.
  { exists (expr body). simpl. rewrite Hsum, Hcat. reflexivity. }
  simpl. rewrite Hsum. simpl. rewrite Hd, Hc, Dx, Cx. simpl.
  repeat split; try discriminate; repeat constructor.
Qed.

Lemma UpTransition_dropout_on_skip_only_witness :
  exists out,
    UpTransition_forward (UpTransition_init 64 32 2 false false false)
      (mkTensor (mkShape 1 64 4 4 4) (TInput "x"))
      (mkTensor (mkShape 1 16 8 8 8) (TInput "skipx")) = Ok out /\
    Forall (eq (TInput "skipx")) (dropout_inputs (expr out)) /\
    Forall (eq (TInput "x")) (convT_inputs (expr out)).
Proof.
  destruct (UpTransition_forward (UpTransition_init 64 32 2 false false false)
              (mkTensor (mkShape 1 64 4 4 4) (TInput "x"))
              (mkTensor (mkShape 1 16 8 8 8) (TInput "skipx"))) as [out|e] eqn:E.
  - exists out. split; [reflexivity|].
    pose proof (UpTransition_dropout_on_skip_only 64 32 2 false false false
                  (mkShape 1 64 4 4 4) (mkShape 1 16 8 8 8) out E) as H.
    split; [exact (proj1 (proj2 (proj2 (proj2 (proj2 H)))))
           | exact (proj2 (proj2 (proj2 (proj2 (proj2 (proj2 H))))))].
  - vm_compute in E. discriminate E.
Defined.

(** ** SegmentationNet *)

Lemma SegmentationNet_has_no_out_block cin cout elu :
  getattr (SegmentationNet_init cin cout elu) "out_block" = Raise (AttributeError "out_block").
Proof. reflexivity. Qed.

Lemma SegmentationNet_out_tr cin cout elu :
  getattr (SegmentationNet_init cin cout elu) "out_tr" =
  Ok (MOutput (OutputTransition_init (cin + cout) cout elu)).
Proof. reflexivity. Qed.

Lemma SegmentationNet_forward_not_ok cin cout elu x :
  is_ok (SegmentationNet_forward (SegmentationNet_init cin cout elu) x) = false.
Proof.
  unfold SegmentationNet_forward.
  do 24 (apply bind_never_ok; intros ?).
  rewrite SegmentationNet_has_no_out_block. reflexivity.
Qed.

(** C1 (what the code does).  [SegmentationNet.__init__] registers the final
    output stage under the name [out_tr], [forward] asks for [self.out_block]:
    for every input [forward] raises and never returns a tensor; on a
    [(1, 1, 64, 64, 64)] volume, whose extents are multiples of the stride,
    the exception is the [AttributeError] for [out_block].  Had the stage been
    registered under [out_block], the same input would have produced a
    [(1, 2, 64, 64, 64)] softmax output, as the specification asks. *)
Theorem SegmentationNet_forward_raises :
  (forall cin cout elu x,
      exists e, SegmentationNet_forward (SegmentationNet_init cin cout elu) x = Raise e) /\
  SegmentationNet_forward (SegmentationNet_init 1 2 false)
    (mkTensor (mkShape 1 1 64 64 64) (TInput "x")) = Raise (AttributeError "out_block") /\
  (forall cin cout elu,
      getattr (SegmentationNet_init cin cout elu) "out_tr" =
      Ok (MOutput (OutputTransition_init (cin + cout) cout elu))) /\
  (exists body,
      SegmentationNet_forward
        (setattr (SegmentationNet_init 1 2 false) "out_block"
                 (MOutput (OutputTransition_init (1 + 2) 2 false)))
        (mkTensor (mkShape 1 1 64 64 64) (TInput "x")) =
      Ok (mkTensor (mkShape 1 2 64 64 64) (TSoftmax 1 body))).
Proof.
  split; [|split; [|split]].
  - intros cin cout elu x.
    pose proof (SegmentationNet_forward_not_ok cin cout elu x) as H.
    destruct (SegmentationNet_forward (SegmentationNet_init cin cout elu) x) as [t|e];
      [discriminate H | eauto].
  - vm_compute. reflexivity.
  - intros. apply SegmentationNet_out_tr.
  - eexists. vm_compute. reflexivity.
Qed.

(** ** The stride of the network, from the shapes *)

Lemma bind_Raise_inv {A B} (m : result A) (k : A -> result B) (e : exn) :
  m ≫= k = Raise e -> m = Raise e \/ exists a, m = Ok a /\ k a = Raise e.
Proof.
  destruct m as [a|e']; simpl; intros H; [right; eauto | left; congruence].
Qed.

Lemma apply_conv_raise c x e : apply_conv c x = Raise e -> shape_error e.
Proof.
  unfold apply_conv. repeat (case_match; try discriminate); intros [= <-]; exact I.
Qed.

Lemma apply_convT_raise c x e : apply_convT c x = Raise e -> shape_error e.
Proof.
  unfold apply_convT. repeat (case_match; try discriminate); intros [= <-]; exact I.
Qed.

Lemma apply_norm_raise b x e : apply_norm b x = Raise e -> shape_error e.
Proof.
  unfold apply_norm. repeat (case_match; try discriminate); intros [= <-]; exact I.
Qed.

Lemma cat1_raise a b e : cat1 a b = Raise e -> shape_error e.
Proof. unfold cat1. case_match; try discriminate. intros [= <-]; exact I. Qed.

Lemma add_raise a b e : add a b = Raise e -> shape_error e.
Proof. unfold add. case_match; try discriminate. intros [= <-]; exact I. Qed.

Create HintDb shape_errors.
#[local] Hint Resolve apply_conv_raise apply_convT_raise apply_norm_raise
  cat1_raise add_raise : shape_errors.

Ltac raise_chain H :=
  repeat (apply bind_Raise_inv in H as [H | (? & _ & H)];
          [solve [eauto with shape_errors] | ]);
  first [ solve [eauto with shape_errors] | discriminate H ].

Lemma LUConv_forward_raise m x e : LUConv_forward m x = Raise e -> shape_error e.
Proof. unfold LUConv_forward. destruct (lu_act m); intros H; raise_chain H. Qed.

Lemma LUConv_bottle_forward_raise m x e :
  LUConv_bottle_forward m x = Raise e -> shape_error e.
Proof.
  unfold LUConv_bottle_forward. intros H.
  do 4 (apply bind_Raise_inv in H as [H | (? & _ & H)];
        [solve [eauto with shape_errors] | ]).
  destruct (lb_act m); raise_chain H.
Qed.

Lemma Sequential_forward_raise layers : forall x e,
  Sequential_forward layers x = Raise e -> shape_error e.
Proof.
  induction layers as [|b rest IH]; simpl; intros x e H; [discriminate H|].
  apply bind_Raise_inv in H as [H | (y & _ & H)]; [|eapply IH, H].
  destruct b; simpl in H;
    eauto using LUConv_forward_raise, LUConv_bottle_forward_raise.
Qed.

#[local] Hint Resolve Sequential_forward_raise : shape_errors.

Lemma PreBlock_forward_raise m x e : PreBlock_forward m x = Raise e -> shape_error e.
Proof. unfold PreBlock_forward. intros H. raise_chain H. Qed.

Lemma InputTransition_forward_raise m x e :
  InputTransition_forward m x = Raise e -> shape_error e.
Proof. unfold InputTransition_forward. intros H. raise_chain H. Qed.

Lemma DownTransition_forward_raise m x e :
  DownTransition_forward m x = Raise e -> shape_error e.
Proof. unfold DownTransition_forward. intros H. raise_chain H. Qed.

Lemma UpTransition_forward_raise m x skipx e :
  UpTransition_forward m x skipx = Raise e -> shape_error e.
Proof. unfold UpTransition_forward. intros H. raise_chain H. Qed.

Lemma OutputTransition_forward_raise m x e :
  OutputTransition_forward m x = Raise e -> shape_error e.
Proof. unfold OutputTransition_forward. intros H. raise_chain H. Qed.

Lemma PostBlock_forward_raise m x skip e :
  PostBlock_forward m x skip = Raise e -> shape_error e.
Proof. unfold PostBlock_forward. intros H. raise_chain H. Qed.

#[local] Hint Resolve PreBlock_forward_raise InputTransition_forward_raise
  DownTransition_forward_raise UpTransition_forward_raise
  OutputTransition_forward_raise PostBlock_forward_raise : shape_errors.

(** Shapes through the decoder stages. *)

Definition doubles (small big : Shape) : Prop :=
  depth big = 2 * depth small /\ height big = 2 * height small /\
  width big = 2 * width small.

Definition same_extents (a b : Shape) : Prop :=
  depth a = depth b /\ height a = height b /\ width a = width b.

Lemma apply_conv_shape c x y :
  apply_conv c x = Ok y ->
  shape y = mkShape (batch (shape x)) (conv_out c) (conv_extent c (depth (shape x)))
              (conv_extent c (height (shape x))) (conv_extent c (width (shape x))).
Proof.
  unfold apply_conv. repeat (case_match; try discriminate). intros [= <-]; reflexivity.
Qed.

Lemma apply_convT_shape c x y :
  apply_convT c x = Ok y ->
  shape y = mkShape (batch (shape x)) (convT_out c) (convT_extent c (depth (shape x)))
              (convT_extent c (height (shape x))) (convT_extent c (width (shape x))).
Proof.
  unfold apply_convT. repeat (case_match; try discriminate). intros [= <-]; reflexivity.
Qed.

Lemma apply_norm_shape b x y : apply_norm b x = Ok y -> shape y = shape x.
Proof.
  unfold apply_norm. repeat (case_match; try discriminate). intros [= <-]; reflexivity.
Qed.

Lemma cat1_shape a b y :
  cat1 a b = Ok y -> same_extents (shape y) (shape a) /\ same_extents (shape a) (shape b).
Proof.
  unfold cat1. case_match eqn:Hc; try discriminate. intros [= <-]. simpl.
  repeat (apply andb_prop in Hc as [Hc ?]).
  unfold same_extents. repeat split; lia.
Qed.

Lemma add_shape a b y : add a b = Ok y -> shape y = shape b /\ shape y = shape a.
Proof.
  unfold add. case_match eqn:Hc; try discriminate. intros [= <-]. simpl.
  unfold Shape_eqb in Hc. repeat (apply andb_prop in Hc as [Hc ?]).
  destruct (shape a), (shape b); simpl in *. split; [f_equal; lia | reflexivity].
Qed.

Lemma UpTransition_forward_shape inChans outChans nConvs elu dropout use_bottle x skipx y :
  UpTransition_forward (UpTransition_init inChans outChans nConvs elu dropout use_bottle)
    x skipx = Ok y ->
  doubles (shape x) (shape skipx) /\ same_extents (shape y) (shape skipx).
Proof.
  unfold UpTransition_forward. simpl. intros H.
  apply bind_Ok_inv in H as (up & Hup & H).
  apply bind_Ok_inv in H as (nrm & Hnrm & H).
  apply bind_Ok_inv in H as (xcat & Hcat & H).
  apply bind_Ok_inv in H as (body & Hops & H).
  apply bind_Ok_inv in H as (sum & Hsum & H).
  inversion H; subst y; clear H.
  apply apply_convT_shape in Hup. apply apply_norm_shape in Hnrm.
  apply cat1_shape in Hcat as [Hc1 Hc2]. apply add_shape in Hsum as [Hs _].
  unfold same_extents, doubles, convT_extent in *. simpl in *.
  rewrite Hs. rewrite Hnrm, Hup in Hc1, Hc2. simpl in *. lia.
Qed.

Lemma OutputTransition_forward_shape inChans outChans elu x y :
  OutputTransition_forward (OutputTransition_init inChans outChans elu) x = Ok y ->
  same_extents (shape y) (shape x).
Proof.
  unfold OutputTransition_forward. simpl. intros H.
  apply bind_Ok_inv in H as (c1 & Hc1 & H).
  apply bind_Ok_inv in H as (n1 & Hn1 & H).
  apply bind_Ok_inv in H as (c2 & Hc2 & H).
  inversion H; subst y; clear H.
  apply apply_conv_shape in Hc1, Hc2. apply apply_norm_shape in Hn1.
  unfold same_extents, conv_extent in *. simpl in *.
  rewrite Hc2. simpl. rewrite Hn1, Hc1. simpl. rewrite !Z.div_1_r. lia.
Qed.

Lemma PostBlock_forward_shape in_channels out_channels elu x skip y :
  PostBlock_forward (PostBlock_init in_channels out_channels elu) x skip = Ok y ->
  doubles (shape x) (shape skip).
Proof.
  unfold PostBlock_forward. simpl. intros H.
  apply bind_Ok_inv in H as (up & Hup & H).
  apply bind_Ok_inv in H as (nrm & Hnrm & H).
  apply apply_convT_shape in Hup. apply apply_norm_shape in Hnrm.
  apply cat1_shape in H as [_ Hc2].
  unfold same_extents, doubles, convT_extent in *. simpl in *.
  rewrite Hnrm, Hup in Hc2. simpl in *. lia.
Qed.

Lemma SegmentationNet_forward_stages cin cout elu x :
  SegmentationNet_forward (SegmentationNet_init cin cout elu) x =
  (dout ← PreBlock_forward (PreBlock_init cin cin elu) x;
   out16 ← InputTransition_forward (InputTransition_init cin elu) dout;
   out32 ← DownTransition_forward (DownTransition_init 16 2 elu false false) out16;
   out64 ← DownTransition_forward (DownTransition_init 32 3 elu false true) out32;
   out128 ← DownTransition_forward (DownTransition_init 64 4 elu true true) out64;
   out256 ← DownTransition_forward (DownTransition_init 128 4 elu true true) out128;
   out ← UpTransition_forward (UpTransition_init 256 256 4 elu true true) out256 out128;
   out ← UpTransition_forward (UpTransition_init 256 128 4 elu true true) out out64;
   out ← UpTransition_forward (UpTransition_init 128 64 3 elu false false) out out32;
   out ← UpTransition_forward (UpTransition_init 64 32 2 elu false false) out out16;
   out ← OutputTransition_forward (OutputTransition_init 32 cout elu) out;
   out ← PostBlock_forward (PostBlock_init cout cout elu) out x;
   Raise (AttributeError "out_block")).
Proof. reflexivity. Qed.

Ltac through_stage H t Ht :=
  apply bind_Raise_inv in H as [H | (t & Ht & H)];
  [ exfalso;
    assert (shape_error (AttributeError "out_block")) by eauto with shape_errors;
    assumption | ].

(** The true stride.  An input gets through the encoder, the decoder and
    [post_block], as far as the lookup of the final stage, only if each of its
    spatial extents is a multiple of 32: every [UpTransition] and the
    [PostBlock] concatenate a tensor of doubled extents with the skip tensor
    of the mirror stage, five doublings between [out256] and the input. *)
Lemma forward_gets_through_only_multiples_of_32 cin cout elu x :
  SegmentationNet_forward (SegmentationNet_init cin cout elu) x =
  Raise (AttributeError "out_block") ->
  (32 | depth (shape x)) /\ (32 | height (shape x)) /\ (32 | width (shape x)).
Proof.
  rewrite SegmentationNet_forward_stages. intros H.
  through_stage H dout Hpre. through_stage H out16 Hin.
  through_stage H out32 H32. through_stage H out64 H64.
  through_stage H out128 H128. through_stage H out256 H256.
  through_stage H u256 Hu256. through_stage H u128 Hu128.
  through_stage H u64 Hu64. through_stage H u32 Hu32.
  through_stage H pro Hpro. through_stage H post Hpost.
  clear H Hpre Hin H32 H64 H128 H256.
  apply UpTransition_forward_shape in Hu256 as [D1 S1].
  apply UpTransition_forward_shape in Hu128 as [D2 S2].
  apply UpTransition_forward_shape in Hu64 as [D3 S3].
  apply UpTransition_forward_shape in Hu32 as [D4 S4].
  apply OutputTransition_forward_shape in Hpro.
  apply PostBlock_forward_shape in Hpost.
  unfold doubles, same_extents in *.
  repeat split.
  - exists (depth (shape out256)). lia.
  - exists (height (shape out256)). lia.
  - exists (width (shape out256)). lia.
Qed.

(** ** The focal prior *)

Section FocalBias.
Open Scope R_scope.





End FocalBias.

(** ** Replacing one sub-module *)






Lemma tiny_net_gaussian_init :
  apply (gaussian_weight_init mean_sampler (1 / 100)%R (1 / 100)%R) tiny_net tt =
  Ok (tiny_net_gaussian, tt).
Proof. reflexivity. Qed.



End VbbnetFacts.

(* ===================================================================== *)
(** * Properties of the training engine *)
(* ===================================================================== *)

Module TrainFacts.
Import Vbbnet Train.

(** ** Rules of the weakest precondition *)

Section Rules.
Context {StateDict OptState : Type}.
Implicit Types st : @State StateDict OptState.

Lemma wp_ret {A} (a : A) Q E st : Q a st -> wp (ret a) Q E st.
Proof. exact (fun H => H). Qed.

Lemma wp_mret {A} (a : A) (Q : A -> @State StateDict OptState -> Prop) E st :
  Q a st -> wp (mret a) Q E st.
Proof. exact (fun H => H). Qed.

Lemma wp_raise {A} e (Q : A -> @State StateDict OptState -> Prop) E st :
  E e st -> wp (raise e) Q E st.
Proof. exact (fun H => H). Qed.

Lemma wp_bind {A B} (m : M A) (k : A -> M B) Q E st :
  wp m (fun a st' => wp (k a) Q E st') E st -> wp (m ≫= k) Q E st.
Proof.
  unfold wp, mbind, M_bind. destruct (m st) as [[a|e] st']; exact (fun H => H).
Qed.

Lemma wp_lift {A} (r : result A) (Q : A -> @State StateDict OptState -> Prop) E st :
  match r with Ok a => Q a st | Raise e => E e st end -> wp (lift r) Q E st.
Proof. unfold wp, lift. destruct r; exact (fun H => H). Qed.

Lemma wp_get Q E st : Q st st -> wp get Q E st.
Proof. exact (fun H => H). Qed.

Lemma wp_modify f Q E st : Q tt (f st) -> wp (modify f) Q E st.
Proof. exact (fun H => H). Qed.

Lemma wp_emit e Q E st : Q tt (add_events st [e]) -> wp (emit e) Q E st.
Proof. exact (fun H => H). Qed.

Lemma wp_assert b msg Q E st :
  (b = true -> Q tt st) -> (b = false -> E (AssertionError msg) st) ->
  wp (assert b msg) Q E st.
Proof. destruct b; unfold assert; intros Ht Hf; [apply Ht | apply Hf]; reflexivity. Qed.

Lemma wp_when b (m : M unit) Q E st :
  (b = true -> wp m Q E st) -> (b = false -> Q tt st) -> wp (when b m) Q E st.
Proof. destruct b; unfold when; intros Ht Hf; [apply Ht | apply Hf]; reflexivity. Qed.

Lemma wp_mono {A} (m : M A) (Q Q' : A -> @State StateDict OptState -> Prop)
    (E E' : exn -> @State StateDict OptState -> Prop) st :
  wp m Q E st ->
  (forall a st', Q a st' -> Q' a st') -> (forall e st', E e st' -> E' e st') ->
  wp m Q' E' st.
Proof.
  unfold wp. destruct (m st) as [[a|e] st']; intros H HQ HE; [apply HQ | apply HE]; exact H.
Qed.

Lemma wp_returns {A} (m : M A) (Q : A -> @State StateDict OptState -> Prop) st :
  wp m Q (fun _ _ => False) st -> exists a st', m st = (Ok a, st') /\ Q a st'.
Proof. unfold wp. destruct (m st) as [[a|e] st']; [eauto | contradiction]. Qed.

Lemma wp_raises {A} (m : M A) (E : exn -> @State StateDict OptState -> Prop) st :
  wp m (fun _ _ => False) E st -> exists e st', m st = (Raise e, st') /\ E e st'.
Proof. unfold wp. destruct (m st) as [[a|e] st']; [contradiction | eauto]. Qed.

Lemma wp_outcome {A} (m : M A) (Q : A -> @State StateDict OptState -> Prop) E st :
  wp m Q E st ->
  match fst (m st) with Ok a => Q a (snd (m st)) | Raise e => E e (snd (m st)) end.
Proof. unfold wp. destruct (m st) as [[a|e] st']; exact (fun H => H). Qed.

Lemma wp_isfile path Q E st :
  Q (bool_decide (is_Some (fs st !! path))) st -> wp (isfile path) Q E st.
Proof. exact (fun H => H). Qed.

Lemma wp_load_pytorch_model path Q E st :
  match fs st !! path with
  | Some f => Q f st
  | None => E (RuntimeError ("No such file: " +:+ path)) st
  end -> wp (load_pytorch_model path) Q E st.
Proof.
  unfold wp, load_pytorch_model, mbind, M_bind, get. simpl.
  destruct (fs st !! path); exact (fun H => H).
Qed.

Lemma wp_save_pytorch_model obj path Q E st :
  Q tt (mkState (<[path := obj]> (fs st)) (net_params st) (opt_state st)
                (scheduler_last_epoch st) (trace st)) ->
  wp (save_pytorch_model obj path) Q E st.
Proof. exact (fun H => H). Qed.

Lemma wp_evaluate_terms names Q E st :
  Q tt (add_events st (map EvLossTerm names)) -> wp (evaluate_terms names) Q E st.
Proof.
  revert st. induction names as [|n rest IH]; intros st H; simpl.
  - apply wp_ret. unfold add_events in H. simpl in H. rewrite app_nil_r in H.
    destruct st; exact H.
  - apply wp_bind, wp_emit, IH.
    unfold add_events in *. simpl in *. rewrite <- app_assoc. exact H.
Qed.

End Rules.

Ltac wp_simpl :=
  cbv beta;
  cbn [fs net_params opt_state scheduler_last_epoch trace add_events
       batch_idx last_save_epoch fst snd].

Ltac wp_step :=
  lazymatch goal with
  | |- wp (_ ≫= _) _ _ _ => apply wp_bind
  | |- wp (ret _) _ _ _ => apply wp_ret
  | |- wp (raise _) _ _ _ => apply wp_raise
  | |- wp (lift _) _ _ _ => apply wp_lift
  | |- wp get _ _ _ => apply wp_get
  | |- wp (emit _) _ _ _ => apply wp_emit
  | |- wp (modify _) _ _ _ => apply wp_modify
  | |- wp (set_fs _) _ _ _ => apply wp_modify
  | |- wp (set_net_params _) _ _ _ => apply wp_modify
  | |- wp (set_opt_state _) _ _ _ => apply wp_modify
  | |- wp (set_scheduler_last_epoch _) _ _ _ => apply wp_modify
  | |- wp (scheduler_init _) _ _ _ => apply wp_modify
  | |- wp (isfile _) _ _ _ => apply wp_isfile
  | |- wp (load_pytorch_model _) _ _ _ => apply wp_load_pytorch_model
  | |- wp (save_pytorch_model _ _) _ _ _ => apply wp_save_pytorch_model
  | |- wp (evaluate_terms _) _ _ _ => apply wp_evaluate_terms
  | |- wp (net_load_state_dict _) _ _ _ => unfold net_load_state_dict
  | |- wp (scheduler_step _) _ _ _ => unfold scheduler_step
  | |- wp (opt_step _ _) _ _ _ => unfold opt_step
  | |- wp (calculate_loss _ _) _ _ _ => unfold calculate_loss
  | |- wp (save_checkpoint _ _ _ _ _ _) _ _ _ => unfold save_checkpoint
  end; wp_simpl.

(** ** load_checkpoint *)

(** C7. [load_checkpoint epoch_idx net opt save_dir] stops with the assertion
    failure "checkpoint file not found" when [params.pth] of the epoch's
    checkpoint directory is absent, and with "optimizer file not found" when
    the parameters are there (a checkpoint dictionary) and [optimizer.pth] is
    absent; when both are there it loads the stored state dictionary into the
    network, the stored optimizer state into the optimizer, and returns the
    stored epoch and batch indices. *)
Theorem load_checkpoint_restores_or_reports_missing
    {StateDict OptState : Type}
    (epoch_idx : Z) (dir : string) (st : @State StateDict OptState) :
  let folder := chk_folder_of dir epoch_idx in
  let params := path_join folder ["params.pth"] in
  let optimizer := path_join folder ["optimizer.pth"] in
  (fs st !! params = None ->
   load_checkpoint epoch_idx dir st =
   (Raise (AssertionError ("checkpoint file not found: " +:+ params)), st)) /\
  (forall c : @Checkpoint StateDict,
      fs st !! params = Some (FCheckpoint c) ->
      fs st !! optimizer = None ->
      exists st',
        load_checkpoint epoch_idx dir st =
        (Raise (AssertionError ("optimizer file not found: " +:+ params)), st')) /\
  (forall (c : @Checkpoint StateDict) (o : OptState),
      fs st !! params = Some (FCheckpoint c) ->
      fs st !! optimizer = Some (FOptimizer o) ->
      exists st',
        load_checkpoint epoch_idx dir st = (Ok (ck_epoch c, ck_batch c), st') /\
        net_params st' = ck_state_dict c /\
        opt_state st' = o /\
        fs st' = fs st).
Proof.
  intros folder params optimizer.
  assert (Ep : path_join dir ["checkpoints"; "chk_" +:+ format_int epoch_idx; "params.pth"]
               = params) by reflexivity.
  assert (Eo : path_join dir ["checkpoints"; "chk_" +:+ format_int epoch_idx; "optimizer.pth"]
               = optimizer) by reflexivity.
  unfold load_checkpoint. rewrite Ep, Eo. clearbody params optimizer. clear Ep Eo folder.
  split; [|split].
  - intros Hp.
    destruct (wp_raises
                (ok ← isfile params;
                 assert ok ("checkpoint file not found: " +:+ params);;
                 state ← load_pytorch_model params;
                 c ← as_checkpoint state "state_dict";
                 net_load_state_dict (ck_state_dict c);;
                 ok ← isfile optimizer;
                 assert ok ("optimizer file not found: " +:+ params);;
                 opt_state ← load_pytorch_model optimizer;
                 opt_load_state_dict opt_state;;
                 ret (ck_epoch c, ck_batch c))
                (fun e st' =>
                   e = AssertionError ("checkpoint file not found: " +:+ params) /\ st' = st)
                st) as (e & st' & Hrun & -> & ->); [|exact Hrun].
    repeat wp_step. rewrite Hp.
    apply wp_assert; [discriminate | intros _; split; reflexivity].
  - intros c Hp Ho.
    destruct (wp_raises
                (ok ← isfile params;
                 assert ok ("checkpoint file not found: " +:+ params);;
                 state ← load_pytorch_model params;
                 c ← as_checkpoint state "state_dict";
                 net_load_state_dict (ck_state_dict c);;
                 ok ← isfile optimizer;
                 assert ok ("optimizer file not found: " +:+ params);;
                 opt_state ← load_pytorch_model optimizer;
                 opt_load_state_dict opt_state;;
                 ret (ck_epoch c, ck_batch c))
                (fun e st' =>
                   e = AssertionError ("optimizer file not found: " +:+ params))
                st) as (e & st' & Hrun & ->); [|exists st'; exact Hrun].
    repeat wp_step. rewrite Hp.
    apply wp_assert; [intros _ | discriminate].
    repeat wp_step. rewrite Hp. unfold as_checkpoint.
    repeat wp_step. rewrite Ho.
    apply wp_assert; [discriminate | reflexivity].
  - intros c o Hp Ho.
    destruct (wp_returns
                (ok ← isfile params;
                 assert ok ("checkpoint file not found: " +:+ params);;
                 state ← load_pytorch_model params;
                 c ← as_checkpoint state "state_dict";
                 net_load_state_dict (ck_state_dict c);;
                 ok ← isfile optimizer;
                 assert ok ("optimizer file not found: " +:+ params);;
                 opt_state ← load_pytorch_model optimizer;
                 opt_load_state_dict opt_state;;
                 ret (ck_epoch c, ck_batch c))
                (fun r st' =>
                   r = (ck_epoch c, ck_batch c) /\ net_params st' = ck_state_dict c /\
                   opt_state st' = o /\ fs st' = fs st)
                st) as (r & st' & Hrun & -> & Hrest); [|exists st'; split; assumption].
    repeat wp_step. rewrite Hp.
    apply wp_assert; [intros _ | discriminate].
    repeat wp_step. rewrite Hp. unfold as_checkpoint.
    repeat wp_step. rewrite Ho.
    apply wp_assert; [intros _ | discriminate].
    repeat wp_step. rewrite Ho. unfold opt_load_state_dict.
    repeat wp_step. repeat split; reflexivity.
Qed.

(** ** Observers of a trace *)

Lemma steps_of_app a b : steps_of (a ++ b) = steps_of a ++ steps_of b.
Proof. apply omap_app. Qed.

Lemma saves_of_app a b : saves_of (a ++ b) = saves_of a ++ saves_of b.
Proof. apply omap_app. Qed.

Lemma steps_of_loss_terms names : steps_of (map EvLossTerm names) = [].
Proof. induction names; [reflexivity | exact IHnames]. Qed.

Lemma saves_of_loss_terms names : saves_of (map EvLossTerm names) = [].
Proof. induction names; [reflexivity | exact IHnames]. Qed.

Ltac trace_simpl :=
  repeat first
    [ rewrite steps_of_app | rewrite saves_of_app
    | rewrite steps_of_loss_terms | rewrite saves_of_loss_terms
    | rewrite app_nil_r ];
  cbn [steps_of saves_of omap list_omap app].

Ltac wp_auto :=
  repeat first
    [ wp_step
    | apply wp_assert; intros ?
    | apply wp_when; intros ?
    | lazymatch goal with
      | |- match ?r with Ok _ => _ | Raise _ => _ end => destruct r eqn:?
      | |- wp (if ?b then _ else _) _ _ _ => destruct b eqn:?
      end ].

(** ** One pass through the loop body *)

Lemma floordiv_Ok a b q : floordiv a b = Ok q -> b <> 0 /\ q = a / b.
Proof.
  unfold floordiv. destruct (Z.eqb_spec b 0); [discriminate|].
  intros [= <-]. split; [assumption | reflexivity].
Qed.

Lemma pymod_Ok a b r : pymod a b = Ok r -> b <> 0 /\ r = a mod b.
Proof.
  unfold pymod. destruct (Z.eqb_spec b 0); [discriminate|].
  intros [= <-]. split; [assumption | reflexivity].
Qed.

Ltac arith_inv :=
  repeat match goal with
    | H : floordiv _ _ = Ok _ |- _ => apply floordiv_Ok in H; destruct H as [? ->]
    | H : pymod _ _ = Ok _ |- _ => apply pymod_Ok in H; destruct H as [? ->]
    end.

Ltac bool_cases :=
  repeat match goal with
    | H : _ = true |- _ => revert H
    | H : _ = false |- _ => revert H
    end;
  repeat match goal with
    | |- context [Z.eqb ?a ?b] => destruct (Z.eqb_spec a b)
    end;
  cbn [negb andb]; intros.

Lemma iteration_spec {StateDict OptState : Type} cfg (w : @World StateDict OptState) l i st :
  wp (iteration cfg w l i) (iteration_completed cfg w l st) (iteration_raised cfg w l st) st.
Proof.
  unfold iteration. wp_auto.
  all: unfold iteration_completed, iteration_raised; wp_simpl; trace_simpl.
  all: try (split; [reflexivity | left; split; reflexivity]).
  all: arith_inv; unfold save_due, epoch_of; bool_cases; try discriminate.
  all: try (repeat split; first [reflexivity | lia | now rewrite app_nil_r]).
  all: try (split; [reflexivity | right; repeat split; first [assumption | reflexivity]]).
Qed.

(** ** The loop and the prelude *)

Lemma wp_loop {StateDict OptState : Type} cfg (w : @World StateDict OptState)
    (I : nat -> Locals -> State -> Prop) (E : exn -> State -> Prop) :
  (forall k l i st, I k l st -> wp (iteration cfg w l i) (I (S k)) E st) ->
  forall idxs k l st,
    I k l st -> wp (loop cfg w l idxs) (I (k + length idxs)%nat) E st.
Proof.
  intros Hbody. induction idxs as [|i rest IH]; intros k l st HI; simpl.
  - apply wp_ret. now rewrite Nat.add_0_r.
  - apply wp_bind. eapply wp_mono; [apply Hbody, HI | | auto].
    intros l' st' HI'. replace (k + S (length rest))%nat with (S k + length rest)%nat by lia.
    apply IH, HI'.
Qed.

Lemma range_len n : length (range (Z.of_nat n)) = n.
Proof. unfold range. rewrite length_map, length_seq. lia. Qed.

Lemma before_loop_observers {StateDict OptState : Type} (st st1 : @State StateDict OptState) :
  before_loop st st1 ->
  steps_of (trace st1) = steps_of (trace st) /\ saves_of (trace st1) = saves_of (trace st).
Proof.
  intros (_ & _ & _ & evs & Htr & Hevs). rewrite Htr.
  rewrite steps_of_app, saves_of_app.
  destruct Hevs as [-> | [-> | [-> | ->]]]; simpl; now rewrite ?app_nil_r.
Qed.

Ltac before_loop_tac :=
  repeat split; wp_simpl;
  first [ exists []; split; [now rewrite app_nil_r | tauto]
        | eexists; split; [reflexivity | tauto]
        | eexists; split; [now rewrite <- app_assoc | simpl; tauto] ].

Lemma wp_train {StateDict OptState : Type} cfg (w : @World StateDict OptState)
    (Q : unit -> State -> Prop) (E : exn -> State -> Prop) st :
  (forall e st1, before_loop st st1 -> E e st1) ->
  (resume_epoch cfg < 0 ->
   forall st1,
     before_loop st st1 ->
     scheduler_last_epoch st1 = scheduler_param_last_epoch cfg + 1 ->
     wp (loop cfg w (mkLocals 0 0) (range (Z.of_nat (loader_len w))))
        (fun _ st2 => Q tt st2) E st1) ->
  wp (train cfg w) Q E st.
Proof.
  intros Hfail Hloop. unfold train. wp_auto.
  all: try match goal with H : str_getattr _ _ = Ok _ |- _ => discriminate H end.
  all: try (apply Hfail; before_loop_tac).
  all: match goal with
       | |- wp (loop _ _ (mkLocals ?b _) _) _ _ _ =>
           replace b with 0 by (destruct (clear_start_epoch cfg); reflexivity)
       end.
  all: apply Hloop; [lia | before_loop_tac | reflexivity].
Qed.

(** ** The derived epoch index *)

Section EpochArith.
Context {StateDict OptState : Type}.
Variable cfg : Config.
Variable w : @World StateDict OptState.

Lemma epoch_of_0 : epoch_of cfg w 0 = 0.
Proof. unfold epoch_of. rewrite Z.mul_0_l. apply Zdiv_0_l. Qed.

Lemma epoch_of_succ b :
  epoch_of cfg w (b + 1) = (b * batchsize cfg + batchsize cfg) / Z.of_nat (dataset_len w).
Proof. unfold epoch_of. f_equal. lia. Qed.

Lemma epoch_of_direction b :
  dataset_len w <> 0%nat ->
  direction cfg * epoch_of cfg w b <= direction cfg * epoch_of cfg w (b + 1).
Proof.
  intros Hlen. rewrite epoch_of_succ. unfold epoch_of, direction.
  destruct (Z.leb_spec 0 (batchsize cfg)) as [Hbs|Hbs].
  - rewrite !Z.mul_1_l. apply Z.div_le_mono; lia.
  - assert ((b * batchsize cfg + batchsize cfg) / Z.of_nat (dataset_len w)
            <= b * batchsize cfg / Z.of_nat (dataset_len w))
      by (apply Z.div_le_mono; lia).
    lia.
Qed.

Lemma epoch_of_small_batches b :
  0 < batchsize cfg <= Z.of_nat (dataset_len w) ->
  epoch_of cfg w (b + 1) = epoch_of cfg w b \/
  epoch_of cfg w (b + 1) = epoch_of cfg w b + 1.
Proof.
  intros [Hbs Hlen]. rewrite epoch_of_succ. unfold epoch_of.
  set (x := b * batchsize cfg). set (n := Z.of_nat (dataset_len w)) in *.
  assert (Hlo : x / n <= (x + batchsize cfg) / n) by (apply Z.div_le_mono; lia).
  assert (Hhi : (x + batchsize cfg) / n <= (x + 1 * n) / n) by (apply Z.div_le_mono; lia).
  rewrite Z.div_add in Hhi by lia. lia.
Qed.

Lemma epoch_of_nonneg b : 0 <= b -> 0 <= batchsize cfg -> 0 <= epoch_of cfg w b.
Proof. intros Hb Hbs. unfold epoch_of. apply Z_div_nonneg_nonneg; lia. Qed.

Lemma epoch_of_large_batches b :
  dataset_len w <> 0%nat -> Z.of_nat (dataset_len w) < batchsize cfg ->
  epoch_of cfg w b < epoch_of cfg w (b + 1).
Proof.
  intros Hlen Hbs. rewrite epoch_of_succ. unfold epoch_of.
  set (x := b * batchsize cfg). set (n := Z.of_nat (dataset_len w)) in *.
  assert (Hlo : (x + 1 * n) / n <= (x + batchsize cfg) / n) by (apply Z.div_le_mono; lia).
  rewrite Z.div_add in Hlo by lia. lia.
Qed.

End EpochArith.

(** ** Checkpoints *)

Lemma saves_invariant_iteration {StateDict OptState : Type}
    cfg (w : @World StateDict OptState) l i st :
  saves_invariant cfg w l st ->
  wp (iteration cfg w l i) (saves_invariant cfg w)
     (fun _ st' => NoDup (saves_of (trace st')) /\ 0 ∉ saves_of (trace st')) st.
Proof.
  intros (Hnd & H0 & Hle & Hcur).
  eapply wp_mono; [apply iteration_spec | |].
  - intros l' st' (Hlen & Hb & _ & _ & Hsaves & Hlast).
    pose proof (epoch_of_direction cfg w (batch_idx l) Hlen) as Hmono.
    unfold saves_invariant. rewrite Hsaves, Hlast, Hb.
    assert (Hd : direction cfg = 1 \/ direction cfg = -1)
      by (unfold direction; destruct (0 <=? batchsize cfg); auto).
    destruct (save_due cfg l (epoch_of cfg w (batch_idx l))) eqn:Hdue.
    + unfold save_due in Hdue.
      apply andb_prop in Hdue as [Hdue Hne]. apply andb_prop in Hdue as [Hnz _].
      apply negb_true_iff, Z.eqb_neq in Hne, Hnz.
      assert (Hfresh : epoch_of cfg w (batch_idx l) ∉ saves_of (trace st)).
      { intros Hin. apply Hle in Hin. destruct Hd as [Hd|Hd]; rewrite Hd in *; lia. }
      repeat split.
      * apply NoDup_app; repeat split; [exact Hnd | | apply NoDup_singleton].
        intros x Hx Hx'. apply list_elem_of_singleton in Hx'. subst x. exact (Hfresh Hx).
      * rewrite elem_of_app, list_elem_of_singleton. intros [Hin|Hin]; [exact (H0 Hin) | lia].
      * intros s. rewrite elem_of_app, list_elem_of_singleton. intros [Hin | ->]; [|lia].
        specialize (Hle s Hin). destruct Hd as [Hd|Hd]; rewrite Hd in *; lia.
      * exact Hmono.
    + rewrite app_nil_r. repeat split; try assumption. lia.
  - intros e st' (Hsaves & _). cbv beta. rewrite Hsaves. split; assumption.
Qed.

Lemma elem_of_saves_of e b tr : EvSave e b ∈ tr -> e ∈ saves_of tr.
Proof.
  intros Hin. unfold saves_of.
  apply list_elem_of_omap. exists (EvSave e b). split; [exact Hin | reflexivity].
Qed.

(** C10. In every run of the engine, to completion or to the exception that
    stops it, no checkpoint is saved while the derived epoch index is 0, and
    no derived epoch index has a checkpoint saved for it twice. *)
Theorem checkpoint_never_at_epoch_zero_once_per_epoch
    {StateDict OptState : Type} (cfg : Config) (w : @World StateDict OptState)
    (files : gmap string File) (p : StateDict) (o : OptState) :
  let st' := snd (train cfg w (initial_state files p o)) in
  (forall e b, EvSave e b ∈ trace st' -> e <> 0) /\
  NoDup (saves_of (trace st')).
Proof.
  intros st'.
  assert (H : NoDup (saves_of (trace st')) /\ 0 ∉ saves_of (trace st')).
  { set (P := fun (st1 : @State StateDict OptState) =>
                NoDup (saves_of (trace st1)) /\ 0 ∉ saves_of (trace st1)).
    pose proof (wp_outcome (train cfg w) (fun _ => P) (fun _ => P)
                  (initial_state files p o)) as Hout.
    assert (Hwp : wp (train cfg w) (fun _ => P) (fun _ => P) (initial_state files p o)).
    { apply wp_train.
      - intros e st1 Hpre. apply before_loop_observers in Hpre as [_ Hs].
        unfold P. rewrite Hs. simpl. split; [constructor | apply not_elem_of_nil].
      - intros _ st1 Hpre _. apply before_loop_observers in Hpre as [_ Hs].
        eapply wp_mono.
        + apply (wp_loop cfg w (fun _ => saves_invariant cfg w) (fun _ => P)).
          * intros k l i st Hinv. apply saves_invariant_iteration, Hinv.
          * exact 0%nat.
          * unfold saves_invariant. rewrite Hs. simpl.
            rewrite epoch_of_0. repeat split; [constructor | apply not_elem_of_nil | | lia].
            intros s Hs'. now apply not_elem_of_nil in Hs'.
        + intros l st2 (Hnd & H0 & _). split; assumption.
        + auto. }
    specialize (Hout Hwp). fold st' in Hout.
    destruct (fst (train cfg w (initial_state files p o))); exact Hout. }
  destruct H as [Hnd H0]. split; [|exact Hnd].
  intros e b Hin ->. apply H0. eapply elem_of_saves_of, Hin.
Qed.

(** ** The scheduler *)

Lemma upto_snoc n : 0 <= n -> upto (n + 1) = upto n ++ [n + 1].
Proof.
  intros Hn. unfold upto.
  replace (Z.to_nat (n + 1)) with (S (Z.to_nat n)) by lia.
  rewrite seq_S, map_app. simpl. do 2 f_equal. lia.
Qed.

Lemma upto_nonpos n : n <= 0 -> upto n = [].
Proof. intros Hn. unfold upto. replace (Z.to_nat n) with 0%nat by lia. reflexivity. Qed.

Lemma seq_sorted k : forall a, StronglySorted Z.lt (map Z.of_nat (seq a k)).
Proof.
  induction k as [|k IH]; intros a; simpl; constructor.
  - apply IH.
  - apply Forall_forall. intros x Hx.
    apply list_elem_of_fmap in Hx as (y & -> & Hy).
    apply list_elem_of_In, in_seq in Hy. lia.
Qed.

Lemma upto_sorted n : StronglySorted Z.lt (upto n).
Proof. apply seq_sorted. Qed.

Lemma sorted_snoc (steps : list Z) (e : Z) :
  StronglySorted Z.lt steps -> (forall s, s ∈ steps -> s < e) ->
  StronglySorted Z.lt (steps ++ [e]).
Proof.
  intros Hs Hlt. apply StronglySorted_app_2; [|exact Hs|repeat constructor].
  intros x1 x2 H1 H2. apply list_elem_of_singleton in H2. subst x2. apply Hlt, H1.
Qed.

Lemma steps_invariant_iteration {StateDict OptState : Type}
    cfg (w : @World StateDict OptState) k l i st :
  0 < batchsize cfg ->
  steps_invariant cfg w k l st ->
  wp (iteration cfg w l i) (steps_invariant cfg w (S k))
     (fun _ st' => StronglySorted Z.lt (steps_of (trace st'))) st.
Proof.
  intros Hbs [HA HB].
  eapply wp_mono; [apply iteration_spec | |].
  - intros l' st' (Hlen & Hb & Hsteps & Hsched & _ & _). split.
    + intros Hsmall. destruct (HA Hsmall) as (Hk & Hlast & Hupto).
      rewrite Hk in *. unfold steps_in_step.
      replace (Z.max (Z.of_nat (S k) - 1) 0) with (Z.of_nat k) by lia.
      assert (Hcase : epoch_of cfg w (Z.of_nat k) = scheduler_last_epoch st \/
                      epoch_of cfg w (Z.of_nat k) = scheduler_last_epoch st + 1).
      { rewrite Hlast. destruct k as [|k].
        - left. reflexivity.
        - replace (Z.max (Z.of_nat (S k) - 1) 0) with (Z.of_nat k) by lia.
          replace (Z.of_nat (S k)) with (Z.of_nat k + 1) by lia.
          apply epoch_of_small_batches. lia. }
      assert (Hpos : 0 <= scheduler_last_epoch st)
        by (rewrite Hlast; apply epoch_of_nonneg; lia).
      rewrite Hsteps, Hsched, Hupto.
      destruct (Z.eqb_spec (epoch_of cfg w (Z.of_nat k)) (scheduler_last_epoch st))
        as [Heq|Hne].
      * rewrite app_nil_r. repeat split; [lia | symmetry; exact Heq].
      * destruct Hcase as [Hc|Hc]; [contradiction|].
        repeat split; [lia | symmetry; exact Hc |].
        rewrite upto_snoc by exact Hpos. now rewrite Hc.
    + intros Hlarge. destruct (HB Hlarge) as (Hk & Hsorted & Hlt).
      pose proof (epoch_of_large_batches cfg w (batch_idx l) Hlen Hlarge) as Hnext.
      unfold steps_ahead. rewrite Hsteps, Hb.
      destruct (epoch_of cfg w (batch_idx l) =? scheduler_last_epoch st).
      * rewrite app_nil_r. repeat split; [lia | exact Hsorted |].
        intros s Hs. specialize (Hlt s Hs). lia.
      * repeat split; [lia | apply sorted_snoc; assumption |].
        intros s. rewrite elem_of_app, list_elem_of_singleton.
        intros [Hs | ->]; [specialize (Hlt s Hs); lia | exact Hnext].
  - intros e st' (_ & Hsteps). cbv beta.
    destruct (Z_le_gt_dec (batchsize cfg) (Z.of_nat (dataset_len w))) as [Hsmall|Hlarge].
    + destruct (HA Hsmall) as (Hk & Hlast & Hupto).
      destruct Hsteps as [[-> _] | (Hne & -> & _)].
      * rewrite Hupto. apply upto_sorted.
      * rewrite Hupto. apply sorted_snoc; [apply upto_sorted|].
        assert (Hcase : epoch_of cfg w (batch_idx l) = scheduler_last_epoch st \/
                        epoch_of cfg w (batch_idx l) = scheduler_last_epoch st + 1).
        { rewrite Hlast, Hk. destruct k as [|k].
          - left. reflexivity.
          - replace (Z.max (Z.of_nat (S k) - 1) 0) with (Z.of_nat k) by lia.
            replace (Z.of_nat (S k)) with (Z.of_nat k + 1) by lia.
            apply epoch_of_small_batches. lia. }
        destruct Hcase as [Hc|Hc]; [contradiction|].
        intros s Hs. unfold upto in Hs.
        apply list_elem_of_fmap in Hs as (y & -> & Hy).
        apply list_elem_of_In, in_seq in Hy. lia.
    + destruct (HB ltac:(lia)) as (Hk & Hsorted & Hlt).
      destruct Hsteps as [[-> _] | (Hne & -> & _)]; [exact Hsorted|].
      apply sorted_snoc; assumption.
Qed.

(** C5 (as amended).  With the scheduler built from its default
    [last_epoch = -1], so that its cursor starts at 0, and a positive batch
    size: in every run the scheduler steps are taken at strictly increasing
    derived epoch indices, so the cursor never advances twice within one
    epoch; and when the batch size does not exceed the length of the dataset,
    so that a batch crosses at most one epoch boundary, a run that completes
    has stepped the scheduler exactly once into each of the epochs
    [1 .. E], where [E] is the derived epoch index of the last batch, and
    leaves the cursor at [E]. *)
Theorem scheduler_steps_once_per_epoch
    {StateDict OptState : Type} (cfg : Config) (w : @World StateDict OptState)
    (files : gmap string File) (p : StateDict) (o : OptState) :
  scheduler_param_last_epoch cfg = -1 ->
  0 < batchsize cfg ->
  let r := train cfg w (initial_state files p o) in
  StronglySorted Z.lt (steps_of (trace (snd r))) /\
  (batchsize cfg <= Z.of_nat (dataset_len w) ->
   fst r = Ok tt ->
   let E := epoch_of cfg w (Z.max (Z.of_nat (loader_len w) - 1) 0) in
   steps_of (trace (snd r)) = upto E /\ scheduler_last_epoch (snd r) = E).
Proof.
  intros Hparam Hbs r.
  set (E := epoch_of cfg w (Z.max (Z.of_nat (loader_len w) - 1) 0)).
  set (Q := fun (st' : @State StateDict OptState) =>
              StronglySorted Z.lt (steps_of (trace st')) /\
              (batchsize cfg <= Z.of_nat (dataset_len w) ->
               steps_of (trace st') = upto E /\ scheduler_last_epoch st' = E)).
  set (R := fun (st' : @State StateDict OptState) =>
              StronglySorted Z.lt (steps_of (trace st'))).
  assert (Hwp : wp (train cfg w) (fun _ => Q) (fun _ => R) (initial_state files p o)).
  { apply wp_train.
    - intros e st1 Hpre. apply before_loop_observers in Hpre as [Hs _].
      unfold R. rewrite Hs. constructor.
    - intros _ st1 Hpre Hsched. apply before_loop_observers in Hpre as [Hs _].
      eapply wp_mono.
      + apply (wp_loop cfg w (steps_invariant cfg w) (fun _ => R)) with (k := 0%nat).
        * intros k l i st Hinv. apply steps_invariant_iteration; assumption.
        * split.
          -- intros _. repeat split.
             ++ rewrite Hsched, Hparam. simpl. now rewrite epoch_of_0.
             ++ rewrite Hs, Hsched, Hparam. reflexivity.
          -- intros _. repeat split.
             ++ rewrite Hs. constructor.
             ++ rewrite Hs. intros s Hin. now apply not_elem_of_nil in Hin.
      + cbv beta. rewrite range_len. simpl. intros l st2 [HA HB]. split.
        * destruct (Z_le_gt_dec (batchsize cfg) (Z.of_nat (dataset_len w))) as [Hsmall|Hlarge].
          -- destruct (HA Hsmall) as (_ & _ & ->). apply upto_sorted.
          -- destruct (HB ltac:(lia)) as (_ & Hsorted & _). exact Hsorted.
        * intros Hsmall. destruct (HA Hsmall) as (_ & Hlast & Hupto).
          fold E in Hlast. rewrite Hupto, Hlast. split; reflexivity.
      + auto. }
  apply wp_outcome in Hwp. fold r in Hwp. split.
  - destruct (fst r); [exact (proj1 Hwp) | exact Hwp].
  - intros Hsmall Hok. rewrite Hok in Hwp. exact (proj2 Hwp Hsmall).
Qed.

Lemma scheduler_steps_once_per_epoch_witness :
  let cfg := a_config (-1) 2 [64; 64; 64] (NameStr "Dice") [1%Q] in
  let w := a_world 4 6 (mkShape 2 1 64 64 64) echo_class in
  let r := train cfg w (initial_state ∅ 0%nat 0%nat) in
  fst r = Ok tt /\ steps_of (trace (snd r)) = [1; 2] /\ scheduler_last_epoch (snd r) = 2.
Proof.
  intros cfg w r.
  assert (Hok : fst r = Ok tt) by (vm_compute; reflexivity).
  destruct (scheduler_steps_once_per_epoch cfg w ∅ 0%nat 0%nat) as [_ Hexact].
  - reflexivity.
  - reflexivity.
  - split; [exact Hok|].
    destruct Hexact as [Hsteps Hcursor]; [vm_compute; discriminate | exact Hok |].
    split; [exact Hsteps | exact Hcursor].
Defined.

(** C5 (the claim as stated fails).  With batches of two samples over a
    dataset of one sample, three batches have the derived epoch indices 0, 2
    and 4: the batch sequence crosses four epoch boundaries, the scheduler is
    stepped twice and its cursor ends at 2. *)
Lemma scheduler_lags_when_a_batch_spans_epochs :
  let cfg := a_config (-1) 2 [64; 64; 64] (NameStr "Dice") [1%Q] in
  let w := a_world 1 3 (mkShape 2 1 64 64 64) echo_class in
  let r := train cfg w (initial_state ∅ 0%nat 0%nat) in
  fst r = Ok tt /\
  map (epoch_of cfg w) [0; 1; 2] = [0; 2; 4] /\
  steps_of (trace (snd r)) = [2; 4] /\
  scheduler_last_epoch (snd r) = 2.
Proof. vm_compute. repeat split; reflexivity. Qed.

(** ** The loss terms *)

Lemma range_head n : exists rest, range (Z.of_nat (S n)) = 0 :: rest.
Proof.
  unfold range. rewrite Nat2Z.id. simpl. eexists. reflexivity.
Qed.




(** ** Resume *)

Lemma train_resume_raises {StateDict OptState : Type} cfg (w : @World StateDict OptState) st :
  0 <= resume_epoch cfg ->
  exists e st',
    train cfg w st = (Raise e, st') /\
    net_params st' = net_params st /\ opt_state st' = opt_state st /\
    steps_of (trace st') = steps_of (trace st).
Proof.
  intros Hres.
  apply (wp_raises (train cfg w)
           (fun _ st' => net_params st' = net_params st /\ opt_state st' = opt_state st /\
                         steps_of (trace st') = steps_of (trace st))).
  apply wp_train.
  - intros e st1 Hpre. destruct (before_loop_observers _ _ Hpre) as [Hs _].
    destruct Hpre as (_ & Hp & Ho & _). auto.
  - intros Hneg. lia.
Qed.

(** C6 (what the code does).  A checkpoint of epoch 5, written by
    [save_checkpoint] at batch 120 with parameters 7 and optimizer state 9, is
    on disk, and [load_checkpoint] would restore both and return [(5, 120)].
    Asked to resume from epoch 5, [train] never calls it: the resume branch
    evaluates ['chk_{}'.cfg], which raises [AttributeError] before anything is
    read, so the run stops before the loop with the parameters and optimizer
    state of the freshly built network. *)
Theorem train_resume_stops_without_restoring :
  let cfg := a_config 5 2 [64; 64; 64] (NameStr "Dice") [1%Q] in
  let w := a_world 4 6 (mkShape 2 1 64 64 64) echo_class in
  let disk := fs (snd (save_checkpoint 5 120 cfg w max_stride 1
                         (initial_state ∅ 7%nat 9%nat))) in
  let st := initial_state disk 0%nat 0%nat in
  (exists st', load_checkpoint 5 (save_dir cfg) st = (Ok (5, 120), st') /\
               net_params st' = 7%nat /\ opt_state st' = 9%nat) /\
  fst (train cfg w st) = Raise (AttributeError "cfg") /\
  trace (snd (train cfg w st)) = [EvKaimingInit] /\
  net_params (snd (train cfg w st)) = 0%nat /\
  opt_state (snd (train cfg w st)) = 0%nat.
Proof.
  intros cfg w disk st. split.
  - eexists. split; [vm_compute; reflexivity|]. split; reflexivity.
  - vm_compute. repeat split; reflexivity.
Qed.

(** ** The declared stride *)

(** C2 (what the code does).  The engine declares [max_stride = [16, 16, 16]]
    while the network halves the extents five times, a total stride of 32:
    only inputs whose extents are multiples of 32 get through its encoder and
    decoder.  A crop of 48 voxels a side passes the engine's divisibility
    check (it would not pass one against 32), and the first forward pass then
    fails inside the network on mismatched tensor sizes. *)
Theorem declared_max_stride_is_not_network_stride :
  max_stride = [16; 16; 16] /\
  (forall cin cout elu, total_stride (SegmentationNet_init cin cout elu) = Ok 32) /\
  (forall cin cout elu x,
      SegmentationNet_forward (SegmentationNet_init cin cout elu) x =
      Raise (AttributeError "out_block") ->
      (32 | depth (shape x)) /\ (32 | height (shape x)) /\ (32 | width (shape x))) /\
  (let cfg := a_config (-1) 2 [48; 48; 48] (NameStr "Dice") [1%Q] in
   let w := a_world 4 6 (mkShape 2 1 48 48 48) vbbnet_class in
   let r := train cfg w (initial_state ∅ 0%nat 0%nat) in
   np_all_mod_zero (crop_size cfg) max_stride = Ok true /\
   np_all_mod_zero (crop_size cfg) [32; 32; 32] = Ok false /\
   fst r = Raise (RuntimeError "Sizes of tensors must match except in dimension 1") /\
   trace (snd r) = [EvKaimingInit; EvZeroGrad]).
Proof.
  split; [reflexivity|]. split; [intros; reflexivity|].
  split; [exact VbbnetFacts.forward_gets_through_only_multiples_of_32|].
  vm_compute. repeat split; reflexivity.
Qed.

Lemma declared_max_stride_is_not_network_stride_witness :
  SegmentationNet_forward (SegmentationNet_init 1 2 false)
    (mkTensor (mkShape 1 1 64 96 128) (TInput "x")) = Raise (AttributeError "out_block") /\
  (32 | 64) /\ (32 | 96) /\ (32 | 128).
Proof.
  assert (H : SegmentationNet_forward (SegmentationNet_init 1 2 false)
                (mkTensor (mkShape 1 1 64 96 128) (TInput "x")) =
              Raise (AttributeError "out_block")) by (vm_compute; reflexivity).
  split; [exact H|].
  exact (proj1 (proj2 (proj2 declared_max_stride_is_not_network_stride)) 1 2 false _ H).
Defined.

(** ** Round trip through the checkpoint store *)

Lemma load_checkpoint_restores_or_reports_missing_witness :
  let cfg := a_config (-1) 2 [64; 64; 64] (NameStr "Dice") [1%Q] in
  let w := a_world 4 6 (mkShape 2 1 64 64 64) echo_class in
  let st := snd (save_checkpoint 5 120 cfg w max_stride 1 (initial_state ∅ 7%nat 9%nat)) in
  (exists st', load_checkpoint 5 "/out" (initial_state (fs st) 0%nat 0%nat) =
               (Ok (5, 120), st') /\ net_params st' = 7%nat /\ opt_state st' = 9%nat) /\
  (exists msg, fst (load_checkpoint 4 "/out" (initial_state (fs st) 0%nat 0%nat)) =
               Raise (AssertionError msg)).
Proof.
  intros cfg w st. split.
  - destruct (load_checkpoint_restores_or_reports_missing 5 "/out"
                (initial_state (fs st) 0%nat 0%nat)) as (_ & _ & Hboth).
    destruct (Hboth (mkCheckpoint 5 120 "vbbnet" [16; 16; 16] 7%nat 1 2) 9%nat)
      as (st' & Hrun & Hp & Ho & _).
    + vm_compute. reflexivity.
    + vm_compute. reflexivity.
    + exists st'. split; [exact Hrun|]. split; [exact Hp | exact Ho].
  - destruct (load_checkpoint_restores_or_reports_missing 4 "/out"
                (initial_state (fs st) 0%nat 0%nat)) as (Hnone & _).
    eexists. rewrite Hnone; [reflexivity|]. vm_compute. reflexivity.
Defined.

End TrainFacts.

(* ===================================================================== *)
(** * More properties of the network *)
(* ===================================================================== *)

Module NetworkFacts.
Import Vbbnet VbbnetFacts.

(** ** Induction on module trees *)

Lemma NNModule_tree_ind (P : NNModule -> Prop) :
  (forall cn w b cs, Forall (fun nc => P (snd nc)) cs -> P (NNMod cn w b cs)) ->
  forall m, P m.
Proof.
  intros Hstep.
  fix IH 1. intros [cn w b cs]. apply Hstep.
  induction cs as [|[n c] rest IHcs]; constructor; [apply IH | exact IHcs].
Qed.

Lemma apply_unfold {RNG : Type} (fn : NNModule -> RNG -> result (NNModule * RNG))
    cn w b cs g :
  apply fn (NNMod cn w b cs) g =
  (r ← apply_children (apply fn) cs g; fn (NNMod cn w b (fst r)) (snd r)).
Proof. reflexivity. Qed.

(** ** [apply] on the sub-modules *)

Section ApplyChildren.
Context {RNG : Type}.
Variable f : NNModule -> RNG -> result (NNModule * RNG).

(** Entry by entry: the names stay, and each module is the result of [f] on
    the module that was there. *)
Lemma apply_children_Forall2 cs : forall g cs' g',
  apply_children f cs g = Ok (cs', g') ->
  Forall2 (fun a b => fst a = fst b /\ exists gi gj, f (snd a) gi = Ok (snd b, gj)) cs cs'.
Proof.
  induction cs as [|[n c] rest IH]; simpl; intros g cs' g' H.
  - inversion H. constructor.
  - apply bind_Ok_inv in H as ([c1 g1] & Hc & H).
    apply bind_Ok_inv in H as ([rest' g2] & Hrest & H).
    inversion H; subst; clear H. simpl in *. constructor.
    + split; [reflexivity|]. simpl. eauto.
    + eapply IH, Hrest.
Qed.

Lemma apply_children_raises cs name c0 :
  lookup_child cs name = Some c0 ->
  (forall g, exists e, f c0 g = Raise e) ->
  forall g, exists e, apply_children f cs g = Raise e.
Proof.
  intros Hlook Hfail.
  induction cs as [|[n c] rest IH]; simpl in *; [discriminate|]; intros g.
  destruct (String.eqb n name).
  - inversion Hlook; subst c. destruct (Hfail g) as [e ->]. simpl. eauto.
  - destruct (f c g) as [[c1 g1]|e]; simpl; [|eauto].
    destruct (IH Hlook g1) as [e ->]. simpl. eauto.
Qed.

End ApplyChildren.

Lemma lookup_child_In cs name c : lookup_child cs name = Some c -> In (name, c) cs.
Proof.
  induction cs as [|[n m] rest IH]; simpl; [discriminate|].
  destruct (String.eqb_spec n name) as [->|_].
  - intros [= ->]. left. reflexivity.
  - intros H. right. apply IH, H.
Qed.

Lemma lookup_child_Forall2 (Rel : NNModule -> NNModule -> Prop) cs cs' name :
  Forall2 (fun a b => fst a = fst b /\ Rel (snd a) (snd b)) cs cs' ->
  match lookup_child cs name, lookup_child cs' name with
  | Some c, Some c' => Rel c c'
  | None, None => True
  | _, _ => False
  end.
Proof.
  induction 1 as [|[n c] [n' c'] rest rest' [Hn HR] _ IH]; simpl; [exact I|].
  simpl in Hn. subst n'. destruct (String.eqb n name); [exact HR | exact IH].
Qed.

(** ** The Gaussian initialiser on one module *)

Section Gaussian.
Context {RNG : Type}.
Variable normal_ : R -> R -> nat -> RNG -> list R * RNG.
Variables conv_std bn_std : R.

Lemma all_zero_zero_ data : all_zero (zero_ data).
Proof. unfold all_zero, zero_. apply Forall_forall. intros x Hx.
  apply list_elem_of_In, repeat_spec in Hx. congruence. Qed.

Lemma gaussian_weight_init_keeps m g m' g' :
  gaussian_weight_init normal_ conv_std bn_std m g = Ok (m', g') ->
  classname_of m' = classname_of m /\ children_of m' = children_of m.
Proof.
  unfold gaussian_weight_init. destruct m as [cn w b cs]. simpl.
  destruct (str_contains "Conv3d" cn || str_contains "ConvTranspose3d" cn).
  - destruct w; simpl; try discriminate.
    destruct b; simpl; try discriminate; intros [= <- <-]; split; reflexivity.
  - destruct (str_contains "BatchNorm" cn).
    + destruct w; simpl; try discriminate.
      destruct b; simpl; try discriminate; intros [= <- <-]; split; reflexivity.
    + intros [= <- <-]; split; reflexivity.
Qed.

Lemma gaussian_weight_init_post m g m' g' :
  gaussian_weight_init normal_ conv_std bn_std m g = Ok (m', g') ->
  gaussian_initialised m'.
Proof.
  unfold gaussian_weight_init, gaussian_initialised, is_norm, is_conv.
  destruct m as [cn w b cs]. simpl.
  destruct (str_contains "Conv3d" cn || str_contains "ConvTranspose3d" cn) eqn:Hc.
  - destruct w; simpl; try discriminate.
    destruct b; simpl; try discriminate; intros [= <- <-]; simpl; rewrite Hc; simpl;
      (split; [intros _ | discriminate]); (split; [eauto|]).
    + left. reflexivity.
    + right. eexists. split; [reflexivity | apply all_zero_zero_].
  - destruct (str_contains "BatchNorm" cn) eqn:Hn.
    + destruct w; simpl; try discriminate.
      destruct b; simpl; try discriminate; intros [= <- <-]; simpl; rewrite Hc, Hn; simpl.
      split; [discriminate | intros _].
      split; [eauto|]. eexists. split; [reflexivity | apply all_zero_zero_].
    + intros [= <- <-]. simpl. rewrite Hc, Hn. simpl. split; discriminate.
Qed.

Lemma gaussian_weight_init_error m g e :
  gaussian_weight_init normal_ conv_std bn_std m g = Raise e ->
  exists name, e = AttributeError name.
Proof.
  unfold gaussian_weight_init. destruct m as [cn w b cs]. simpl.
  destruct (str_contains "Conv3d" cn || str_contains "ConvTranspose3d" cn).
  - destruct w; simpl; try (intros [= <-]; eauto).
    destruct b; simpl; try discriminate; intros [= <-]; eauto.
  - destruct (str_contains "BatchNorm" cn).
    + destruct w; simpl; try (intros [= <-]; eauto).
      destruct b; simpl; try discriminate; intros [= <-]; eauto.
    + discriminate.
Qed.

(** A normalisation layer built without affine parameters: [weight] is
    [None], and the initialiser stops on [m.weight.data]. *)
Lemma gaussian_weight_init_no_affine cn b cs g :
  is_norm (NNMod cn PyNone b cs) = true ->
  gaussian_weight_init normal_ conv_std bn_std (NNMod cn PyNone b cs) g =
  Raise (AttributeError "data").
Proof.
  unfold is_norm, is_conv, gaussian_weight_init. simpl.
  destruct (str_contains "Conv3d" cn || str_contains "ConvTranspose3d" cn);
    simpl; [discriminate|].
  intros ->. reflexivity.
Qed.

End Gaussian.

(** ** The Gaussian initialiser on a whole network *)

Section GaussianTree.
Context {RNG : Type}.
Variable normal_ : R -> R -> nat -> RNG -> list R * RNG.
Variables conv_std bn_std : R.

Lemma apply_gaussian_inv cn w b cs g m' g' :
  apply (gaussian_weight_init normal_ conv_std bn_std) (NNMod cn w b cs) g = Ok (m', g') ->
  exists cs' g1,
    Forall2 (fun a b =>
               fst a = fst b /\
               exists gi gj,
                 apply (gaussian_weight_init normal_ conv_std bn_std) (snd a) gi =
                 Ok (snd b, gj)) cs cs' /\
    gaussian_weight_init normal_ conv_std bn_std (NNMod cn w b cs') g1 = Ok (m', g').
Proof.
  rewrite apply_unfold. intros H.
  apply bind_Ok_inv in H as ([cs' g1] & Hcs & H). simpl in H.
  exists cs', g1. split; [eapply apply_children_Forall2, Hcs | exact H].
Qed.

(** X1. [net.apply(gaussian_weight_init)] neither adds, removes, renames nor
    reorders modules: when it returns, every attribute path leads to a module
    of the same class as before, or to nothing as before. *)
Theorem gaussian_init_keeps_the_modules : forall m g m' g',
  apply (gaussian_weight_init normal_ conv_std bn_std) m g = Ok (m', g') ->
  forall path, classname_of <$> find m' path = classname_of <$> find m path.
Proof.
  induction m as [cn w b cs IH] using NNModule_tree_ind.
  intros g m' g' H path.
  apply apply_gaussian_inv in H as (cs' & g1 & Hcs & Hfn).
  apply gaussian_weight_init_keeps in Hfn as [Hcn Hch]. simpl in Hcn, Hch.
  destruct path as [|n rest]; simpl; [now rewrite Hcn|].
  rewrite Hch.
  pose proof (lookup_child_Forall2
                  (fun c c' => exists gi gj,
                       apply (gaussian_weight_init normal_ conv_std bn_std) c gi =
                       Ok (c', gj)) cs cs' n Hcs) as Hl.
  destruct (lookup_child cs n) as [c|] eqn:Hc, (lookup_child cs' n) as [c'|];
    try contradiction; [|reflexivity].
  destruct Hl as (gi & gj & Hrun).
  apply lookup_child_In, list_elem_of_In in Hc. rewrite Forall_forall in IH.
  exact (IH _ Hc gi c' gj Hrun rest).
Qed.

(** X2. When [net.apply(gaussian_weight_init)] returns, every module of the
    network whose class name contains [Conv3d] or [ConvTranspose3d] has a
    weight tensor and a bias that is [None] or all zeros, and every other
    module whose class name contains [BatchNorm] has a weight tensor and an
    all-zero bias, however deep it sits in the network. *)
Theorem gaussian_init_zeroes_every_bias : forall m g m' g',
  apply (gaussian_weight_init normal_ conv_std bn_std) m g = Ok (m', g') ->
  forall path c, find m' path = Some c -> gaussian_initialised c.
Proof.
  induction m as [cn w b cs IH] using NNModule_tree_ind.
  intros g m' g' H path c Hfind.
  apply apply_gaussian_inv in H as (cs' & g1 & Hcs & Hfn).
  pose proof (gaussian_weight_init_post _ _ _ _ _ _ _ Hfn) as Hpost.
  apply gaussian_weight_init_keeps in Hfn as [_ Hch]. simpl in Hch.
  destruct path as [|n rest]; simpl in Hfind.
  - inversion Hfind; subst c. exact Hpost.
  - rewrite Hch in Hfind.
    pose proof (lookup_child_Forall2
                  (fun c c' => exists gi gj,
                       apply (gaussian_weight_init normal_ conv_std bn_std) c gi =
                       Ok (c', gj)) cs cs' n Hcs) as Hl.
    destruct (lookup_child cs n) as [c0|] eqn:Hc, (lookup_child cs' n) as [c'|];
      try contradiction; [|discriminate].
    destruct Hl as (gi & gj & Hrun).
    apply lookup_child_In, list_elem_of_In in Hc. rewrite Forall_forall in IH.
    exact (IH _ Hc gi c' gj Hrun rest c Hfind).
Qed.

Lemma apply_gaussian_error : forall m g e,
  apply (gaussian_weight_init normal_ conv_std bn_std) m g = Raise e ->
  exists name, e = AttributeError name.
Proof.
  induction m as [cn w b cs IH] using NNModule_tree_ind.
  intros g e. rewrite apply_unfold. intros H.
  apply bind_Raise_inv in H as [H | ([cs' g1] & _ & H)].
  - clear - IH H. revert g H.
    induction cs as [|[n c] rest IHcs]; simpl; intros g H; [discriminate|].
    inversion IH as [|? ? Hc Hrest]; subst.
    apply bind_Raise_inv in H as [H | ([c1 g1] & _ & H)]; [eapply Hc, H|].
    apply bind_Raise_inv in H as [H | ([r2 g2] & _ & H)]; [|discriminate].
    eapply IHcs; eassumption.
  - eapply gaussian_weight_init_error, H.
Qed.

(** X3. A normalisation layer built without affine parameters (its [weight]
    is [None]) anywhere in the network makes [net.apply(gaussian_weight_init)]
    stop with an [AttributeError], whatever the state of the generator. *)
Theorem gaussian_init_needs_affine_norms : forall path m c,
  find m path = Some c ->
  is_norm c = true -> weight_of c = PyNone ->
  forall g, exists name,
    apply (gaussian_weight_init normal_ conv_std bn_std) m g = Raise (AttributeError name).
Proof.
  assert (Hkind : forall m g,
             (exists e, apply (gaussian_weight_init normal_ conv_std bn_std) m g = Raise e) ->
             exists name,
               apply (gaussian_weight_init normal_ conv_std bn_std) m g =
               Raise (AttributeError name)).
  { intros m g [e He]. destruct (apply_gaussian_error _ _ _ He) as [name ->]. eauto. }
  induction path as [|n rest IH]; intros m c Hfind Hnorm Hw g; apply Hkind.
  - simpl in Hfind. inversion Hfind; subst c. destruct m as [cn w b cs].
    simpl in Hw. subst w. rewrite apply_unfold.
    destruct (apply_children _ cs g) as [[cs' g1]|e]; simpl; [|eauto].
    eexists. apply gaussian_weight_init_no_affine. exact Hnorm.
  - simpl in Hfind. destruct m as [cn w b cs]. simpl in Hfind.
    destruct (lookup_child cs n) as [c0|] eqn:Hc0; [|discriminate].
    rewrite apply_unfold.
    assert (Hchild : forall g0, exists e,
               apply (gaussian_weight_init normal_ conv_std bn_std) c0 g0 = Raise e).
    { intros g0. destruct (IH c0 c Hfind Hnorm Hw g0) as [name ->]. eauto. }
    destruct (apply_children_raises
                (apply (gaussian_weight_init normal_ conv_std bn_std))
                cs n c0 Hc0 Hchild g) as [e ->].
    simpl. eauto.
Qed.

End GaussianTree.

Lemma gaussian_init_keeps_the_modules_witness :
  classname_of <$> find tiny_net_gaussian ["out_block"; "bn1"] = Some "BatchNorm3d" /\
  classname_of <$> find tiny_net_gaussian ["out_block"; "fc"] = None.
Proof.
  pose proof (gaussian_init_keeps_the_modules mean_sampler (1 / 100)%R (1 / 100)%R
                tiny_net tt tiny_net_gaussian tt eq_refl) as H.
  split; rewrite H; reflexivity.
Defined.

Lemma gaussian_init_zeroes_every_bias_witness :
  gaussian_initialised (NNMod "BatchNorm3d" (Param [1; 1]%R) (Param [0; 0]%R) []).
Proof.
  apply (gaussian_init_zeroes_every_bias mean_sampler (1 / 100)%R (1 / 100)%R
           tiny_net tt tiny_net_gaussian tt eq_refl ["out_block"; "bn1"]).
  reflexivity.
Defined.

Lemma gaussian_init_needs_affine_norms_witness :
  exists name,
    apply (gaussian_weight_init mean_sampler (1 / 100)%R (1 / 100)%R)
      (NNMod "Net" Missing Missing
         [("conv", NNMod "Conv3d" (Param [3]%R) PyNone []);
          ("bn", NNMod "BatchNorm3d" PyNone PyNone [])]) tt =
    Raise (AttributeError name).
Proof.
  apply (gaussian_init_needs_affine_norms mean_sampler (1 / 100)%R (1 / 100)%R
           ["bn"] _ (NNMod "BatchNorm3d" PyNone PyNone [])); reflexivity.
Defined.

(** ** Layers on tensors that fit *)

Lemma apply_conv_ok c x :
  chans (shape x) = conv_in c ->
  conv_kernel c <= depth (shape x) + 2 * conv_padding c ->
  conv_kernel c <= height (shape x) + 2 * conv_padding c ->
  conv_kernel c <= width (shape x) + 2 * conv_padding c ->
  apply_conv c x =
  Ok (mkTensor
        (mkShape (batch (shape x)) (conv_out c) (conv_extent c (depth (shape x)))
                 (conv_extent c (height (shape x))) (conv_extent c (width (shape x))))
        (TConv c (expr x))).
Proof.
  intros Hc Hd Hh Hw. unfold apply_conv, fits.
  rewrite Hc, Z.eqb_refl. simpl.
  rewrite !(proj2 (Z.leb_le _ _)) by assumption. reflexivity.
Qed.

Lemma apply_convT_ok c x :
  chans (shape x) = convT_in c ->
  apply_convT c x =
  Ok (mkTensor
        (mkShape (batch (shape x)) (convT_out c) (convT_extent c (depth (shape x)))
                 (convT_extent c (height (shape x))) (convT_extent c (width (shape x))))
        (TConvT c (expr x))).
Proof. intros Hc. unfold apply_convT. rewrite Hc, Z.eqb_refl. reflexivity. Qed.

Lemma apply_norm_ok b x :
  chans (shape x) = num_features b -> normalisable (shape x) ->
  apply_norm b x = Ok (mkTensor (shape x) (TNorm b (expr x))).
Proof.
  intros Hc Hn. unfold apply_norm. rewrite Hc, Z.eqb_refl. simpl.
  destruct (Z.eqb_spec (batch (shape x) * (depth (shape x) * height (shape x) * width (shape x))) 1)
    as [E|_]; [|reflexivity].
  exfalso. apply Hn. rewrite <- E. ring.
Qed.

Lemma Shape_eqb_refl s : Shape_eqb s s = true.
Proof. unfold Shape_eqb. now rewrite !Z.eqb_refl. Qed.

Lemma add_ok a b :
  shape a = shape b -> add a b = Ok (mkTensor (shape a) (TAdd (expr a) (expr b))).
Proof. intros E. unfold add. rewrite <- E, Shape_eqb_refl. reflexivity. Qed.

Lemma cat1_ok a b :
  batch (shape a) = batch (shape b) -> depth (shape a) = depth (shape b) ->
  height (shape a) = height (shape b) -> width (shape a) = width (shape b) ->
  cat1 a b =
  Ok (mkTensor (mkShape (batch (shape a)) (chans (shape a) + chans (shape b))
                        (depth (shape a)) (height (shape a)) (width (shape a)))
               (TCat 1 (expr a) (expr b))).
Proof.
  intros Hb Hd Hh Hw. unfold cat1. rewrite Hb, Hd, Hh, Hw, !Z.eqb_refl. reflexivity.
Qed.

Lemma normalisable_chans c s : normalisable s -> normalisable (with_chans c s).
Proof. exact (fun H => H). Qed.

Lemma normalisable_doubled c s : normalisable (doubled c s).
Proof.
  unfold normalisable, doubled. simpl. intros H.
  assert (E : 8 * (batch s * (depth s * height s * width s)) = 1) by (rewrite <- H; ring).
  lia.
Qed.

Lemma halved_doubled c c' s : halved c (doubled c' s) = with_chans c s.
Proof.
  unfold halved, doubled, with_chans. simpl.
  rewrite !(Z.mul_comm 2), !Z.div_mul by lia. reflexivity.
Qed.

Lemma with_chans_id s : with_chans (chans s) s = s.
Proof. destruct s; reflexivity. Qed.

(** A convolution with kernel 3, padding 1 and stride 1, and one with kernel
    1, keep the extents; one with kernel 2 and stride 2 halves them. *)
Lemma conv_extent_3 i o n : conv_extent (mkConv3d i o 3 1 1) n = n.
Proof.
  unfold conv_extent. cbn [conv_padding conv_kernel conv_stride].
  rewrite Z.div_1_r. lia.
Qed.

Lemma conv_extent_1 i o n : conv_extent (mkConv3d i o 1 1 0) n = n.
Proof.
  unfold conv_extent. cbn [conv_padding conv_kernel conv_stride].
  rewrite Z.div_1_r. lia.
Qed.

Lemma conv_extent_2 i o n : conv_extent (mkConv3d i o 2 2 0) n = n / 2.
Proof.
  unfold conv_extent. cbn [conv_padding conv_kernel conv_stride].
  replace (n + 2 * 0 - 2) with (n + (-1) * 2) by lia. rewrite Z.div_add by lia. lia.
Qed.

(** ** The convolution blocks *)

Ltac layer_side :=
  cbn [shape expr apply_act chans batch depth height width num_features conv_in conv_out
       conv_kernel conv_padding conv_stride convT_in convT_out];
  first [ assumption | reflexivity | lia ].

Ltac shape_cbn :=
  cbn [mbind result_bind shape expr apply_act apply_drop apply_softmax
       batch chans depth height width conv_out convT_out].

Lemma LUConv_forward_ok nchan elu act x :
  chans (shape x) = nchan -> extents_at_least 1 (shape x) -> normalisable (shape x) ->
  exists y, LUConv_forward (LUConv_init nchan elu act) x = Ok y /\
            shape y = shape x /\ same_observers x y.
Proof.
  intros Hc (Hd & Hh & Hw) Hn.
  assert (Es : mkShape (batch (shape x)) nchan (depth (shape x)) (height (shape x))
                 (width (shape x)) = shape x) by (subst nchan; now destruct (shape x)).
  unfold LUConv_forward, LUConv_init. cbn [lu_act lu_conv1 lu_bn1 lu_relu1].
  rewrite apply_conv_ok by layer_side.
  shape_cbn. rewrite !conv_extent_3, Es.
  destruct act; shape_cbn;
    rewrite apply_norm_ok by layer_side; shape_cbn;
    eexists; (split; [reflexivity|]); (split; [reflexivity|]); split; reflexivity.
Qed.

Lemma LUConv_bottle_forward_ok nchan elu act x :
  chans (shape x) = nchan -> extents_at_least 1 (shape x) -> normalisable (shape x) ->
  exists y, LUConv_bottle_forward (LUConv_bottle_init nchan elu act) x = Ok y /\
            shape y = shape x /\ same_observers x y.
Proof.
  intros Hc (Hd & Hh & Hw) Hn.
  assert (Es : mkShape (batch (shape x)) nchan (depth (shape x)) (height (shape x))
                 (width (shape x)) = shape x) by (subst nchan; now destruct (shape x)).
  assert (Hn4 : normalisable (mkShape (batch (shape x)) (nchan / 4) (depth (shape x))
                                (height (shape x)) (width (shape x)))) by exact Hn.
  unfold LUConv_bottle_forward, LUConv_bottle_init.
  cbn [lb_act lb_conv1 lb_bn1 lb_relu1 lb_conv2 lb_bn2 lb_relu2 lb_conv3 lb_bn3 lb_relu3].
  rewrite apply_conv_ok by layer_side.
  shape_cbn. rewrite !conv_extent_1.
  rewrite apply_norm_ok by layer_side. shape_cbn.
  rewrite apply_conv_ok by layer_side.
  shape_cbn. rewrite !conv_extent_3.
  rewrite apply_norm_ok by layer_side. shape_cbn.
  destruct act;
    rewrite apply_conv_ok by layer_side;
    shape_cbn; rewrite !conv_extent_1, Es;
    rewrite apply_norm_ok by layer_side; shape_cbn;
    eexists; (split; [reflexivity|]); (split; [reflexivity|]); split; reflexivity.
Qed.

Lemma a_block_forward_ok nchan elu use_bottle act x :
  chans (shape x) = nchan -> extents_at_least 1 (shape x) -> normalisable (shape x) ->
  exists y, ConvBlock_forward (a_block nchan elu use_bottle act) x = Ok y /\
            shape y = shape x /\ same_observers x y.
Proof.
  intros. unfold a_block. destruct use_bottle; simpl;
    [apply LUConv_bottle_forward_ok | apply LUConv_forward_ok]; assumption.
Qed.

Lemma blocks_forward_ok nchan elu use_bottle (acts : list bool) : forall x,
  chans (shape x) = nchan -> extents_at_least 1 (shape x) -> normalisable (shape x) ->
  exists y, Sequential_forward (map (a_block nchan elu use_bottle) acts) x = Ok y /\
            shape y = shape x /\ same_observers x y.
Proof.
  induction acts as [|act rest IH]; intros x Hc He Hn; simpl.
  - exists x. split; [reflexivity|]. split; [reflexivity | apply same_observers_refl].
  - destruct (a_block_forward_ok nchan elu use_bottle act x Hc He Hn)
      as (y & -> & Hs & Ho). simpl.
    destruct (IH y) as (z & Hz & Hsz & Hoz); try (rewrite Hs; assumption).
    exists z. split; [exact Hz|]. split; [congruence|].
    eapply same_observers_trans; eassumption.
Qed.

Lemma make_nConv_blocks nchan depth elu use_bottle :
  exists acts, _make_nConv nchan depth elu use_bottle = map (a_block nchan elu use_bottle) acts.
Proof.
  rewrite make_nConv_map.
  exists (map (fun i => negb (i =? depth - 1)) (range depth)).
  now rewrite map_map.
Qed.

(** X4. A block stack built by [_make_nConv], of either variant and of any
    depth, over a channel count that gives each of its convolutions at least
    one channel, returns on every tensor that has [nchan] channels, extents
    of at least 1 and more than one value per channel, and returns a tensor
    of the shape of its input; no dropout and no transposed convolution is
    applied on the way. *)
Theorem block_stack_keeps_the_shape (nchan depth : Z) (elu use_bottle : bool) (x : Tensor) :
  buildable use_bottle nchan ->
  chans (shape x) = nchan ->
  extents_at_least 1 (shape x) ->
  normalisable (shape x) ->
  exists y,
    Sequential_forward (_make_nConv nchan depth elu use_bottle) x = Ok y /\
    shape y = shape x /\
    dropout_inputs (expr y) = dropout_inputs (expr x) /\
    convT_inputs (expr y) = convT_inputs (expr x).
Proof.
  intros _ Hc He Hn.
  destruct (make_nConv_blocks nchan depth elu use_bottle) as [acts ->].
  destruct (blocks_forward_ok nchan elu use_bottle acts x Hc He Hn)
    as (y & Hy & Hs & Hd & Ht).
  exists y. auto.
Qed.

Lemma block_stack_keeps_the_shape_witness :
  exists y,
    Sequential_forward (_make_nConv 64 3 false true)
      (mkTensor (mkShape 1 64 2 3 4) (TInput "x")) = Ok y /\
    shape y = mkShape 1 64 2 3 4.
Proof.
  destruct (block_stack_keeps_the_shape 64 3 false true
              (mkTensor (mkShape 1 64 2 3 4) (TInput "x")))
    as (y & Hy & Hs & _).
  - unfold buildable. change (64 / 4) with 16. lia.
  - reflexivity.
  - unfold extents_at_least. simpl. lia.
  - unfold normalisable. simpl. lia.
  - exists y. split; [exact Hy | exact Hs].
Defined.

Lemma apply_conv_wrong_channels c x :
  chans (shape x) <> conv_in c ->
  apply_conv c x = Raise (RuntimeError "input channels do not match the weight").
Proof.
  intros Hc. unfold apply_conv.
  destruct (Z.eqb_spec (chans (shape x)) (conv_in c)); [contradiction | reflexivity].
Qed.

Lemma a_block_wrong_channels nchan elu use_bottle act x :
  chans (shape x) <> nchan ->
  ConvBlock_forward (a_block nchan elu use_bottle act) x =
  Raise (RuntimeError "input channels do not match the weight").
Proof.
  intros Hc. unfold a_block.
  destruct use_bottle; cbn [ConvBlock_forward].
  - unfold LUConv_bottle_forward, LUConv_bottle_init. cbn [lb_conv1].
    rewrite apply_conv_wrong_channels by exact Hc. reflexivity.
  - unfold LUConv_forward, LUConv_init. cbn [lu_act lu_conv1].
    rewrite apply_conv_wrong_channels by exact Hc. destruct act; reflexivity.
Qed.

(** X5. A block stack of depth at least 1 on a tensor whose channel count is
    not [nchan] raises the error of its first convolution; nothing is
    broadcast or truncated. *)
Theorem block_stack_rejects_other_widths
    (nchan depth : Z) (elu use_bottle : bool) (x : Tensor) :
  buildable use_bottle nchan ->
  1 <= depth ->
  chans (shape x) <> nchan ->
  Sequential_forward (_make_nConv nchan depth elu use_bottle) x =
  Raise (RuntimeError "input channels do not match the weight").
Proof.
  intros _ Hd Hc. rewrite make_nConv_map. unfold range.
  replace (Z.to_nat depth) with (S (Z.to_nat (depth - 1))) by lia.
  cbn [seq map Sequential_forward].
  rewrite a_block_wrong_channels by exact Hc. reflexivity.
Qed.

Lemma block_stack_rejects_other_widths_witness :
  Sequential_forward (_make_nConv 64 3 false true)
    (mkTensor (mkShape 1 32 2 3 4) (TInput "x")) =
  Raise (RuntimeError "input channels do not match the weight").
Proof.
  apply block_stack_rejects_other_widths;
    [unfold buildable; change (64 / 4) with 16; lia | lia | simpl; lia].
Defined.

(** ** The stages on tensors that fit *)

Lemma halved_extents c s :
  extents_at_least 2 s -> extents_at_least 1 (halved c s).
Proof.
  unfold extents_at_least, halved. simpl. intros (Hd & Hh & Hw).
  repeat split; apply Z.div_le_lower_bound; lia.
Qed.

Lemma doubled_extents c s :
  extents_at_least 1 s -> extents_at_least 1 (doubled c s).
Proof. unfold extents_at_least, doubled. simpl. lia. Qed.

Lemma PreBlock_forward_ok cin cout elu x :
  chans (shape x) = cin -> extents_at_least 2 (shape x) ->
  normalisable (halved cout (shape x)) ->
  exists y, PreBlock_forward (PreBlock_init cin cout elu) x = Ok y /\
            shape y = halved cout (shape x).
Proof.
  intros Hc (Hd & Hh & Hw) Hn.
  unfold PreBlock_forward, PreBlock_init. cbn [pre_conv pre_bn pre_act].
  rewrite apply_conv_ok by layer_side. shape_cbn. rewrite !conv_extent_2.
  rewrite apply_norm_ok by (shape_cbn; first [reflexivity | exact Hn]). shape_cbn.
  eexists. split; reflexivity.
Qed.

Lemma InputTransition_forward_ok inChans elu x :
  chans (shape x) = inChans -> extents_at_least 1 (shape x) -> normalisable (shape x) ->
  exists y, InputTransition_forward (InputTransition_init inChans elu) x = Ok y /\
            shape y = with_chans 16 (shape x).
Proof.
  intros Hc (Hd & Hh & Hw) Hn.
  unfold InputTransition_forward, InputTransition_init. cbn [it_conv1 it_bn1 it_relu1].
  rewrite apply_conv_ok by layer_side. shape_cbn. rewrite !conv_extent_3.
  rewrite apply_norm_ok by (shape_cbn; first [reflexivity | exact Hn]). shape_cbn.
  eexists. split; reflexivity.
Qed.

Lemma DownTransition_forward_ok inChans nConvs elu dropout use_bottle x :
  chans (shape x) = inChans -> extents_at_least 2 (shape x) ->
  normalisable (halved (2 * inChans) (shape x)) ->
  exists y,
    DownTransition_forward (DownTransition_init inChans nConvs elu dropout use_bottle) x
    = Ok y /\
    shape y = halved (2 * inChans) (shape x) /\
    dropout_inputs (expr y) = dropout_inputs (expr x) ++ dropout_inputs (expr x).
Proof.
  intros Hc He Hn. pose proof He as (Hd & Hh & Hw).
  unfold DownTransition_forward, DownTransition_init.
  cbn [dt_down_conv dt_bn1 dt_do1 dt_relu1 dt_relu2 dt_ops].
  rewrite apply_conv_ok by layer_side. shape_cbn. rewrite !conv_extent_2.
  fold (halved (2 * inChans) (shape x)).
  rewrite apply_norm_ok by (shape_cbn; first [reflexivity | exact Hn]). shape_cbn.
  match goal with
  | |- context [Sequential_forward _ ?t] => set (down := t)
  end.
  destruct (make_nConv_blocks (2 * inChans) nConvs elu use_bottle) as [acts ->].
  destruct (blocks_forward_ok (2 * inChans) elu use_bottle acts down)
    as (out & -> & Hs & Hdr & _).
  - reflexivity.
  - apply halved_extents, He.
  - exact Hn.
  - shape_cbn. rewrite add_ok by exact Hs. shape_cbn.
    eexists. split; [reflexivity|]. split; [exact Hs|].
    cbn [apply_act expr dropout_inputs]. rewrite Hdr. reflexivity.
Qed.

Lemma UpTransition_forward_ok inChans outChans nConvs elu dropout use_bottle x skipx :
  chans (shape x) = inChans ->
  shape skipx = doubled (chans (shape skipx)) (shape x) ->
  outChans / 2 + chans (shape skipx) = outChans ->
  extents_at_least 1 (shape x) ->
  exists y,
    UpTransition_forward (UpTransition_init inChans outChans nConvs elu dropout use_bottle)
      x skipx = Ok y /\
    shape y = doubled outChans (shape x).
Proof.
  intros Hc Hskip Hsum He.
  unfold UpTransition_forward, UpTransition_init.
  cbn [ut_up_conv ut_bn1 ut_do1 ut_do2 ut_relu1 ut_relu2 ut_ops].
  shape_cbn. rewrite apply_convT_ok by layer_side. shape_cbn.
  unfold convT_extent. cbn [convT_stride convT_kernel].
  replace ((depth (shape x) - 1) * 2 + 2) with (2 * depth (shape x)) by lia.
  replace ((height (shape x) - 1) * 2 + 2) with (2 * height (shape x)) by lia.
  replace ((width (shape x) - 1) * 2 + 2) with (2 * width (shape x)) by lia.
  fold (doubled (outChans / 2) (shape x)).
  rewrite apply_norm_ok
    by (shape_cbn; first [reflexivity | apply normalisable_doubled]).
  shape_cbn.
  rewrite cat1_ok by (shape_cbn; rewrite Hskip; reflexivity).
  shape_cbn. cbn [doubled batch chans depth height width].
  rewrite Hsum. fold (doubled outChans (shape x)).
  match goal with
  | |- context [Sequential_forward _ ?t] => set (xcat := t)
  end.
  destruct (make_nConv_blocks outChans nConvs elu use_bottle) as [acts ->].
  destruct (blocks_forward_ok outChans elu use_bottle acts xcat)
    as (out & -> & Hs & _).
  - reflexivity.
  - apply doubled_extents, He.
  - apply normalisable_doubled.
  - shape_cbn. rewrite add_ok by exact Hs. shape_cbn.
    eexists. split; [reflexivity | exact Hs].
Qed.

Lemma OutputTransition_forward_ok inChans outChans elu x :
  chans (shape x) = inChans -> extents_at_least 1 (shape x) -> normalisable (shape x) ->
  exists body,
    OutputTransition_forward (OutputTransition_init inChans outChans elu) x =
    Ok (mkTensor (with_chans outChans (shape x)) (TSoftmax 1 body)).
Proof.
  intros Hc (Hd & Hh & Hw) Hn.
  unfold OutputTransition_forward, OutputTransition_init.
  cbn [ot_conv1 ot_bn1 ot_conv2 ot_relu1 ot_softmax_dim].
  rewrite apply_conv_ok by layer_side. shape_cbn. rewrite !conv_extent_3.
  rewrite apply_norm_ok by (shape_cbn; first [reflexivity | exact Hn]). shape_cbn.
  rewrite apply_conv_ok by layer_side. shape_cbn. rewrite !conv_extent_1.
  eexists. reflexivity.
Qed.

Lemma PostBlock_forward_ok in_channels out_channels elu x skip :
  chans (shape x) = in_channels ->
  shape skip = doubled (chans (shape skip)) (shape x) ->
  exists y,
    PostBlock_forward (PostBlock_init in_channels out_channels elu) x skip = Ok y /\
    shape y = doubled (out_channels + chans (shape skip)) (shape x).
Proof.
  intros Hc Hskip.
  unfold PostBlock_forward, PostBlock_init. cbn [post_up_conv post_up_bn post_up_act].
  rewrite apply_convT_ok by layer_side. shape_cbn.
  unfold convT_extent. cbn [convT_stride convT_kernel].
  replace ((depth (shape x) - 1) * 2 + 2) with (2 * depth (shape x)) by lia.
  replace ((height (shape x) - 1) * 2 + 2) with (2 * height (shape x)) by lia.
  replace ((width (shape x) - 1) * 2 + 2) with (2 * width (shape x)) by lia.
  fold (doubled out_channels (shape x)).
  rewrite apply_norm_ok
    by (shape_cbn; first [reflexivity | apply normalisable_doubled]).
  shape_cbn.
  rewrite cat1_ok by (shape_cbn; rewrite Hskip; reflexivity).
  shape_cbn. cbn [doubled batch chans depth height width].
  eexists. split; reflexivity.
Qed.

(** ** What a stage that returned has checked *)

Lemma apply_conv_inv c x y :
  apply_conv c x = Ok y ->
  chans (shape x) = conv_in c /\
  (conv_kernel c <= depth (shape x) + 2 * conv_padding c /\
   conv_kernel c <= height (shape x) + 2 * conv_padding c /\
   conv_kernel c <= width (shape x) + 2 * conv_padding c) /\
  y = mkTensor
        (mkShape (batch (shape x)) (conv_out c) (conv_extent c (depth (shape x)))
                 (conv_extent c (height (shape x))) (conv_extent c (width (shape x))))
        (TConv c (expr x)).
Proof.
  unfold apply_conv, fits.
  destruct (chans (shape x) =? conv_in c) eqn:Hc; simpl; [|discriminate].
  destruct (conv_kernel c <=? depth (shape x) + 2 * conv_padding c) eqn:Hd;
    simpl; [|discriminate].
  destruct (conv_kernel c <=? height (shape x) + 2 * conv_padding c) eqn:Hh;
    simpl; [|discriminate].
  destruct (conv_kernel c <=? width (shape x) + 2 * conv_padding c) eqn:Hw;
    simpl; [|discriminate].
  intros [= <-]. repeat split; lia.
Qed.

Lemma apply_convT_inv c x y :
  apply_convT c x = Ok y ->
  chans (shape x) = convT_in c /\
  y = mkTensor
        (mkShape (batch (shape x)) (convT_out c) (convT_extent c (depth (shape x)))
                 (convT_extent c (height (shape x))) (convT_extent c (width (shape x))))
        (TConvT c (expr x)).
Proof.
  unfold apply_convT.
  destruct (chans (shape x) =? convT_in c) eqn:Hc; simpl; [|discriminate].
  intros [= <-]. split; [lia | reflexivity].
Qed.

Lemma apply_norm_inv b x y :
  apply_norm b x = Ok y ->
  chans (shape x) = num_features b /\ normalisable (shape x) /\
  y = mkTensor (shape x) (TNorm b (expr x)).
Proof.
  unfold apply_norm, normalisable.
  destruct (chans (shape x) =? num_features b) eqn:Hc; simpl; [|discriminate].
  destruct (batch (shape x) * (depth (shape x) * height (shape x) * width (shape x)) =? 1)
    eqn:Hn; [discriminate|].
  intros [= <-]. repeat split; lia.
Qed.

Lemma cat1_inv a b y :
  cat1 a b = Ok y ->
  batch (shape a) = batch (shape b) /\ depth (shape a) = depth (shape b) /\
  height (shape a) = height (shape b) /\ width (shape a) = width (shape b) /\
  y = mkTensor (mkShape (batch (shape a)) (chans (shape a) + chans (shape b))
                        (depth (shape a)) (height (shape a)) (width (shape a)))
               (TCat 1 (expr a) (expr b)).
Proof.
  unfold cat1. case_match eqn:Hc; [|discriminate]. intros [= <-].
  repeat (apply andb_prop in Hc as [Hc ?]). repeat split; lia.
Qed.

Lemma a_block_forward_inv nchan elu use_bottle act x y :
  ConvBlock_forward (a_block nchan elu use_bottle act) x = Ok y ->
  chans (shape x) = nchan /\ extents_at_least 1 (shape x).
Proof.
  unfold a_block, extents_at_least. destruct use_bottle; simpl.
  - unfold LUConv_bottle_forward. simpl. intros H.
    apply bind_Ok_inv in H as (c1 & Hc1 & _).
    apply apply_conv_inv in Hc1 as (Hc & (Hd & Hh & Hw) & _). simpl in *.
    repeat split; lia.
  - unfold LUConv_forward. simpl. intros H.
    assert (exists c1, apply_conv (mkConv3d nchan nchan 3 1 1) x = Ok c1) as [c1 Hc1].
    { destruct act; apply bind_Ok_inv in H as (c1 & Hc1 & _); eauto. }
    apply apply_conv_inv in Hc1 as (Hc & (Hd & Hh & Hw) & _). simpl in *.
    repeat split; lia.
Qed.

Lemma block_stack_inv nchan depth elu use_bottle x y :
  1 <= depth ->
  Sequential_forward (_make_nConv nchan depth elu use_bottle) x = Ok y ->
  chans (shape x) = nchan /\ extents_at_least 1 (shape x).
Proof.
  intros Hd. rewrite make_nConv_map. unfold range.
  replace (Z.to_nat depth) with (S (Z.to_nat (depth - 1))) by lia.
  cbn [seq map Sequential_forward]. intros H.
  apply bind_Ok_inv in H as (y1 & H1 & _).
  eapply a_block_forward_inv, H1.
Qed.

Lemma PreBlock_forward_inv cin cout elu x y :
  PreBlock_forward (PreBlock_init cin cout elu) x = Ok y ->
  chans (shape x) = cin /\ extents_at_least 2 (shape x) /\
  normalisable (halved cout (shape x)) /\ shape y = halved cout (shape x).
Proof.
  unfold PreBlock_forward, PreBlock_init. cbn [pre_conv pre_bn pre_act]. intros H.
  apply bind_Ok_inv in H as (c1 & Hc1 & H).
  apply bind_Ok_inv in H as (n1 & Hn1 & H).
  apply apply_conv_inv in Hc1 as (Hc & (Hd & Hh & Hw) & ->).
  apply apply_norm_inv in Hn1 as (_ & Hn & ->).
  inversion H; subst y; clear H. simpl in *.
  rewrite !conv_extent_2 in *. unfold extents_at_least.
  repeat split; first [lia | exact Hn].
Qed.

Lemma InputTransition_forward_inv inChans elu x y :
  InputTransition_forward (InputTransition_init inChans elu) x = Ok y ->
  chans (shape x) = inChans /\ extents_at_least 1 (shape x) /\
  normalisable (shape x) /\ shape y = with_chans 16 (shape x).
Proof.
  unfold InputTransition_forward, InputTransition_init.
  cbn [it_conv1 it_bn1 it_relu1]. intros H.
  apply bind_Ok_inv in H as (c1 & Hc1 & H).
  apply bind_Ok_inv in H as (n1 & Hn1 & H).
  apply apply_conv_inv in Hc1 as (Hc & (Hd & Hh & Hw) & ->).
  apply apply_norm_inv in Hn1 as (_ & Hn & ->).
  inversion H; subst y; clear H. simpl in *.
  rewrite !conv_extent_3 in *. unfold extents_at_least.
  repeat split; first [lia | exact Hn].
Qed.

Lemma DownTransition_forward_inv inChans nConvs elu dropout use_bottle x y :
  DownTransition_forward (DownTransition_init inChans nConvs elu dropout use_bottle) x
  = Ok y ->
  chans (shape x) = inChans /\ extents_at_least 2 (shape x) /\
  normalisable (halved (2 * inChans) (shape x)) /\
  shape y = halved (2 * inChans) (shape x).
Proof.
  unfold DownTransition_forward, DownTransition_init.
  cbn [dt_down_conv dt_bn1 dt_do1 dt_relu1 dt_relu2 dt_ops]. intros H.
  apply bind_Ok_inv in H as (c1 & Hc1 & H).
  apply bind_Ok_inv in H as (n1 & Hn1 & H).
  apply bind_Ok_inv in H as (body & _ & H).
  apply bind_Ok_inv in H as (sum & Hsum & H).
  apply apply_conv_inv in Hc1 as (Hc & (Hd & Hh & Hw) & ->).
  apply apply_norm_inv in Hn1 as (_ & Hn & ->).
  apply add_shape in Hsum as [Hs _].
  inversion H; subst y; clear H. simpl in *.
  rewrite !conv_extent_2 in *. unfold extents_at_least.
  repeat split; first [lia | exact Hn | exact Hs].
Qed.

Lemma OutputTransition_forward_inv inChans outChans elu x y :
  OutputTransition_forward (OutputTransition_init inChans outChans elu) x = Ok y ->
  chans (shape x) = inChans /\ extents_at_least 1 (shape x) /\ normalisable (shape x).
Proof.
  unfold OutputTransition_forward, OutputTransition_init.
  cbn [ot_conv1 ot_bn1 ot_conv2 ot_relu1 ot_softmax_dim]. intros H.
  apply bind_Ok_inv in H as (c1 & Hc1 & H).
  apply bind_Ok_inv in H as (n1 & Hn1 & _).
  apply apply_conv_inv in Hc1 as (Hc & (Hd & Hh & Hw) & ->).
  apply apply_norm_inv in Hn1 as (_ & Hn & _).
  simpl in *. rewrite !conv_extent_3 in *. unfold extents_at_least.
  repeat split; first [lia | exact Hn].
Qed.

Lemma UpTransition_forward_inv inChans outChans nConvs elu dropout use_bottle x skipx y :
  1 <= nConvs ->
  UpTransition_forward (UpTransition_init inChans outChans nConvs elu dropout use_bottle)
    x skipx = Ok y ->
  chans (shape x) = inChans /\
  shape skipx = doubled (chans (shape skipx)) (shape x) /\
  outChans / 2 + chans (shape skipx) = outChans /\
  extents_at_least 1 (shape x).
Proof.
  intros Hn.
  unfold UpTransition_forward, UpTransition_init.
  cbn [ut_up_conv ut_bn1 ut_do1 ut_do2 ut_relu1 ut_relu2 ut_ops]. intros H.
  apply bind_Ok_inv in H as (up & Hup & H).
  apply bind_Ok_inv in H as (nrm & Hnrm & H).
  apply bind_Ok_inv in H as (xcat & Hcat & H).
  apply bind_Ok_inv in H as (body & Hops & _).
  apply apply_convT_inv in Hup as (Hc & ->).
  apply apply_norm_inv in Hnrm as (_ & _ & ->).
  apply cat1_inv in Hcat as (Hb & Hd & Hh & Hw & ->).
  apply (block_stack_inv _ _ _ _ _ _ Hn) in Hops as (Hch & He1 & He2 & He3).
  unfold convT_extent in *. simpl in *.
  split; [exact Hc|]. split; [|split; [exact Hch|]].
  - unfold doubled. destruct (shape skipx); simpl in *. f_equal; lia.
  - unfold extents_at_least. lia.
Qed.

(** ** The inputs each stage accepts *)

(** X6. A [DownTransition] returns on exactly the tensors that have
    [inChans] channels, extents of at least 2 and, once the extents are
    halved, more than one value per channel.  What it returns has
    [2 * inChans] channels and the halved extents (rounded down), and no
    dropout has been applied on the way, whatever the [dropout] flag: the
    only dropout nodes of the result are those of the input, which reaches
    the sum once through the block stack and once directly. *)
Theorem DownTransition_accepts_exactly
    (inChans nConvs : Z) (elu dropout use_bottle : bool) (x : Tensor) :
  1 <= inChans ->
  buildable use_bottle (2 * inChans) ->
  ((exists y,
       DownTransition_forward (DownTransition_init inChans nConvs elu dropout use_bottle) x
       = Ok y) <->
   chans (shape x) = inChans /\ extents_at_least 2 (shape x) /\
   normalisable (halved (2 * inChans) (shape x))) /\
  (forall y,
      DownTransition_forward (DownTransition_init inChans nConvs elu dropout use_bottle) x
      = Ok y ->
      shape y = halved (2 * inChans) (shape x) /\
      dropout_inputs (expr y) = dropout_inputs (expr x) ++ dropout_inputs (expr x)).
Proof.
  intros _ _. split; [split|].
  - intros [y Hy]. apply DownTransition_forward_inv in Hy as (Hc & He & Hn & _). auto.
  - intros (Hc & He & Hn).
    destruct (DownTransition_forward_ok inChans nConvs elu dropout use_bottle x Hc He Hn)
      as (y & Hy & _). eauto.
  - intros y Hy. pose proof Hy as Hinv.
    apply DownTransition_forward_inv in Hinv as (Hc & He & Hn & _).
    destruct (DownTransition_forward_ok inChans nConvs elu dropout use_bottle x Hc He Hn)
      as (y' & Hy' & Hs & Hd).
    rewrite Hy in Hy'. inversion Hy'; subst y'. auto.
Qed.

Lemma DownTransition_accepts_exactly_witness :
  (exists y,
      DownTransition_forward (DownTransition_init 64 4 false true true)
        (mkTensor (mkShape 1 64 5 4 4) (TInput "x")) = Ok y) /\
  ~ (exists y,
        DownTransition_forward (DownTransition_init 64 4 false true true)
          (mkTensor (mkShape 1 64 2 2 2) (TInput "x")) = Ok y).
Proof.
  split.
  - apply (DownTransition_accepts_exactly 64 4 false true true);
      [lia | unfold buildable; change (2 * 64 / 4) with 32; lia |].
    unfold extents_at_least, normalisable. simpl.
    change (5 / 2) with 2. change (4 / 2) with 2. repeat split; lia.
  - intros H.
    apply (DownTransition_accepts_exactly 64 4 false true true) in H;
      [| lia | unfold buildable; change (2 * 64 / 4) with 32; lia].
    destruct H as (_ & _ & Hn). apply Hn. reflexivity.
Defined.

(** X7. An [UpTransition] with at least one block returns on exactly the
    pairs [(x, skipx)] where [x] has [inChans] channels and extents of at
    least 1, [skipx] has the batch size of [x] and twice its extents, and the
    channels of [skipx] fill [outChans // 2] up to [outChans].  What it
    returns has [outChans] channels and twice the extents of [x]. *)
Theorem UpTransition_accepts_exactly
    (inChans outChans nConvs : Z) (elu dropout use_bottle : bool) (x skipx : Tensor) :
  1 <= inChans -> 1 <= outChans / 2 -> buildable use_bottle outChans ->
  1 <= nConvs ->
  ((exists y,
       UpTransition_forward
         (UpTransition_init inChans outChans nConvs elu dropout use_bottle) x skipx
       = Ok y) <->
   chans (shape x) = inChans /\
   shape skipx = doubled (chans (shape skipx)) (shape x) /\
   outChans / 2 + chans (shape skipx) = outChans /\
   extents_at_least 1 (shape x)) /\
  (forall y,
      UpTransition_forward
        (UpTransition_init inChans outChans nConvs elu dropout use_bottle) x skipx
      = Ok y ->
      shape y = doubled outChans (shape x)).
Proof.
  intros _ _ _ Hn. split; [split|].
  - intros [y Hy]. eapply UpTransition_forward_inv; eassumption.
  - intros (Hc & Hs & Hsum & He).
    destruct (UpTransition_forward_ok inChans outChans nConvs elu dropout use_bottle
                x skipx Hc Hs Hsum He) as (y & Hy & _). eauto.
  - intros y Hy. pose proof Hy as Hinv.
    apply (UpTransition_forward_inv _ _ _ _ _ _ _ _ _ Hn) in Hinv
      as (Hc & Hs & Hsum & He).
    destruct (UpTransition_forward_ok inChans outChans nConvs elu dropout use_bottle
                x skipx Hc Hs Hsum He) as (y' & Hy' & Hsy).
    rewrite Hy in Hy'. inversion Hy'; subst y'. exact Hsy.
Qed.

Lemma UpTransition_accepts_exactly_witness :
  (exists y,
      UpTransition_forward (UpTransition_init 128 64 3 false false false)
        (mkTensor (mkShape 1 128 2 3 4) (TInput "x"))
        (mkTensor (mkShape 1 32 4 6 8) (TInput "skip")) = Ok y) /\
  ~ (exists y,
        UpTransition_forward (UpTransition_init 128 64 3 false false false)
          (mkTensor (mkShape 1 128 2 3 4) (TInput "x"))
          (mkTensor (mkShape 1 32 5 6 8) (TInput "skip")) = Ok y).
Proof.
  split.
  - apply (UpTransition_accepts_exactly 128 64 3 false false false);
      [lia | change (64 / 2) with 32; lia | unfold buildable; lia | lia |].
    unfold extents_at_least. simpl. change (64 / 2) with 32.
    repeat split; lia.
  - intros H.
    apply (UpTransition_accepts_exactly 128 64 3 false false false) in H;
      [| lia | change (64 / 2) with 32; lia | unfold buildable; lia | lia].
    destruct H as (_ & Hs & _). discriminate Hs.
Defined.

(** X8. An [OutputTransition] returns on exactly the tensors that have
    [inChans] channels, extents of at least 1 and more than one value per
    channel.  What it returns is a softmax over axis 1 (the channels), with
    [outChans] channels and the extents of the input. *)
Theorem OutputTransition_accepts_exactly
    (inChans outChans : Z) (elu : bool) (x : Tensor) :
  1 <= inChans -> 1 <= outChans ->
  ((exists y,
       OutputTransition_forward (OutputTransition_init inChans outChans elu) x = Ok y) <->
   chans (shape x) = inChans /\ extents_at_least 1 (shape x) /\ normalisable (shape x)) /\
  (forall y,
      OutputTransition_forward (OutputTransition_init inChans outChans elu) x = Ok y ->
      exists body, y = mkTensor (with_chans outChans (shape x)) (TSoftmax 1 body)).
Proof.
  intros _ _. split; [split|].
  - intros [y Hy]. eapply OutputTransition_forward_inv, Hy.
  - intros (Hc & He & Hn).
    destruct (OutputTransition_forward_ok inChans outChans elu x Hc He Hn) as [body Hy].
    eauto.
  - intros y Hy. pose proof Hy as Hinv.
    apply OutputTransition_forward_inv in Hinv as (Hc & He & Hn).
    destruct (OutputTransition_forward_ok inChans outChans elu x Hc He Hn) as [body Hy'].
    rewrite Hy in Hy'. inversion Hy'. eauto.
Qed.

Lemma OutputTransition_accepts_exactly_witness :
  exists body,
    OutputTransition_forward (OutputTransition_init 32 2 false)
      (mkTensor (mkShape 1 32 4 4 4) (TInput "x")) =
    Ok (mkTensor (mkShape 1 2 4 4 4) (TSoftmax 1 body)).
Proof.
  destruct (OutputTransition_accepts_exactly 32 2 false
              (mkTensor (mkShape 1 32 4 4 4) (TInput "x"))) as [[_ Hok] Hout];
    [lia | lia |].
  destruct Hok as [y Hy].
  - unfold extents_at_least, normalisable. simpl. repeat split; lia.
  - destruct (Hout y Hy) as [body ->]. exists body. exact Hy.
Defined.

(** ** The inputs that get through the whole network *)

Lemma halved_scaled c c' n m s : n = 2 * m -> halved c (scaled n c' s) = scaled m c s.
Proof.
  intros ->. unfold halved, scaled. cbn [batch depth height width]. f_equal;
    rewrite <- Z.mul_assoc, Z.mul_comm; apply Z.div_mul; lia.
Qed.

Lemma doubled_scaled c c' n m s : n = 2 * m -> doubled c (scaled m c' s) = scaled n c s.
Proof.
  intros ->. unfold doubled, scaled. cbn [batch depth height width]. f_equal; lia.
Qed.

Lemma with_chans_scaled c c' n s : with_chans c (scaled n c' s) = scaled n c s.
Proof. reflexivity. Qed.

Lemma normalisable_scaled c n s : Z.even n = true -> normalisable (scaled n c s).
Proof.
  intros E. apply Z.even_spec in E as [m E].
  rewrite <- (doubled_scaled c c n m s E). apply normalisable_doubled.
Qed.

Lemma normalisable_scaled_1 c s : normalisable s -> normalisable (scaled 1 c s).
Proof.
  unfold normalisable, scaled. cbn [batch depth height width].
  now rewrite !Z.mul_1_l.
Qed.

Lemma scaled_extents k n c s :
  0 <= k -> k <= n -> extents_at_least 1 s -> extents_at_least k (scaled n c s).
Proof.
  unfold extents_at_least, scaled. cbn [depth height width].
  intros Hk Hn (Hd & Hh & Hw). repeat split; nia.
Qed.

Lemma chans_scaled n c s : chans (scaled n c s) = c.
Proof. reflexivity. Qed.

Ltac scaled_side :=
  first
    [ reflexivity
    | apply normalisable_scaled; reflexivity
    | apply normalisable_scaled_1; assumption
    | apply scaled_extents; [lia | lia | assumption]
    | symmetry; apply doubled_scaled; reflexivity ].

Lemma forward_reaches_the_lookup cin cout elu x s :
  shape x = scaled 32 cin s -> extents_at_least 1 s -> normalisable s ->
  SegmentationNet_forward (SegmentationNet_init cin cout elu) x =
  Raise (AttributeError "out_block").
Proof.
  intros Hx He Hn. rewrite SegmentationNet_forward_stages.
  destruct (PreBlock_forward_ok cin cin elu x) as (dout & -> & Hdout);
    [rewrite Hx; try rewrite (halved_scaled _ cin 32 16 s eq_refl); scaled_side ..|].
  rewrite Hx, (halved_scaled cin cin 32 16 s eq_refl) in Hdout.
  cbn [mbind result_bind].
  destruct (InputTransition_forward_ok cin elu dout) as (out16 & -> & H16);
    [rewrite Hdout; scaled_side ..|].
  rewrite Hdout, with_chans_scaled in H16. cbn [mbind result_bind].
  destruct (DownTransition_forward_ok 16 2 elu false false out16) as (out32 & -> & H32 & _);
    [rewrite H16; try rewrite (halved_scaled _ 16 16 8 s eq_refl); scaled_side ..|].
  rewrite H16, (halved_scaled _ 16 16 8 s eq_refl) in H32. cbn [mbind result_bind].
  destruct (DownTransition_forward_ok 32 3 elu false true out32) as (out64 & -> & H64 & _);
    [rewrite H32; try rewrite (halved_scaled _ _ 8 4 s eq_refl); scaled_side ..|].
  rewrite H32, (halved_scaled _ _ 8 4 s eq_refl) in H64. cbn [mbind result_bind].
  destruct (DownTransition_forward_ok 64 4 elu true true out64) as (out128 & -> & H128 & _);
    [rewrite H64; try rewrite (halved_scaled _ _ 4 2 s eq_refl); scaled_side ..|].
  rewrite H64, (halved_scaled _ _ 4 2 s eq_refl) in H128. cbn [mbind result_bind].
  destruct (DownTransition_forward_ok 128 4 elu true true out128)
    as (out256 & -> & H256 & _);
    [rewrite H128; try rewrite (halved_scaled _ _ 2 1 s eq_refl); scaled_side ..|].
  rewrite H128, (halved_scaled _ _ 2 1 s eq_refl) in H256. cbn [mbind result_bind].
  destruct (UpTransition_forward_ok 256 256 4 elu true true out256 out128)
    as (u256 & -> & Hu256);
    [rewrite ?H256, ?H128; cbn [chans scaled]; scaled_side ..|].
  rewrite H256, (doubled_scaled _ _ 2 1 s eq_refl) in Hu256. cbn [mbind result_bind].
  destruct (UpTransition_forward_ok 256 128 4 elu true true u256 out64)
    as (u128 & -> & Hu128);
    [rewrite ?Hu256, ?H64; cbn [chans scaled]; scaled_side ..|].
  rewrite Hu256, (doubled_scaled _ _ 4 2 s eq_refl) in Hu128. cbn [mbind result_bind].
  destruct (UpTransition_forward_ok 128 64 3 elu false false u128 out32)
    as (u64 & -> & Hu64);
    [rewrite ?Hu128, ?H32; cbn [chans scaled]; scaled_side ..|].
  rewrite Hu128, (doubled_scaled _ _ 8 4 s eq_refl) in Hu64. cbn [mbind result_bind].
  destruct (UpTransition_forward_ok 64 32 2 elu false false u64 out16)
    as (u32 & -> & Hu32);
    [rewrite ?Hu64, ?H16; cbn [chans scaled]; scaled_side ..|].
  rewrite Hu64, (doubled_scaled _ _ 16 8 s eq_refl) in Hu32. cbn [mbind result_bind].
  destruct (OutputTransition_forward_ok 32 cout elu u32) as (body & ->);
    [rewrite Hu32; scaled_side ..|].
  rewrite Hu32, with_chans_scaled. cbn [mbind result_bind].
  destruct (PostBlock_forward_ok cout cout elu
              (mkTensor (scaled 16 cout s) (TSoftmax 1 body)) x) as (post & -> & _);
    [cbn [shape]; rewrite ?Hx; cbn [chans scaled]; scaled_side ..|].
  reflexivity.
Qed.

#[local] Hint Resolve apply_conv_raise apply_convT_raise apply_norm_raise
  cat1_raise add_raise Sequential_forward_raise
  PreBlock_forward_raise InputTransition_forward_raise
  DownTransition_forward_raise UpTransition_forward_raise
  OutputTransition_forward_raise PostBlock_forward_raise : shape_errors.

Ltac project H :=
  let Hb := fresh "Hb" in
  let Hd := fresh "Hd" in
  let Hh := fresh "Hh" in
  let Hw := fresh "Hw" in
  pose proof (f_equal batch H) as Hb; pose proof (f_equal depth H) as Hd;
  pose proof (f_equal height H) as Hh; pose proof (f_equal width H) as Hw;
  cbn [halved doubled with_chans batch depth height width] in Hb, Hd, Hh, Hw.

Lemma forward_reaches_the_lookup_only cin cout elu x :
  SegmentationNet_forward (SegmentationNet_init cin cout elu) x =
  Raise (AttributeError "out_block") ->
  exists s, shape x = scaled 32 cin s /\ extents_at_least 1 s /\ normalisable s.
Proof.
  rewrite SegmentationNet_forward_stages. intros H.
  through_stage H dout Hpre. through_stage H out16 Hin.
  through_stage H out32 H32. through_stage H out64 H64.
  through_stage H out128 H128. through_stage H out256 H256.
  through_stage H u256 Hu256. through_stage H u128 Hu128.
  through_stage H u64 Hu64. through_stage H u32 Hu32.
  through_stage H pro Hpro. through_stage H post Hpost.
  clear H.
  apply PreBlock_forward_inv in Hpre as (Hc & _ & _ & Sdout).
  apply InputTransition_forward_inv in Hin as (_ & _ & _ & S16).
  apply DownTransition_forward_inv in H32 as (_ & _ & _ & S32).
  apply DownTransition_forward_inv in H64 as (_ & _ & _ & S64).
  apply DownTransition_forward_inv in H128 as (_ & _ & _ & S128).
  apply DownTransition_forward_inv in H256 as (_ & _ & Hn & S256).
  rewrite <- S256 in Hn.
  pose proof (UpTransition_forward_shape _ _ _ _ _ _ _ _ _ Hu256) as [_ E256].
  pose proof (UpTransition_forward_shape _ _ _ _ _ _ _ _ _ Hu128) as [_ E128].
  pose proof (UpTransition_forward_shape _ _ _ _ _ _ _ _ _ Hu64) as [_ E64].
  pose proof (UpTransition_forward_shape _ _ _ _ _ _ _ _ _ Hu32) as [_ E32].
  apply UpTransition_forward_inv in Hu256 as (_ & D256 & _ & He); [|lia].
  apply UpTransition_forward_inv in Hu128 as (_ & D128 & _ & _); [|lia].
  apply UpTransition_forward_inv in Hu64 as (_ & D64 & _ & _); [|lia].
  apply UpTransition_forward_inv in Hu32 as (_ & D32 & _ & _); [|lia].
  apply OutputTransition_forward_shape in Hpro.
  apply PostBlock_forward_shape in Hpost.
  exists (shape out256). split; [|split; [exact He | exact Hn]].
  project Sdout. project S16. project S32. project S64. project S128. project S256.
  project D256. project D128. project D64. project D32.
  unfold same_extents, doubles in *.
  unfold scaled. destruct (shape x) as [bx cx dx hx wx]. cbn [batch chans depth height width] in *.
  f_equal; lia.
Qed.

(** X9. On a [SegmentationNet] the forward pass gets through every stage
    that is registered, and stops at the lookup of [out_block], for exactly
    the inputs that have [in_channels] channels, extents that are 32 times
    extents of at least 1, and more than one value per channel left at the
    bottom of the encoder (where the extents are divided by 32).  Every other
    input is stopped earlier, by a layer. *)
Theorem forward_reaches_the_lookup_exactly (cin cout : Z) (elu : bool) (x : Tensor) :
  1 <= cin -> 1 <= cout ->
  (SegmentationNet_forward (SegmentationNet_init cin cout elu) x =
   Raise (AttributeError "out_block") <->
   exists s, shape x = scaled 32 cin s /\ extents_at_least 1 s /\ normalisable s) /\
  (SegmentationNet_forward (SegmentationNet_init cin cout elu) x <>
   Raise (AttributeError "out_block") ->
   exists e, SegmentationNet_forward (SegmentationNet_init cin cout elu) x = Raise e /\
             shape_error e).
Proof.
  intros _ _. split; [split|].
  - apply forward_reaches_the_lookup_only.
  - intros (s & Hx & He & Hn). eapply forward_reaches_the_lookup; eassumption.
  - intros Hne. rewrite SegmentationNet_forward_stages in *.
    repeat match goal with
           | |- exists e, ?m ≫= _ = Raise e /\ _ =>
               let E := fresh "E" in
               destruct m as [?|e0] eqn:E;
               [ cbn [mbind result_bind] in *
               | exists e0; split; [reflexivity | eauto with shape_errors] ]
           end.
    exfalso. apply Hne. reflexivity.
Qed.

Lemma forward_reaches_the_lookup_exactly_witness :
  SegmentationNet_forward (SegmentationNet_init 1 2 false)
    (mkTensor (mkShape 2 1 32 64 96) (TInput "x")) = Raise (AttributeError "out_block") /\
  SegmentationNet_forward (SegmentationNet_init 1 2 false)
    (mkTensor (mkShape 1 1 32 32 32) (TInput "x")) <> Raise (AttributeError "out_block").
Proof.
  split.
  - apply (forward_reaches_the_lookup_exactly 1 2 false); [lia | lia |].
    exists (mkShape 2 0 1 2 3). unfold extents_at_least, normalisable. simpl.
    repeat split; lia.
  - intros H.
    apply (forward_reaches_the_lookup_exactly 1 2 false) in H; [| lia | lia].
    destruct H as (s & Hx & (Hd & Hh & Hw) & Hn).
    apply Hn. destruct s as [b c d h w]. unfold scaled in Hx. simpl in *.
    inversion Hx. nia.
Defined.

(** ** The entry and exit blocks *)


(** X24. A [PreBlock] returns on exactly the tensors that have
    [in_channels] channels, extents of at least 2 and, once the extents are
    halved, more than one value per channel; what it returns has
    [out_channels] channels and the halved extents, rounded down, so that an
    odd extent loses its last plane. *)
Theorem PreBlock_accepts_exactly (in_channels out_channels : Z) (elu : bool) (x : Tensor) :
  1 <= in_channels -> 1 <= out_channels ->
  ((exists y, PreBlock_forward (PreBlock_init in_channels out_channels elu) x = Ok y) <->
   chans (shape x) = in_channels /\ extents_at_least 2 (shape x) /\
   normalisable (halved out_channels (shape x))) /\
  (forall y,
      PreBlock_forward (PreBlock_init in_channels out_channels elu) x = Ok y ->
      shape y = halved out_channels (shape x)).
Proof.
  intros _ _. split; [split|].
  - intros [y Hy]. apply PreBlock_forward_inv in Hy as (Hc & He & Hn & _). auto.
  - intros (Hc & He & Hn).
    destruct (PreBlock_forward_ok in_channels out_channels elu x Hc He Hn) as (y & Hy & _).
    eauto.
  - intros y Hy. apply PreBlock_forward_inv in Hy as (_ & _ & _ & Hs). exact Hs.
Qed.

Lemma PreBlock_accepts_exactly_witness :
  exists y,
    PreBlock_forward (PreBlock_init 1 1 false)
      (mkTensor (mkShape 1 1 5 4 4) (TInput "x")) = Ok y /\
    shape y = mkShape 1 1 2 2 2.
Proof.
  destruct (PreBlock_accepts_exactly 1 1 false (mkTensor (mkShape 1 1 5 4 4) (TInput "x")))
    as [[_ Hok] Hshape]; [lia | lia |].
  destruct Hok as [y Hy].
  - unfold extents_at_least, normalisable. simpl.
    change (5 / 2) with 2. change (4 / 2) with 2. repeat split; lia.
  - exists y. split; [exact Hy | exact (Hshape y Hy)].
Defined.

(** X25. An [InputTransition] returns on exactly the tensors that have
    [inChans] channels, extents of at least 1 and more than one value per
    channel; what it returns has 16 channels, whatever [inChans] is, and the
    extents of the input. *)
Theorem InputTransition_accepts_exactly (inChans : Z) (elu : bool) (x : Tensor) :
  1 <= inChans ->
  ((exists y, InputTransition_forward (InputTransition_init inChans elu) x = Ok y) <->
   chans (shape x) = inChans /\ extents_at_least 1 (shape x) /\ normalisable (shape x)) /\
  (forall y,
      InputTransition_forward (InputTransition_init inChans elu) x = Ok y ->
      shape y = with_chans 16 (shape x)).
Proof.
  intros _. split; [split|].
  - intros [y Hy]. apply InputTransition_forward_inv in Hy as (Hc & He & Hn & _). auto.
  - intros (Hc & He & Hn).
    destruct (InputTransition_forward_ok inChans elu x Hc He Hn) as (y & Hy & _). eauto.
  - intros y Hy. apply InputTransition_forward_inv in Hy as (_ & _ & _ & Hs). exact Hs.
Qed.

Lemma InputTransition_accepts_exactly_witness :
  exists y,
    InputTransition_forward (InputTransition_init 3 false)
      (mkTensor (mkShape 2 3 4 4 4) (TInput "x")) = Ok y /\
    shape y = mkShape 2 16 4 4 4.
Proof.
  destruct (InputTransition_accepts_exactly 3 false
              (mkTensor (mkShape 2 3 4 4 4) (TInput "x"))) as [[_ Hok] Hshape]; [lia|].
  destruct Hok as [y Hy].
  - unfold extents_at_least, normalisable. simpl. repeat split; lia.
  - exists y. split; [exact Hy | exact (Hshape y Hy)].
Defined.



(** ** The focal initialiser *)


Section FocalInit.
Context {RNG : Type}.
Variable normal_ : R -> R -> nat -> RNG -> list R * RNG.




End FocalInit.


End NetworkFacts.

(* ===================================================================== *)
(** * More properties of the training engine *)
(* ===================================================================== *)

Module EngineFacts.
Import Vbbnet Train TrainFacts.

(** ** Paths of the checkpoint files *)

Lemma append_nil (b : string) : "" +:+ b = b.
Proof. reflexivity. Qed.

Lemma append_cons (c : ascii) (a b : string) : String c a +:+ b = String c (a +:+ b).
Proof. reflexivity. Qed.

Lemma append_assoc (a b c : string) : (a +:+ b) +:+ c = a +:+ (b +:+ c).
Proof.
  induction a as [|x a IH]; [reflexivity|]. rewrite !append_cons. now rewrite IH.
Qed.

Lemma append_cancel (a x y : string) : a +:+ x = a +:+ y -> x = y.
Proof.
  induction a as [|c a IH]; [auto|]. rewrite !append_cons. intros [= H]. auto.
Qed.

(** A string made of characters of [P] followed by a string that starts
    outside [P] splits in one way only. *)
Lemma split_unique (P : ascii -> bool) : forall d1 d2 t1 t2 : string,
  all_chars P d1 = true -> all_chars P d2 = true ->
  starts_outside P t1 = true -> starts_outside P t2 = true ->
  d1 +:+ t1 = d2 +:+ t2 -> d1 = d2 /\ t1 = t2.
Proof.
  induction d1 as [|c1 d1 IH]; intros [|c2 d2] t1 t2 H1 H2 S1 S2 E;
    rewrite ?append_nil, ?append_cons in E; cbn in *.
  - auto.
  - subst t1. cbn in S1. apply andb_prop in H2 as [Hc _]. rewrite Hc in S1. discriminate.
  - subst t2. cbn in S2. apply andb_prop in H1 as [Hc _]. rewrite Hc in S2. discriminate.
  - injection E as -> E.
    apply andb_prop in H1 as [_ H1]. apply andb_prop in H2 as [_ H2].
    destruct (IH d2 t1 t2 H1 H2 S1 S2 E) as [-> ->]. auto.
Qed.

Lemma string_of_uint_decimal d :
  all_chars is_decimal_char (NilEmpty.string_of_uint d) = true.
Proof. induction d; cbn; auto. Qed.

Lemma format_int_decimal n : all_chars is_decimal_char (format_int n) = true.
Proof.
  unfold format_int, NilZero.string_of_int, NilZero.string_of_uint.
  destruct (Z.to_int n) as [d|d]; destruct d; cbn; auto using string_of_uint_decimal.
Qed.

Lemma to_int_not_nil n : Z.to_int n <> Decimal.Pos Decimal.Nil /\
                         Z.to_int n <> Decimal.Neg Decimal.Nil.
Proof.
  split; intros H; pose proof (DecimalZ.of_to n) as E; rewrite H in E;
    cbn in E; subst n; discriminate H.
Qed.

Lemma format_int_inj n1 n2 : format_int n1 = format_int n2 -> n1 = n2.
Proof.
  unfold format_int. intros E. apply DecimalZ.to_int_inj.
  destruct (to_int_not_nil n1) as [P1 N1], (to_int_not_nil n2) as [P2 N2].
  pose proof (NilZero.isi _ P1 N1) as I1. pose proof (NilZero.isi _ P2 N2) as I2.
  rewrite E in I1. congruence.
Qed.

(** [os.path.join] appends the component, after a separator or not. *)
Lemma join2_relative a b :
  String.prefix "/" b = false ->
  exists sep, (sep = "" \/ sep = "/") /\ join2 a b = a +:+ sep +:+ b /\
              forall b', String.prefix "/" b' = false -> join2 a b' = a +:+ sep +:+ b'.
Proof.
  intros Hb. unfold join2.
  destruct (String.eqb a "" || ends_with_slash a) eqn:Hs.
  - exists "". split; [auto|]. rewrite Hb. split; [reflexivity|].
    intros b' ->. reflexivity.
  - exists "/". split; [auto|]. rewrite Hb. split; [reflexivity|].
    intros b' ->. reflexivity.
Qed.

Lemma checkpoint_path_shape dir e name :
  String.prefix "/" name = false ->
  exists base sep,
    (sep = "" \/ sep = "/") /\
    (forall e', exists sep', (sep' = "" \/ sep' = "/") /\
       forall name', String.prefix "/" name' = false ->
         checkpoint_path dir e' name' = base +:+ format_int e' +:+ sep' +:+ name') /\
    checkpoint_path dir e name = base +:+ format_int e +:+ sep +:+ name.
Proof.
  intros Hn. unfold checkpoint_path, chk_folder_of, path_join. cbn [fold_left].
  set (A := join2 dir "checkpoints").
  assert (Hchk : forall e', String.prefix "/" ("chk_" +:+ format_int e') = false)
    by reflexivity.
  destruct (join2_relative A ("chk_" +:+ format_int e) (Hchk e)) as (sA & _ & _ & HB).
  assert (Hfolder : forall e' name', String.prefix "/" name' = false ->
            exists sep', (sep' = "" \/ sep' = "/") /\
              join2 (join2 A ("chk_" +:+ format_int e')) name' =
              (A +:+ sA +:+ "chk_") +:+ format_int e' +:+ sep' +:+ name' /\
              forall name'', String.prefix "/" name'' = false ->
                join2 (join2 A ("chk_" +:+ format_int e')) name'' =
                (A +:+ sA +:+ "chk_") +:+ format_int e' +:+ sep' +:+ name'').
  { intros e' name' Hn'.
    destruct (join2_relative (join2 A ("chk_" +:+ format_int e')) name' Hn')
      as (sep' & Hsep' & E1 & E2).
    exists sep'. split; [exact Hsep'|].
    rewrite (HB _ (Hchk e')) in *.
    split; [rewrite E1 | intros name'' Hn''; rewrite (E2 _ Hn'')];
      rewrite !append_assoc; reflexivity. }
  destruct (Hfolder e name Hn) as (sep & Hsep & E & _).
  exists (A +:+ sA +:+ "chk_"), sep. split; [exact Hsep|]. split; [|exact E].
  intros e'. destruct (Hfolder e' name Hn) as (sep' & Hsep' & _ & E').
  exists sep'. split; [exact Hsep' | exact E'].
Qed.

Lemma checkpoint_path_inj dir e1 e2 n1 n2 :
  n1 ∈ checkpoint_file_names -> n2 ∈ checkpoint_file_names ->
  checkpoint_path dir e1 n1 = checkpoint_path dir e2 n2 -> e1 = e2 /\ n1 = n2.
Proof.
  intros H1 H2 E.
  assert (Hrel : forall n, n ∈ checkpoint_file_names -> String.prefix "/" n = false).
  { intros n Hn. unfold checkpoint_file_names in Hn.
    repeat (apply elem_of_cons in Hn as [-> | Hn]; [reflexivity|]).
    apply not_elem_of_nil in Hn. contradiction. }
  destruct (checkpoint_path_shape dir e1 n1 (Hrel _ H1)) as (base & _ & _ & Hall & _).
  destruct (Hall e1) as (s1 & Hs1 & E1). destruct (Hall e2) as (s2 & Hs2 & E2).
  rewrite (E1 _ (Hrel _ H1)), (E2 _ (Hrel _ H2)) in E.
  apply append_cancel in E.
  apply (split_unique is_decimal_char) in E as [Ee En];
    try apply format_int_decimal.
  - split; [apply format_int_inj, Ee|].
    unfold checkpoint_file_names in H1, H2.
    repeat (apply elem_of_cons in H1 as [-> | H1]);
      try (apply not_elem_of_nil in H1; contradiction);
      repeat (apply elem_of_cons in H2 as [-> | H2]);
      try (apply not_elem_of_nil in H2; contradiction);
      destruct Hs1 as [-> | ->], Hs2 as [-> | ->];
      first [reflexivity | discriminate En].
  - unfold checkpoint_file_names in H1.
    repeat (apply elem_of_cons in H1 as [-> | H1]);
      try (apply not_elem_of_nil in H1; contradiction);
      destruct Hs1 as [-> | ->]; reflexivity.
  - unfold checkpoint_file_names in H2.
    repeat (apply elem_of_cons in H2 as [-> | H2]);
      try (apply not_elem_of_nil in H2; contradiction);
      destruct Hs2 as [-> | ->]; reflexivity.
Qed.

Lemma checkpoint_path_ne dir e1 e2 n1 n2 :
  n1 ∈ checkpoint_file_names -> n2 ∈ checkpoint_file_names ->
  e1 <> e2 \/ n1 <> n2 ->
  checkpoint_path dir e1 n1 <> checkpoint_path dir e2 n2.
Proof.
  intros H1 H2 Hne E. apply checkpoint_path_inj in E as [He Hn]; [|assumption..].
  destruct Hne; contradiction.
Qed.

Lemma params_is_a_checkpoint_file : "params.pth" ∈ checkpoint_file_names.
Proof. apply list_elem_of_In. simpl. auto. Qed.
Lemma optimizer_is_a_checkpoint_file : "optimizer.pth" ∈ checkpoint_file_names.
Proof. apply list_elem_of_In. simpl. auto. Qed.
Lemma config_is_a_checkpoint_file : "config.py" ∈ checkpoint_file_names.
Proof. apply list_elem_of_In. simpl. auto. Qed.

#[local] Hint Resolve params_is_a_checkpoint_file optimizer_is_a_checkpoint_file
  config_is_a_checkpoint_file : core.

(** ** save_checkpoint and load_checkpoint *)

Section Checkpoints.
Context {StateDict OptState : Type}.
Implicit Types st : @State StateDict OptState.

Lemma save_checkpoint_run e b cfg (w : @World StateDict OptState) ms nm st :
  save_checkpoint e b cfg w ms nm st =
  (Ok tt,
   mkState
     (<[checkpoint_path (save_dir cfg) e "config.py" := FText (config_file w)]>
        (<[checkpoint_path (save_dir cfg) e "optimizer.pth" := FOptimizer (opt_state st)]>
           (<[checkpoint_path (save_dir cfg) e "params.pth" :=
                FCheckpoint (mkCheckpoint e b (net_name cfg) ms (net_params st) nm
                               (num_classes cfg))]> (fs st))))
     (net_params st) (opt_state st) (scheduler_last_epoch st)
     (trace st ++ [EvSave e b])).
Proof. reflexivity. Qed.

Lemma save_checkpoint_lookup e b cfg (w : @World StateDict OptState) ms nm st e' name :
  name ∈ checkpoint_file_names ->
  fs (snd (save_checkpoint e b cfg w ms nm st)) !! checkpoint_path (save_dir cfg) e' name =
  if bool_decide (e' = e) then
    if bool_decide (name = "config.py") then Some (FText (config_file w))
    else if bool_decide (name = "optimizer.pth") then Some (FOptimizer (opt_state st))
    else Some (FCheckpoint (mkCheckpoint e b (net_name cfg) ms (net_params st) nm
                              (num_classes cfg)))
  else fs st !! checkpoint_path (save_dir cfg) e' name.
Proof.
  intros Hname. rewrite save_checkpoint_run. cbn [snd fs].
  destruct (bool_decide_reflect (e' = e)) as [-> | Hne].
  - unfold checkpoint_file_names in Hname.
    repeat (apply elem_of_cons in Hname as [-> | Hname]);
      [| | | apply not_elem_of_nil in Hname; contradiction].
    + rewrite lookup_insert_ne by (apply checkpoint_path_ne; auto; right; discriminate).
      rewrite lookup_insert_ne by (apply checkpoint_path_ne; auto; right; discriminate).
      rewrite lookup_insert_eq. reflexivity.
    + rewrite lookup_insert_ne by (apply checkpoint_path_ne; auto; right; discriminate).
      rewrite lookup_insert_eq. reflexivity.
    + rewrite lookup_insert_eq. reflexivity.
  - rewrite !lookup_insert_ne by (apply checkpoint_path_ne; auto). reflexivity.
Qed.

Lemma load_checkpoint_unfold e dir :
  @load_checkpoint StateDict OptState e dir =
  (ok ← isfile (checkpoint_path dir e "params.pth");
   assert ok ("checkpoint file not found: " +:+ checkpoint_path dir e "params.pth");;
   state ← load_pytorch_model (checkpoint_path dir e "params.pth");
   c ← as_checkpoint state "state_dict";
   net_load_state_dict (ck_state_dict c);;
   ok ← isfile (checkpoint_path dir e "optimizer.pth");
   assert ok ("optimizer file not found: " +:+ checkpoint_path dir e "params.pth");;
   opt_state ← load_pytorch_model (checkpoint_path dir e "optimizer.pth");
   opt_load_state_dict opt_state;;
   ret (ck_epoch c, ck_batch c) : M (Z * Z)).
Proof. reflexivity. Qed.

Lemma load_checkpoint_both e dir st (c : @Checkpoint StateDict) (o : OptState) :
  fs st !! checkpoint_path dir e "params.pth" = Some (FCheckpoint c) ->
  fs st !! checkpoint_path dir e "optimizer.pth" = Some (FOptimizer o) ->
  load_checkpoint e dir st =
  (Ok (ck_epoch c, ck_batch c),
   mkState (fs st) (ck_state_dict c) o (scheduler_last_epoch st)
           (trace st ++ [EvLoadNet; EvLoadOpt])).
Proof.
  intros Hp Ho. rewrite load_checkpoint_unfold.
  generalize dependent (checkpoint_path dir e "params.pth").
  generalize dependent (checkpoint_path dir e "optimizer.pth").
  intros optimizer Ho params Hp.
  match goal with
  | |- ?m st = (Ok ?r, ?st1) =>
      destruct (wp_returns m (fun r' st' => r' = r /\ st' = st1) st)
        as (r' & st' & Hrun & -> & ->); [|exact Hrun]
  end.
  repeat wp_step. rewrite Hp.
  apply wp_assert; [intros _ | discriminate].
  repeat wp_step. rewrite Hp. unfold as_checkpoint.
  repeat wp_step. rewrite Ho.
  apply wp_assert; [intros _ | discriminate].
  repeat wp_step. rewrite Ho. unfold opt_load_state_dict.
  repeat wp_step. split; [reflexivity|].
  unfold add_events. cbn [fs net_params opt_state scheduler_last_epoch trace].
  now rewrite <- app_assoc.
Qed.

Lemma load_checkpoint_half e dir st (c : @Checkpoint StateDict) :
  fs st !! checkpoint_path dir e "params.pth" = Some (FCheckpoint c) ->
  fs st !! checkpoint_path dir e "optimizer.pth" = None ->
  load_checkpoint e dir st =
  (Raise (AssertionError
            ("optimizer file not found: " +:+ checkpoint_path dir e "params.pth")),
   mkState (fs st) (ck_state_dict c) (opt_state st) (scheduler_last_epoch st)
           (trace st ++ [EvLoadNet])).
Proof.
  intros Hp Ho. rewrite load_checkpoint_unfold.
  generalize dependent (checkpoint_path dir e "params.pth").
  generalize dependent (checkpoint_path dir e "optimizer.pth").
  intros optimizer Ho params Hp.
  match goal with
  | |- ?m st = (Raise ?e0, ?st1) =>
      destruct (wp_raises m (fun e' st' => e' = e0 /\ st' = st1) st)
        as (e' & st' & Hrun & -> & ->); [|exact Hrun]
  end.
  repeat wp_step. rewrite Hp.
  apply wp_assert; [intros _ | discriminate].
  repeat wp_step. rewrite Hp. unfold as_checkpoint.
  repeat wp_step. rewrite Ho.
  apply wp_assert; [discriminate | intros _].
  split; reflexivity.
Qed.

Lemma load_checkpoint_keeps_files e dir st :
  fs (snd (load_checkpoint e dir st)) = fs st.
Proof.
  rewrite load_checkpoint_unfold.
  generalize (checkpoint_path dir e "params.pth").
  generalize (checkpoint_path dir e "optimizer.pth").
  intros optimizer params.
  match goal with
  | |- fs (snd (?m st)) = _ =>
      pose proof (wp_outcome m (fun _ st' => fs st' = fs st)
                    (fun _ st' => fs st' = fs st) st) as H;
      destruct (m st) as [[r|e0] st']; apply H
  end.
  all: repeat wp_step; apply wp_assert; intros _; try reflexivity.
  all: repeat wp_step; destruct (fs st !! params) as [[c|o|t]|]; try reflexivity.
  all: unfold as_checkpoint; repeat wp_step; try reflexivity.
  all: apply wp_assert; intros _; try reflexivity.
  all: repeat wp_step; destruct (fs st !! optimizer) as [[c'|o'|t']|]; try reflexivity.
  all: unfold opt_load_state_dict; repeat wp_step; reflexivity.
Qed.

(** X12. What [save_checkpoint] writes for an epoch, [load_checkpoint] reads
    back for that epoch from the same [save_dir]: it returns the epoch and
    batch indices that were saved and puts the saved parameters and optimizer
    state in place, whatever the network and optimizer held before the
    load. *)
Theorem save_then_load_round_trip
    (cfg : Config) (w : @World StateDict OptState) (e b : Z) (ms : list Z) (nm : Z)
    (st st2 : @State StateDict OptState) :
  config_file_exists w = true ->
  fs st2 = fs (snd (save_checkpoint e b cfg w ms nm st)) ->
  exists st3,
    load_checkpoint e (save_dir cfg) st2 = (Ok (e, b), st3) /\
    net_params st3 = net_params st /\ opt_state st3 = opt_state st /\
    fs st3 = fs st2.
Proof.
  intros _ Hfs.
  pose proof (save_checkpoint_lookup e b cfg w ms nm st e "params.pth"
                params_is_a_checkpoint_file) as Hp.
  pose proof (save_checkpoint_lookup e b cfg w ms nm st e "optimizer.pth"
                optimizer_is_a_checkpoint_file) as Ho.
  rewrite <- Hfs in Hp, Ho. rewrite bool_decide_eq_true_2 in Hp, Ho by reflexivity.
  cbn in Hp, Ho.
  rewrite (load_checkpoint_both _ _ _ _ _ Hp Ho). eexists. repeat split.
Qed.

(** X13. [save_checkpoint] for one epoch leaves the three files of every
    other epoch's checkpoint folder as they were: the folders [chk_<epoch>]
    of different epochs never share a file. *)
Theorem save_checkpoint_keeps_other_epochs
    (cfg : Config) (w : @World StateDict OptState) (e e' b : Z) (ms : list Z) (nm : Z)
    (st : @State StateDict OptState) (name : string) :
  e' <> e ->
  name ∈ checkpoint_file_names ->
  fs (snd (save_checkpoint e b cfg w ms nm st)) !! checkpoint_path (save_dir cfg) e' name =
  fs st !! checkpoint_path (save_dir cfg) e' name.
Proof.
  intros Hne Hname. rewrite save_checkpoint_lookup by exact Hname.
  rewrite bool_decide_eq_false_2 by exact Hne. reflexivity.
Qed.

(** X14. [load_checkpoint] never writes a file, whatever it finds and
    however it ends.  It is not atomic: when [params.pth] is there and
    [optimizer.pth] is missing, the assertion on the optimizer file is raised
    after the network has taken the stored parameters, with the optimizer
    left as it was. *)
Theorem load_checkpoint_reads_only_and_in_two_steps
    (e : Z) (dir : string) (st : @State StateDict OptState) :
  fs (snd (load_checkpoint e dir st)) = fs st /\
  (forall c : @Checkpoint StateDict,
      fs st !! checkpoint_path dir e "params.pth" = Some (FCheckpoint c) ->
      fs st !! checkpoint_path dir e "optimizer.pth" = None ->
      exists msg st',
        load_checkpoint e dir st = (Raise (AssertionError msg), st') /\
        net_params st' = ck_state_dict c /\
        opt_state st' = opt_state st /\
        trace st' = trace st ++ [EvLoadNet]).
Proof.
  split; [apply load_checkpoint_keeps_files|].
  intros c Hp Ho. rewrite (load_checkpoint_half _ _ _ _ Hp Ho).
  eexists _, _. repeat split.
Qed.

End Checkpoints.

Lemma save_then_load_round_trip_witness :
  let cfg := a_config (-1) 2 [64; 64; 64] (NameStr "Dice") [1%Q] in
  let w := a_world 4 6 (mkShape 2 1 64 64 64) echo_class in
  let st := initial_state ∅ 7%nat 9%nat in
  let st2 := initial_state (fs (snd (save_checkpoint 5 120 cfg w max_stride 1 st)))
               0%nat 0%nat in
  exists st3, load_checkpoint 5 "/out" st2 = (Ok (5, 120), st3) /\
              net_params st3 = 7%nat /\ opt_state st3 = 9%nat.
Proof.
  intros cfg w st st2.
  destruct (save_then_load_round_trip cfg w 5 120 max_stride 1 st st2 eq_refl eq_refl)
    as (st3 & Hrun & Hp & Ho & _).
  exists st3. split; [exact Hrun|]. split; [exact Hp | exact Ho].
Defined.

Lemma save_checkpoint_keeps_other_epochs_witness :
  let cfg := a_config (-1) 2 [64; 64; 64] (NameStr "Dice") [1%Q] in
  let w := a_world 4 6 (mkShape 2 1 64 64 64) echo_class in
  fs (snd (save_checkpoint 5 120 cfg w max_stride 1 (initial_state ∅ 7%nat 9%nat)))
    !! checkpoint_path "/out" 4 "optimizer.pth" = None.
Proof.
  intros cfg w.
  rewrite (save_checkpoint_keeps_other_epochs cfg w 5 4 120 max_stride 1
             (initial_state ∅ 7%nat 9%nat) "optimizer.pth");
    [reflexivity | lia | apply list_elem_of_In; simpl; auto].
Defined.

Lemma load_checkpoint_reads_only_and_in_two_steps_witness :
  let c := mkCheckpoint 5 120 "vbbnet" [16; 16; 16] 7%nat 1 2 in
  let st := initial_state {[ checkpoint_path "/out" 5 "params.pth" := FCheckpoint c ]}
              0%nat 3%nat in
  exists msg st',
    load_checkpoint 5 "/out" st = (Raise (AssertionError msg), st') /\
    net_params st' = 7%nat /\ opt_state st' = 3%nat.
Proof.
  intros c st.
  destruct (load_checkpoint_reads_only_and_in_two_steps 5 "/out" st) as [_ Hhalf].
  destruct (Hhalf c) as (msg & st' & Hrun & Hp & Ho & _).
  - vm_compute. reflexivity.
  - vm_compute. reflexivity.
  - exists msg, st'. split; [exact Hrun|]. split; [exact Hp | exact Ho].
Defined.

(** ** The loss terms *)

Lemma existsb_perm {A} (f : A -> bool) (l l' : list A) :
  l ≡ₚ l' -> existsb f l = existsb f l'.
Proof.
  induction 1 as [|x l l' _ IH|x y l|l l' l'' _ IH1 _ IH2]; simpl.
  - reflexivity.
  - now rewrite IH.
  - destruct (f x), (f y); reflexivity.
  - now rewrite IH1.
Qed.

(** X18. The engine appends the enabled loss terms in the fixed order Dice,
    Focal, Boundary: the list it builds is always a sub-list of those three
    names in that order, and when [cfg.loss.name] is a list of tags the order
    of the tags makes no difference.  The weights of [cfg.loss.loss_weight]
    are therefore matched to the terms in that fixed order. *)
Theorem loss_terms_come_in_a_fixed_order :
  (forall cfg,
      sublist (build_loss_func_list cfg)
              ["MultiDiceLoss"; "FocalLoss"; "BoundarySoftDice"]) /\
  (forall cfg l l',
      l ≡ₚ l' ->
      build_loss_func_list (with_loss_name (NameList l) cfg) =
      build_loss_func_list (with_loss_name (NameList l') cfg)).
Proof.
  split.
  - intros cfg. unfold build_loss_func_list.
    destruct (py_in "Dice" (loss_name cfg)), (py_in "Focal" (loss_name cfg)),
      (py_in "Boundary" (loss_name cfg)); cbn [app];
      repeat first [apply sublist_nil | apply sublist_skip; [] | apply sublist_cons
                   | apply sublist_skip ].
  - intros cfg l l' Hperm. unfold build_loss_func_list, with_loss_name.
    cbn [loss_name py_in].
    now rewrite !(existsb_perm _ l l' Hperm).
Qed.

Lemma loss_terms_come_in_a_fixed_order_witness :
  build_loss_func_list
    (with_loss_name (NameList ["Boundary"; "Dice"])
       (a_config (-1) 2 [64; 64; 64] (NameStr "") [1%Q; 1%Q])) =
  ["MultiDiceLoss"; "BoundarySoftDice"].
Proof.
  rewrite (proj2 loss_terms_come_in_a_fixed_order _ ["Boundary"; "Dice"]
             ["Dice"; "Boundary"]); [reflexivity|].
  apply Permutation_swap.
Defined.

(** ** calculate_loss, on the values *)

Section LossValueFacts.
Import LossValues.
Context {Output Mask : Type}.
Implicit Types funcs : list (Output -> Mask -> LossOut).
Open Scope R_scope.

Lemma calculate_loss_loop_run output mask : forall funcs values weights seen losses total_loss,
  Forall2 (fun f v => first_of (f output mask) = Ok v) funcs values ->
  length funcs = length weights ->
  calculate_loss_loop funcs (length seen) output mask (seen ++ weights) losses total_loss =
  Ok (losses ++ values,
      match funcs, total_loss with
      | [], _ => total_loss
      | _, TotalInt n => TotalTensor (IZR n + weighted_sum weights values)
      | _, TotalTensor t => TotalTensor (t + weighted_sum weights values)
      end).
Proof.
  induction funcs as [|f rest IH]; intros values weights seen losses total_loss Hv Hl.
  - inversion Hv; subst. simpl. now rewrite app_nil_r.
  - inversion Hv as [|? v ? vs Hf Hrest]; subst.
    destruct weights as [|wt ws]; [discriminate Hl|]. injection Hl as Hl.
    cbn [calculate_loss_loop]. rewrite Hf. cbn [mbind result_bind].
    unfold getitem. rewrite lookup_app_r by lia. rewrite Nat.sub_diag.
    cbn [lookup list_lookup mbind result_bind].
    replace (S (length seen)) with (length (seen ++ [wt]))
      by (rewrite length_app; simpl; lia).
    replace (seen ++ wt :: ws) with ((seen ++ [wt]) ++ ws) by now rewrite <- app_assoc.
    rewrite (IH vs ws (seen ++ [wt]) _ _ Hrest Hl).
    rewrite <- app_assoc. cbn [app]. f_equal. f_equal.
    destruct rest as [|f' rest'].
    + inversion Hrest; subst. destruct ws; [|discriminate Hl].
      destruct total_loss; cbn; f_equal; lra.
    + destruct total_loss; cbn [total_add weighted_sum]; f_equal; lra.
Qed.

(** X22. With as many weights as loss functions, and at least one,
    [calculate_loss] returns the value of every loss function (the first
    component where a loss function returns a tuple) in order, and their
    weighted sum.  With no loss function and no weight it raises
    [AttributeError]: the total is still the integer 0, which has no
    [cuda].  With a different number of weights it raises the assertion
    failure before any loss function is called. *)
Theorem calculate_loss_is_the_weighted_sum
    (funcs : list (Output -> Mask -> LossOut)) (output : Output) (mask : Mask)
    (weights values : list R) :
  (funcs <> [] ->
   length funcs = length weights ->
   Forall2 (fun f v => first_of (f output mask) = Ok v) funcs values ->
   calculate_loss funcs output mask weights = Ok (values, weighted_sum weights values)) /\
  calculate_loss [] output mask [] = Raise (AttributeError "cuda") /\
  (length funcs <> length weights ->
   calculate_loss funcs output mask weights = Raise (AssertionError "")).
Proof.
  split; [|split].
  - intros Hne Hl Hv. unfold calculate_loss.
    rewrite Hl, Nat.eqb_refl. cbn [negb].
    pose proof (calculate_loss_loop_run output mask funcs values weights [] []
                  (TotalInt 0) Hv Hl) as Hrun.
    cbn [length app] in Hrun. rewrite Hrun.
    cbn [mbind result_bind snd fst app].
    destruct funcs; [contradiction|]. cbn. f_equal. f_equal. lra.
  - reflexivity.
  - intros Hl. unfold calculate_loss.
    destruct (Nat.eqb_spec (length funcs) (length weights)); [contradiction | reflexivity].
Qed.

End LossValueFacts.

Lemma calculate_loss_is_the_weighted_sum_witness :
  LossValues.calculate_loss
    [fun (_ _ : unit) => LossValues.OutTensor 3%R;
     fun (_ _ : unit) => LossValues.OutTuple [5%R; 7%R]] tt tt [2%R; 4%R] =
  Ok ([3%R; 5%R], LossValues.weighted_sum [2%R; 4%R] [3%R; 5%R]).
Proof.
  apply (proj1 (calculate_loss_is_the_weighted_sum
                  [fun (_ _ : unit) => LossValues.OutTensor 3%R;
                   fun (_ _ : unit) => LossValues.OutTuple [5%R; 7%R]] tt tt
                  [2%R; 4%R] [3%R; 5%R])).
  - discriminate.
  - reflexivity.
  - repeat constructor.
Defined.

(** ** One pass through the loop body, on parameters and files *)

Lemma saved_of_app a b : saved_of (a ++ b) = saved_of a ++ saved_of b.
Proof. apply omap_app. Qed.

Lemma saved_of_loss_terms names : saved_of (map EvLossTerm names) = [].
Proof. induction names; [reflexivity | exact IHnames]. Qed.

Ltac saved_simpl :=
  repeat first
    [ rewrite saved_of_app | rewrite saved_of_loss_terms | rewrite app_nil_r ];
  cbn [saved_of omap list_omap app].

Lemma iteration_effect_spec {StateDict OptState : Type}
    cfg (w : @World StateDict OptState) l i st :
  wp (iteration cfg w l i) (iteration_effect cfg w l st) (iteration_stopped cfg w l st) st.
Proof.
  unfold iteration. wp_auto.
  all: unfold iteration_effect, iteration_stopped; wp_simpl; saved_simpl.
  all: try (repeat split; first [reflexivity | left; reflexivity]).
  all: arith_inv; unfold save_due, epoch_of, files_after_save; bool_cases; try discriminate.
  all: try (repeat split;
            first [reflexivity | now rewrite app_nil_r | symmetry; apply surjective_pairing
                  | right; symmetry; apply surjective_pairing ]).
Qed.

(** ** The loop, with the number of the pass *)

Lemma wp_conj {StateDict OptState A : Type} (m : @M StateDict OptState A) Q1 Q2 E1 E2 st :
  wp m Q1 E1 st -> wp m Q2 E2 st ->
  wp m (fun a st' => Q1 a st' /\ Q2 a st') (fun e st' => E1 e st' /\ E2 e st') st.
Proof. unfold wp. destruct (m st) as [[a|e] st']; auto. Qed.

Lemma wp_loop_bounded {StateDict OptState : Type} cfg (w : @World StateDict OptState)
    (I : nat -> Locals -> State -> Prop) (E : exn -> State -> Prop) (n : nat) :
  (forall k l i st, (k < n)%nat -> I k l st -> wp (iteration cfg w l i) (I (S k)) E st) ->
  forall idxs k l st,
    (k + length idxs = n)%nat -> I k l st -> wp (loop cfg w l idxs) (I n) E st.
Proof.
  intros Hbody. induction idxs as [|i rest IH]; intros k l st Hk HI; simpl in *.
  - apply wp_ret. replace n with k by lia. exact HI.
  - apply wp_bind. eapply wp_mono; [apply (Hbody k); [lia | exact HI] | | auto].
    intros l' st' HI'. apply (IH (S k)); [lia | exact HI'].
Qed.

Lemma range_snoc k : range (Z.of_nat (S k)) = range (Z.of_nat k) ++ [Z.of_nat k].
Proof.
  unfold range. rewrite !Nat2Z.id. rewrite seq_S, map_app. reflexivity.
Qed.

Lemma updates_S {StateDict OptState : Type} (w : @World StateDict OptState) k po :
  updates w (S k) po = update w (Z.of_nat k) (updates w k po).
Proof. unfold updates. rewrite range_snoc, fold_left_app. reflexivity. Qed.

(** ** The parameters *)

(** X15. With at least one loss term enabled, the engine updates the
    parameters and the optimizer state once per batch, in the order of the
    batches and with nothing in between: when [train] returns they are the
    result of the updates of batches [0 .. len(data_loader) - 1] on what the
    network and optimizer started from, and when it raises they are the
    result of the updates of the first [k] batches, for some [k] up to the
    number of batches. *)
Theorem one_update_per_batch
    {StateDict OptState : Type} (cfg : Config) (w : @World StateDict OptState)
    (st : @State StateDict OptState) :
  build_loss_func_list cfg <> [] ->
  match train cfg w st with
  | (Ok _, st') =>
      (net_params st', opt_state st') =
      updates w (loader_len w) (net_params st, opt_state st)
  | (Raise _, st') =>
      exists k, (k <= loader_len w)%nat /\
                (net_params st', opt_state st') =
                updates w k (net_params st, opt_state st)
  end.
Proof.
  intros _.
  set (po0 := (net_params st, opt_state st)).
  set (I := fun (k : nat) (l : Locals) (st1 : @State StateDict OptState) =>
              batch_idx l = Z.of_nat k /\
              (net_params st1, opt_state st1) = updates w k po0).
  set (E := fun (_ : exn) (st1 : @State StateDict OptState) =>
              exists k, (k <= loader_len w)%nat /\
                        (net_params st1, opt_state st1) = updates w k po0).
  assert (Hwp : wp (train cfg w)
                  (fun _ st1 => (net_params st1, opt_state st1) =
                                updates w (loader_len w) po0) E st).
  { apply wp_train.
    - intros e st1 (_ & Hp & Ho & _). exists 0%nat. split; [lia|].
      rewrite Hp, Ho. reflexivity.
    - intros _ st1 (_ & Hp & Ho & _) _.
      eapply wp_mono.
      + apply (wp_loop_bounded cfg w I E (loader_len w)) with (k := 0%nat).
        * intros k l i st2 Hk [Hb Hpo].
          eapply wp_mono; [apply iteration_effect_spec | |].
          -- intros l' st' (Hb' & Hpo' & _). split; [lia|].
             rewrite Hpo', updates_S, <- Hpo, Hb. reflexivity.
          -- intros e st' (_ & _ & [Hsame | Hupd]).
             ++ exists k. split; [lia|]. now rewrite Hsame.
             ++ exists (S k). split; [lia|].
                rewrite Hupd, updates_S, <- Hpo, Hb. reflexivity.
        * rewrite range_len. reflexivity.
        * split; [reflexivity|]. rewrite Hp, Ho. reflexivity.
      + intros _ st2 [_ Hpo]. exact Hpo.
      + auto. }
  apply wp_outcome in Hwp.
  destruct (train cfg w st) as [[[]|e] st']; exact Hwp.
Qed.

Lemma one_update_per_batch_witness :
  let cfg := a_config (-1) 2 [64; 64; 64] (NameStr "Dice") [1%Q] in
  let w := a_world 4 6 (mkShape 2 1 64 64 64) echo_class in
  train cfg w (initial_state ∅ 0%nat 0%nat) =
  (Ok tt, snd (train cfg w (initial_state ∅ 0%nat 0%nat))) /\
  net_params (snd (train cfg w (initial_state ∅ 0%nat 0%nat))) = 6%nat.
Proof.
  intros cfg w.
  pose proof (one_update_per_batch cfg w (initial_state ∅ 0%nat 0%nat)) as H.
  assert (Hrun : fst (train cfg w (initial_state ∅ 0%nat 0%nat)) = Ok tt)
    by (vm_compute; reflexivity).
  destruct (train cfg w (initial_state ∅ 0%nat 0%nat)) as [[[]|e] st'];
    [|discriminate Hrun].
  split; [reflexivity|].
  assert (Hne : build_loss_func_list cfg <> []) by discriminate.
  specialize (H Hne). cbn [snd]. exact (f_equal fst H).
Defined.

(** X17. With the network of [network/vbbnet.py] the engine never trains:
    the forward pass of the first batch raises.  A run never updates a
    parameter or the optimizer state; all it does is, at most, empty the save
    directory, initialise the network and clear the gradients once; and it
    returns only when the data loader is empty. *)
Theorem vbbnet_is_never_trained
    {StateDict OptState : Type} (cfg : Config) (w : @World StateDict OptState)
    (st : @State StateDict OptState) :
  net_class w = vbbnet_class ->
  let r := train cfg w st in
  net_params (snd r) = net_params st /\
  opt_state (snd r) = opt_state st /\
  (exists evs, trace (snd r) = trace st ++ evs /\
               forall ev, ev ∈ evs -> ev ∈ [EvRmtree; EvKaimingInit; EvZeroGrad]) /\
  (is_ok (fst r) = true -> loader_len w = 0%nat).
Proof.
  intros Hnet r.
  set (Same := fun (st1 : @State StateDict OptState) =>
                 net_params st1 = net_params st /\ opt_state st1 = opt_state st /\
                 exists evs, trace st1 = trace st ++ evs /\
                             forall ev, ev ∈ evs ->
                                        ev ∈ [EvRmtree; EvKaimingInit; EvZeroGrad]).
  assert (Hpre : forall st1, before_loop st st1 -> Same st1).
  { intros st1 (_ & Hp & Ho & evs & Htr & Hevs).
    split; [exact Hp|]. split; [exact Ho|]. exists evs. split; [exact Htr|].
    intros ev Hev. apply list_elem_of_In.
    destruct Hevs as [-> | [-> | [-> | ->]]];
      apply list_elem_of_In in Hev; simpl in *; tauto. }
  assert (Hwp : wp (train cfg w)
                  (fun _ st1 => Same st1 /\ loader_len w = 0%nat)
                  (fun _ st1 => Same st1) st).
  { apply wp_train.
    - intros e st1 Hbefore. apply Hpre, Hbefore.
    - intros _ st1 Hbefore _. apply Hpre in Hbefore as (Hp & Ho & evs & Htr & Hevs).
      destruct (loader_len w) as [|n].
      + apply wp_ret. split; [|reflexivity]. split; [exact Hp|]. split; [exact Ho|].
        exists evs. split; assumption.
      + destruct (range_head n) as [rest ->]. cbn [loop].
        apply wp_bind. unfold iteration.
        apply wp_bind, wp_emit, wp_bind, wp_lift. rewrite Hnet. unfold vbbnet_class.
        pose proof (VbbnetFacts.SegmentationNet_forward_not_ok
                      (num_modality w) (num_classes cfg) false
                      (mkTensor (crops_shape w 0) (TInput "crops"))) as Hno.
        destruct (SegmentationNet_forward _ _) as [out|e]; [discriminate Hno|].
        split; [exact Hp|]. split; [exact Ho|].
        exists (evs ++ [EvZeroGrad]). cbn [add_events trace].
        split; [rewrite Htr; now rewrite <- app_assoc|].
        intros ev. rewrite elem_of_app, list_elem_of_singleton.
        intros [Hev | ->]; [apply Hevs, Hev|].
        apply list_elem_of_In. simpl. tauto. }
  apply wp_outcome in Hwp. fold r in Hwp.
  destruct (fst r) as [[]|e].
  - destruct Hwp as [(Hp & Ho & Hev) Hlen]. repeat split; auto.
  - destruct Hwp as (Hp & Ho & Hev). repeat split; auto. discriminate.
Qed.

Lemma vbbnet_is_never_trained_witness :
  let cfg := a_config (-1) 2 [64; 64; 64] (NameStr "Dice") [1%Q] in
  let w := a_world 4 6 (mkShape 2 1 64 64 64) vbbnet_class in
  net_params (snd (train cfg w (initial_state ∅ 0%nat 0%nat))) = 0%nat /\
  is_ok (fst (train cfg w (initial_state ∅ 0%nat 0%nat))) = false.
Proof.
  intros cfg w.
  destruct (vbbnet_is_never_trained cfg w (initial_state ∅ 0%nat 0%nat) eq_refl)
    as (Hp & _ & _ & Hlen).
  split; [exact Hp|].
  destruct (is_ok (fst (train cfg w (initial_state ∅ 0%nat 0%nat)))); [|reflexivity].
  specialize (Hlen eq_refl). discriminate Hlen.
Defined.

(** ** Options without effect *)

Lemma M_bind_ext {StateDict OptState A B : Type}
    (m m' : @M StateDict OptState A) (k k' : A -> @M StateDict OptState B) st :
  m st = m' st ->
  (forall a st', m st = (Ok a, st') -> k a st' = k' a st') ->
  (m ≫= k) st = (m' ≫= k') st.
Proof.
  unfold mbind, M_bind. intros <- H. destruct (m st) as [[a|e] st']; auto.
Qed.

Lemma loop_ignores_clear_start_epoch {StateDict OptState : Type}
    (b : bool) cfg (w : @World StateDict OptState) : forall idxs l st,
  loop (with_clear_start_epoch b cfg) w l idxs st = loop cfg w l idxs st.
Proof.
  induction idxs as [|i rest IH]; intros l st; [reflexivity|].
  cbn [loop]. apply M_bind_ext; [reflexivity|]. intros l' st' _. apply IH.
Qed.

(** X16. [cfg.general.clear_start_epoch] has no effect on a run: the batch
    index starts at 0 whether it is set or not, because the only other start
    value, the one of the resume branch, is never reached. *)
Theorem clear_start_epoch_has_no_effect
    {StateDict OptState : Type} (b : bool) (cfg : Config)
    (w : @World StateDict OptState) (st : @State StateDict OptState) :
  train (with_clear_start_epoch b cfg) w st = train cfg w st.
Proof.
  unfold train.
  do 6 (apply M_bind_ext; [reflexivity | intros ? ? _]).
  apply M_bind_ext; [reflexivity|]. intros start st1 Hstart.
  assert (Hzero : snd start = 0).
  { cbn [resume_epoch with_clear_start_epoch] in Hstart.
    destruct (0 <=? resume_epoch cfg); [discriminate Hstart|].
    inversion Hstart. reflexivity. }
  apply M_bind_ext; [reflexivity|]. intros ? st2 _.
  cbn [clear_start_epoch with_clear_start_epoch]. rewrite Hzero.
  apply M_bind_ext; [|reflexivity].
  replace (if b then 0 else 0) with 0 by (destruct b; reflexivity).
  replace (if clear_start_epoch cfg then 0 else 0) with 0
    by (destruct (clear_start_epoch cfg); reflexivity).
  apply loop_ignores_clear_start_epoch.
Qed.

(** ** The checkpoints a run leaves on disk *)

Lemma saves_of_saved_of tr : saves_of tr = (saved_of tr).*1.
Proof.
  induction tr as [|ev tr IH]; [reflexivity|].
  destruct ev; unfold saves_of, saved_of in *; cbn [omap list_omap fmap list_fmap fst];
    try exact IH.
  now rewrite IH.
Qed.

Lemma elem_of_saved_of e b tr : EvSave e b ∈ tr <-> (e, b) ∈ saved_of tr.
Proof.
  unfold saved_of. rewrite list_elem_of_omap. split.
  - intros H. exists (EvSave e b). split; [exact H | reflexivity].
  - intros (ev & Hin & Hev). destruct ev; try discriminate.
    injection Hev as -> ->. exact Hin.
Qed.

Section DiskFacts.
Context {StateDict OptState : Type}.
Variable cfg : Config.
Variable w : @World StateDict OptState.

Lemma files_after_save_lookup e b po files e' name :
  name ∈ checkpoint_file_names ->
  files_after_save cfg w e b po files !! checkpoint_path (save_dir cfg) e' name =
  if bool_decide (e' = e) then
    if bool_decide (name = "config.py") then Some (FText (config_file w))
    else if bool_decide (name = "optimizer.pth") then Some (FOptimizer (snd po))
    else Some (FCheckpoint (mkCheckpoint e b (net_name cfg) max_stride (fst po)
                              (num_modality w) (num_classes cfg)))
  else files !! checkpoint_path (save_dir cfg) e' name.
Proof.
  intros Hname. unfold files_after_save.
  destruct (bool_decide_reflect (e' = e)) as [-> | Hne].
  - unfold checkpoint_file_names in Hname.
    repeat (apply elem_of_cons in Hname as [-> | Hname]);
      [| | | apply not_elem_of_nil in Hname; contradiction].
    + rewrite lookup_insert_ne by (apply checkpoint_path_ne; auto; right; discriminate).
      rewrite lookup_insert_ne by (apply checkpoint_path_ne; auto; right; discriminate).
      rewrite lookup_insert_eq. reflexivity.
    + rewrite lookup_insert_ne by (apply checkpoint_path_ne; auto; right; discriminate).
      rewrite lookup_insert_eq. reflexivity.
    + rewrite lookup_insert_eq. reflexivity.
  - rewrite !lookup_insert_ne by (apply checkpoint_path_ne; auto). reflexivity.
Qed.

Lemma files_after_save_other e b po files path :
  (forall name, name ∈ checkpoint_file_names ->
                path <> checkpoint_path (save_dir cfg) e name) ->
  files_after_save cfg w e b po files !! path = files !! path.
Proof.
  intros Hpath. unfold files_after_save.
  rewrite !lookup_insert_ne by (apply not_eq_sym, Hpath; auto). reflexivity.
Qed.

Lemma save_due_fresh l (st : @State StateDict OptState) :
  saves_invariant cfg w l st ->
  save_due cfg l (epoch_of cfg w (batch_idx l)) = true ->
  epoch_of cfg w (batch_idx l) ∉ saves_of (trace st).
Proof.
  intros (_ & _ & Hle & Hcur) Hdue Hin.
  unfold save_due in Hdue.
  apply andb_prop in Hdue as [_ Hne]. apply negb_true_iff, Z.eqb_neq in Hne.
  apply Hle in Hin.
  assert (Hd : direction cfg = 1 \/ direction cfg = -1)
    by (unfold direction; destruct (0 <=? batchsize cfg); auto).
  destruct Hd as [Hd|Hd]; rewrite Hd in *; lia.
Qed.

Variable files : gmap string (@File StateDict OptState).
Variable po : StateDict * OptState.

Lemma files_invariant_on_disk k l st :
  (k <= loader_len w)%nat -> files_invariant cfg w files po k l st ->
  on_disk cfg w files po st.
Proof.
  intros Hk (_ & _ & Hsaved & Hframe). split; [|exact Hframe].
  intros e b Hin. destruct (Hsaved e b Hin) as ((Hb & He) & Hfiles).
  split; [split; [lia | exact He] | exact Hfiles].
Qed.

Lemma files_invariant_iteration k l i st :
  (k < loader_len w)%nat ->
  files_invariant cfg w files po k l st /\ saves_invariant cfg w l st ->
  wp (iteration cfg w l i)
     (fun l' st' => files_invariant cfg w files po (S k) l' st' /\
                    saves_invariant cfg w l' st')
     (fun _ st' => on_disk cfg w files po st') st.
Proof.
  intros Hk [Hinv Hsaves].
  pose proof Hinv as (Hb & Hpo & Hsaved & Hframe).
  eapply wp_mono;
    [apply wp_conj; [apply iteration_effect_spec
                    | apply (saves_invariant_iteration cfg w l i st Hsaves)] | |].
  - intros l' st' [(Hb' & Hpo' & Htr & Hfs) Hsaves']. split; [|exact Hsaves'].
    assert (Hupd : update w (batch_idx l) (net_params st, opt_state st) =
                   updates w (S k) po)
      by (rewrite updates_S, <- Hpo, Hb; reflexivity).
    rewrite Hupd in *.
    split; [lia|]. split; [exact Hpo'|].
    destruct (save_due cfg l (epoch_of cfg w (batch_idx l))) eqn:Hdue.
    + pose proof (save_due_fresh l st Hsaves Hdue) as Hfresh.
      split.
      * intros e b. rewrite Htr, elem_of_app, list_elem_of_singleton.
        intros [Hold | Hnew].
        -- destruct (Hsaved e b Hold) as ((Hbb & He) & Hp & Ho & Hc).
           assert (Hne : e <> epoch_of cfg w (batch_idx l)).
           { intros ->. apply Hfresh. rewrite saves_of_saved_of.
             apply list_elem_of_fmap. exists (epoch_of cfg w (batch_idx l), b).
             split; [reflexivity | exact Hold]. }
           rewrite Hfs, !files_after_save_lookup by auto.
           rewrite !bool_decide_eq_false_2 by exact Hne.
           split; [split; [lia | exact He]|]. auto.
        -- injection Hnew as -> ->.
           rewrite Hfs, !files_after_save_lookup by auto.
           rewrite !bool_decide_eq_true_2 by reflexivity. cbn.
           split; [split; [lia | f_equal; lia]|].
           split; [|split; [|reflexivity]].
           ++ unfold checkpoint_at. do 3 f_equal.
              replace (Z.to_nat (batch_idx l + 1)) with (S k) by lia. reflexivity.
           ++ replace (Z.to_nat (batch_idx l + 1)) with (S k) by lia. reflexivity.
      * intros path Hpath. rewrite Hfs, files_after_save_other.
        -- apply Hframe. intros e name He Hname. apply Hpath; [|exact Hname].
           rewrite saves_of_saved_of, Htr, fmap_app, elem_of_app. left.
           rewrite <- saves_of_saved_of. exact He.
        -- intros name Hname. apply Hpath; [|exact Hname].
           rewrite saves_of_saved_of, Htr, fmap_app, elem_of_app. right.
           cbn. apply list_elem_of_singleton. reflexivity.
    + rewrite app_nil_r in Htr. rewrite Hfs, Htr, saves_of_saved_of, Htr.
      rewrite <- saves_of_saved_of. split; [|exact Hframe].
      intros e b Hin. destruct (Hsaved e b Hin) as ((Hbb & He) & Hfiles).
      split; [split; [lia | exact He] | exact Hfiles].
  - intros e st' [(Htr & Hfs & _) _]. cbv beta.
    unfold on_disk. rewrite Hfs, saves_of_saved_of, Htr, <- saves_of_saved_of.
    split; [|exact Hframe].
    intros e0 b Hin. destruct (Hsaved e0 b Hin) as ((Hbb & He) & Hfiles).
    split; [split; [lia | exact He] | exact Hfiles].
Qed.

End DiskFacts.

Lemma saved_of_before_loop {StateDict OptState : Type} (st st1 : @State StateDict OptState) :
  before_loop st st1 -> saved_of (trace st1) = saved_of (trace st).
Proof.
  intros (_ & _ & _ & evs & Htr & Hevs). rewrite Htr, saved_of_app.
  destruct Hevs as [-> | [-> | [-> | ->]]]; simpl; now rewrite app_nil_r.
Qed.

Lemma train_on_disk {StateDict OptState : Type} cfg (w : @World StateDict OptState)
    files p o :
  on_disk cfg w files (p, o) (snd (train cfg w (initial_state files p o))).
Proof.
  set (P := on_disk cfg w files (p, o)).
  assert (Hwp : wp (train cfg w) (fun _ => P) (fun _ => P) (initial_state files p o)).
  { apply wp_train.
    - intros e st1 Hpre. pose proof (saved_of_before_loop _ _ Hpre) as Hs.
      destruct Hpre as (Hf & _). unfold P, on_disk.
      rewrite saves_of_saved_of, Hs, Hf. cbn. split.
      + intros e0 b Hin. now apply not_elem_of_nil in Hin.
      + reflexivity.
    - intros _ st1 Hpre _. pose proof (saved_of_before_loop _ _ Hpre) as Hs.
      pose proof (before_loop_observers _ _ Hpre) as [_ Hsv].
      destruct Hpre as (Hf & Hp & Ho & _). cbn in Hs, Hsv, Hf, Hp, Ho.
      eapply wp_mono.
      + apply (wp_loop_bounded cfg w
                 (fun k l st => files_invariant cfg w files (p, o) k l st /\
                                saves_invariant cfg w l st)
                 (fun _ => P) (loader_len w)) with (k := 0%nat).
        * intros k l i st Hk Hinv. apply files_invariant_iteration; assumption.
        * rewrite range_len. reflexivity.
        * split.
          -- unfold files_invariant. rewrite saves_of_saved_of, Hs, Hf, Hp, Ho. cbn.
             split; [reflexivity|]. split; [reflexivity|]. split; [|reflexivity].
             intros e0 b Hin. now apply not_elem_of_nil in Hin.
          -- unfold saves_invariant. rewrite Hsv. cbn [batch_idx last_save_epoch].
             rewrite epoch_of_0. repeat split; [constructor | apply not_elem_of_nil | | lia].
             intros s0 Hs'. now apply not_elem_of_nil in Hs'.
      + intros l st2 [Hinv _]. eapply files_invariant_on_disk; [|exact Hinv]. lia.
      + auto. }
  apply wp_outcome in Hwp.
  destruct (fst (train cfg w (initial_state files p o))); exact Hwp.
Qed.

(** X20. A checkpoint is filed under the epoch of the batch that was just
    trained, while the batch index it stores has already been incremented:
    every checkpoint saved in a run has a batch index [b] between 1 and the
    number of batches, and the epoch index derived from [b - 1]. *)
Theorem saved_batch_index_is_one_past_its_epoch
    {StateDict OptState : Type} (cfg : Config) (w : @World StateDict OptState)
    (files : gmap string File) (p : StateDict) (o : OptState) (e b : Z) :
  EvSave e b ∈ trace (snd (train cfg w (initial_state files p o))) ->
  1 <= b <= Z.of_nat (loader_len w) /\ e = epoch_of cfg w (b - 1).
Proof.
  intros Hin. apply elem_of_saved_of in Hin.
  destruct (train_on_disk cfg w files p o) as [Hsaved _].
  destruct (Hsaved e b Hin) as [Hb _]. exact Hb.
Qed.

(** X21. When a run ends, by returning or by raising, every checkpoint it
    has saved is on disk in full: [params.pth] of the epoch's folder holds
    the epoch and batch indices, the network name, the declared stride, the
    channel counts and the parameters as they were after the updates of the
    first [b] batches; [optimizer.pth] holds the optimizer state after the
    same updates; [config.py] is the copy of the configuration file.  No
    later checkpoint has overwritten any of them. *)
Theorem saved_checkpoints_are_on_disk
    {StateDict OptState : Type} (cfg : Config) (w : @World StateDict OptState)
    (files : gmap string File) (p : StateDict) (o : OptState) (e b : Z) :
  let st' := snd (train cfg w (initial_state files p o)) in
  EvSave e b ∈ trace st' ->
  fs st' !! checkpoint_path (save_dir cfg) e "params.pth" =
    Some (FCheckpoint (checkpoint_at cfg w (p, o) e b)) /\
  fs st' !! checkpoint_path (save_dir cfg) e "optimizer.pth" =
    Some (FOptimizer (snd (updates w (Z.to_nat b) (p, o)))) /\
  fs st' !! checkpoint_path (save_dir cfg) e "config.py" =
    Some (FText (config_file w)).
Proof.
  intros st' Hin. apply elem_of_saved_of in Hin.
  destruct (train_on_disk cfg w files p o) as [Hsaved _].
  destruct (Hsaved e b Hin) as [_ Hfiles]. exact Hfiles.
Qed.


Lemma a_run_saves_epoch_1_at_batch_3 :
  let cfg := a_config (-1) 2 [64; 64; 64] (NameStr "Dice") [1%Q] in
  let w := a_world 4 6 (mkShape 2 1 64 64 64) echo_class in
  EvSave 1 3 ∈ trace (snd (train cfg w (initial_state ∅ 0%nat 0%nat))).
Proof.
  intros cfg w. apply list_elem_of_In. vm_compute.
  repeat first [left; reflexivity | right].
Qed.

Lemma saved_batch_index_is_one_past_its_epoch_witness :
  let cfg := a_config (-1) 2 [64; 64; 64] (NameStr "Dice") [1%Q] in
  let w := a_world 4 6 (mkShape 2 1 64 64 64) echo_class in
  1 = epoch_of cfg w (3 - 1).
Proof.
  intros cfg w.
  exact (proj2 (saved_batch_index_is_one_past_its_epoch cfg w ∅ 0%nat 0%nat 1 3
                  a_run_saves_epoch_1_at_batch_3)).
Defined.

Lemma saved_checkpoints_are_on_disk_witness :
  let cfg := a_config (-1) 2 [64; 64; 64] (NameStr "Dice") [1%Q] in
  let w := a_world 4 6 (mkShape 2 1 64 64 64) echo_class in
  fs (snd (train cfg w (initial_state ∅ 0%nat 0%nat)))
    !! checkpoint_path "/out" 1 "params.pth" =
  Some (FCheckpoint (checkpoint_at cfg w (0%nat, 0%nat) 1 3)).
Proof.
  intros cfg w.
  exact (proj1 (saved_checkpoints_are_on_disk cfg w ∅ 0%nat 0%nat 1 3
                  a_run_saves_epoch_1_at_batch_3)).
Defined.


(** ** What a complete run needs *)




End EngineFacts.
